(** * Process metrics sampler (metricbeat system/process) and its gosigar
      data source: a shallow embedding and its properties.

    Sources embedded here:
    - metricbeat/module/system/process/helper.go
    - vendor/github.com/elastic/gosigar/sigar_linux_common.go

    Conventions.  Go machine integers are [Z] with the wrap-around written
    out; [float64] is an IEEE-754 binary64 value of [SpecFloat]; Go maps are
    [gmap]; a Go slice is a backing array together with a length; a call
    that can panic returns an [outcome]; the operating system is a record
    of answers, and every query made of it is logged by the monad [M].
    Logging through [logp] is left out.

    Part I embeds the code; Part II states and proves its properties.
    Part III follows one sampling cycle as a whole; Part IV embeds and
    proves more of gosigar, the files of a process; Part V does the same
    for the files that are read line by line; Part VI applies the
    theorems to concrete systems. *)

From Stdlib Require Import ZArith String Ascii List Bool Lia.
From Stdlib Require Import Floats.SpecFloat.
From stdpp Require Import gmap strings list fin_maps.

Set Warnings "-register-all".
Local Open Scope Z_scope.

(** * Part I: the embedding *)

(** ** Go machine integers *)

Module GoInt.

Definition two64 : Z := 2 ^ 64.
Definition maxInt64 : Z := 2 ^ 63 - 1.
Definition minInt64 : Z := - 2 ^ 63.

(** Arithmetic on [uint64] wraps modulo 2^64. *)
Definition wrap64 (z : Z) : Z := z mod two64.
Definition sub_u64 (a b : Z) : Z := wrap64 (a - b).
Definition mul_u64 (a b : Z) : Z := wrap64 (a * b).

(** The conversion [int64(u)] of a [uint64] reinterprets the bits. *)
Definition int64_of_u64 (u : Z) : Z :=
  if u <? 2 ^ 63 then u else u - two64.

(** A saturating [int64]: [time.Time.Sub] returns the largest or smallest
    [Duration] when the difference does not fit. *)
Definition sat64 (z : Z) : Z :=
  if z <? minInt64 then minInt64
  else if maxInt64 <? z then maxInt64 else z.

Definition is_u64 (z : Z) : Prop := 0 <= z < two64.
Definition is_i64 (z : Z) : Prop := minInt64 <= z <= maxInt64.

End GoInt.

(** ** Panics and slices *)

(** A Go call either returns or panics (index or slice bound out of range). *)
Inductive outcome (A : Type) : Type :=
| Returns (a : A)
| Panics.
Arguments Returns {A} a.
Arguments Panics {A}.

Definition outcome_bind {A B} (o : outcome A) (k : A -> outcome B) : outcome B :=
  match o with
  | Returns a => k a
  | Panics => Panics
  end.

Notation "x <- c ;;; k" := (outcome_bind c (fun x => k))
  (at level 100, c at next level, right associativity).

(** [l[i]] on a slice used as a plain list. *)
Definition index {A} (l : list A) (i : nat) : outcome A :=
  match l !! i with
  | Some a => Returns a
  | None => Panics
  end.

Module GoSlice.

(** A slice is a window of length [len] on a backing array [arr]; its
    capacity is the length of the backing array. *)
Record slice (A : Type) : Type := mkSlice { arr : list A; len : nat }.
Arguments mkSlice {A} arr len.
Arguments arr {A} s.
Arguments len {A} s.

Definition cap {A} (s : slice A) : nat := length (arr s).

(** What [range s] and [s[i]] see. *)
Definition elems {A} (s : slice A) : list A := take (len s) (arr s).

(** A slice literal, or the result of [make([]T, n)]: length = capacity. *)
Definition of_list {A} (l : list A) : slice A := mkSlice l (length l).

(** [s[:n]]: the bound is checked against the capacity, not the length. *)
Definition slice_to {A} (s : slice A) (n : Z) : outcome (slice A) :=
  if (0 <=? n) && (n <=? Z.of_nat (cap s))
  then Returns (mkSlice (arr s) (Z.to_nat n))
  else Panics.

(** The effect on [s] of sorting it in place with [sort]. *)
Definition sorted_in_place {A} (sort : list A -> list A) (s : slice A) : slice A :=
  mkSlice (sort (elems s) ++ drop (len s) (arr s)) (len s).

End GoSlice.

(** ** What the Go runtime and library provide

    [sort.Slice] is not stable and its algorithm is the library's business:
    it is taken by its contract.  The elements are permuted, and when
    [less] is a transitive ordering of them (the requirement of package
    [sort]) no element ends up before one it is less than.  [append_cap n]
    is the capacity of a slice grown from [nil] by [n] calls of [append]. *)

Definition transitive_ordering {A} (less : A -> A -> bool) (l : list A) : Prop :=
  (forall a, a ∈ l -> less a a = false) /\
  (forall a b c, a ∈ l -> b ∈ l -> c ∈ l ->
     less a b = true -> less b c = true -> less a c = true) /\
  (forall a b c, a ∈ l -> b ∈ l -> c ∈ l ->
     less a b = false -> less b c = false -> less a c = false).

Definition sorted_by {A} (less : A -> A -> bool) (l : list A) : Prop :=
  forall i j a b, (i < j)%nat -> l !! i = Some a -> l !! j = Some b ->
    less b a = false.

Class GoRuntime : Type := {
  sort_Slice : forall {A : Type}, (A -> A -> bool) -> list A -> list A;
  sort_Slice_perm : forall (A : Type) (less : A -> A -> bool) (l : list A),
    sort_Slice less l ≡ₚ l;
  sort_Slice_sorted : forall (A : Type) (less : A -> A -> bool) (l : list A),
    transitive_ordering less l -> sorted_by less (sort_Slice less l);
  append_cap : nat -> nat
}.

(** ** float64 *)

Module F64.

Definition prec : Z := 53.
Definition emax : Z := 1024.

Definition float64 : Type := spec_float.

Definition zero : float64 := S754_zero false.

(** [float64(n)] for an integer [n]: rounding to nearest, ties to even. *)
Definition of_Z (n : Z) : float64 := binary_normalize prec emax n 0 false.

Definition mul (x y : float64) : float64 := SFmul prec emax x y.
Definition div (x y : float64) : float64 := SFdiv prec emax x y.
Definition sub (x y : float64) : float64 := SFsub prec emax x y.
Definition opp (x : float64) : float64 := SFopp x.

(** [x < y], [x <= y], [x > y], [x >= y]; all false on a NaN. *)
Definition lt (x y : float64) : bool := SFltb x y.
Definition le (x y : float64) : bool := SFleb x y.
Definition gt (x y : float64) : bool := SFltb y x.
Definition ge (x y : float64) : bool := SFleb y x.

(** The constant [.5]. *)
Definition half : float64 := binary_normalize prec emax 1 (-1) false.

(** [math.Floor]: the largest integer value not above [x]; zeros,
    infinities and NaN are returned as they are.  A finite value with a
    non-negative exponent is an integer already. *)
Definition floor (x : float64) : float64 :=
  match x with
  | S754_finite s m e =>
      if 0 <=? e then x
      else
        let q := Z.shiftr (Zpos m) (- e) in
        if Zpos m =? Z.shiftl q (- e) then x
        else if s then of_Z (- (q + 1))
        else of_Z q
  | _ => x
  end.

(** [math.Ceil(x)] is [-Floor(-x)]. *)
Definition ceil (x : float64) : float64 := opp (floor (opp x)).

End F64.

Abbreviation float64 := F64.float64.

(** ** Package system *)

Module System.

(** Modelled from the spec: [system.Round(val, roundOn, places)] is not among
    the sources.  The spec says percentages are "rounded to a fixed
    precision", "a fixed small number of decimal digits with round-half-up
    semantics"; the call sites pass [roundOn = .5] and [places = 4].  The
    value is scaled by [10^places], rounded up when its fractional part
    reaches [roundOn] and down otherwise, and scaled back. *)
Definition Round (val roundOn : float64) (places : Z) : float64 :=
  let pow := F64.of_Z (10 ^ places) in
  let digit := F64.mul pow val in
  let frac := F64.sub digit (F64.floor digit) in
  let round := if F64.ge frac roundOn then F64.ceil digit else F64.floor digit in
  F64.div round pow.

End System.

(** ** Package strings and strconv: the functions the parser calls

    A Go string is a sequence of bytes; it is a [string] of [ascii] here. *)

Module GoStrings.

(** [cut_after sep s]: [s] cut just after the first occurrence of [sep]. *)
Fixpoint cut_after (sep s : string) : option (string * string) :=
  if String.prefix sep s
  then Some (sep, String.substring (String.length sep) (String.length s) s)
  else match s with
       | EmptyString => None
       | String c s' =>
           match cut_after sep s' with
           | Some (a, b) => Some (String c a, b)
           | None => None
           end
       end.

(** [strings.SplitAfterN(s, sep, n)] for a non-empty [sep] and [n >= 0]: at
    most [n] pieces, each but the last ending with [sep]; the last piece is
    the unsplit remainder. *)
Fixpoint SplitAfterN (s sep : string) (n : nat) : list string :=
  match n with
  | O => []
  | S O => [s]
  | S n' =>
      match cut_after sep s with
      | Some (a, b) => a :: SplitAfterN b sep n'
      | None => [s]
      end
  end.

(** White space within ASCII: tab, line feed, vertical tab, form feed,
    carriage return and space. *)
Definition isSpace (c : ascii) : bool :=
  let n := nat_of_ascii c in
  ((9 <=? n) && (n <=? 13))%nat || (n =? 32)%nat.

Definition byte (n : nat) : ascii := ascii_of_nat n.

(** The white space of Unicode that lies outside ASCII, each code point
    by its UTF-8 encoding: U+0085, U+00A0, U+1680, U+2000 to U+200A,
    U+2028, U+2029, U+202F, U+205F and U+3000. *)
Definition wideSpaces : list string :=
  [ String (byte 194) (String (byte 133) "");
    String (byte 194) (String (byte 160) "");
    String (byte 225) (String (byte 154) (String (byte 128) ""));
    String (byte 226) (String (byte 128) (String (byte 128) ""));
    String (byte 226) (String (byte 128) (String (byte 129) ""));
    String (byte 226) (String (byte 128) (String (byte 130) ""));
    String (byte 226) (String (byte 128) (String (byte 131) ""));
    String (byte 226) (String (byte 128) (String (byte 132) ""));
    String (byte 226) (String (byte 128) (String (byte 133) ""));
    String (byte 226) (String (byte 128) (String (byte 134) ""));
    String (byte 226) (String (byte 128) (String (byte 135) ""));
    String (byte 226) (String (byte 128) (String (byte 136) ""));
    String (byte 226) (String (byte 128) (String (byte 137) ""));
    String (byte 226) (String (byte 128) (String (byte 138) ""));
    String (byte 226) (String (byte 128) (String (byte 168) ""));
    String (byte 226) (String (byte 128) (String (byte 169) ""));
    String (byte 226) (String (byte 128) (String (byte 175) ""));
    String (byte 226) (String (byte 129) (String (byte 159) ""));
    String (byte 227) (String (byte 128) (String (byte 128) "")) ].

(** The width in bytes of the white-space rune that [s] starts with, and
    0 when [s] starts with none.  A byte that starts one of those
    encodings always starts a rune in Go's decoding, and the bytes that
    follow it in the encoding are continuation bytes, so that a scan by
    bytes meets the same white space as the scan by runes of
    [strings.FieldsFunc(s, unicode.IsSpace)]. *)
Definition spaceWidth (s : string) : nat :=
  match s with
  | EmptyString => O
  | String c _ =>
      if isSpace c then 1%nat
      else match List.find (fun p => String.prefix p s) wideSpaces with
           | Some p => String.length p
           | None => O
           end
  end.

(** The fields of [s] when [skip] bytes of a white-space rune are still
    to be passed and [cur] is the field being read. *)
Fixpoint Fields_from (skip : nat) (cur : option string) (s : string) : list string :=
  match s with
  | EmptyString => match cur with Some w => [w] | None => [] end
  | String c s' =>
      match skip with
      | S skip' => Fields_from skip' cur s'
      | O =>
          match spaceWidth s with
          | S rest =>
              match cur with
              | Some w => w :: Fields_from rest None s'
              | None => Fields_from rest None s'
              end
          | O =>
              Fields_from O
                (Some (match cur with
                       | Some w => w +:+ String c EmptyString
                       | None => String c EmptyString
                       end)) s'
          end
      end
  end.

(** [strings.Fields(s)]: the maximal runs of bytes between the white space
    of Unicode. *)
Definition Fields (s : string) : list string := Fields_from O None s.

(** [s[i]] on a string. *)
Definition byte_at (s : string) (i : nat) : outcome ascii :=
  match String.get i s with
  | Some c => Returns c
  | None => Panics
  end.

Definition digit_of (c : ascii) : option Z :=
  let n := nat_of_ascii c in
  if ((48 <=? n) && (n <=? 57))%nat then Some (Z.of_nat n - 48) else None.

(** The number that the decimal digits of [s] spell after [acc], when [s]
    holds nothing but digits. *)
Fixpoint digits_value (acc : Z) (s : string) : option Z :=
  match s with
  | EmptyString => Some acc
  | String c s' =>
      match digit_of c with
      | Some d => digits_value (10 * acc + d) s'
      | None => None
      end
  end.

(** The value that the loop of [strconv.ParseUint(s, 10, 64)] ends with,
    [n] being the value read so far: 0 at a byte that is not a decimal
    digit, and the largest [uint64] as soon as the value leaves the range,
    whatever follows. *)
Fixpoint read_digits (n : Z) (s : string) : Z :=
  match s with
  | EmptyString => n
  | String c s' =>
      match digit_of c with
      | None => 0
      | Some d =>
          if GoInt.two64 <=? 10 * n + d then GoInt.two64 - 1
          else read_digits (10 * n + d) s'
      end
  end.

(** The value [strconv.Atoi(s)] returns, its error dropped (as in
    [x, _ = strconv.Atoi(s)]): 0 on a syntax error, the nearest [int] on a
    range error. *)
Definition Atoi (s : string) : Z :=
  match s with
  | EmptyString => 0
  | String c rest =>
      let neg := Ascii.eqb c "-" in
      let body := if neg || Ascii.eqb c "+" then rest else s in
      match body with
      | EmptyString => 0
      | _ =>
          let un := read_digits 0 body in
          GoInt.sat64 (if neg then - un else un)
      end
  end.

End GoStrings.

(** ** gosigar (sigar_linux_common.go) *)

Module Sigar.

(** Errors, by what the callers test: [sigar.IsNotImplemented],
    [os.IsPermission], and the errors built by [fmt.Errorf] and
    [errors.New], which are neither. *)
Inductive error : Type :=
| ErrNotImplemented
| ErrPermission
| ESRCH
| ErrIO (msg : string)
| Errorf (msg : string) (pid : Z) (cause : option error).

Definition IsNotImplemented (e : error) : bool :=
  match e with ErrNotImplemented => true | _ => false end.

Definition IsPermission (e : error) : bool :=
  match e with ErrPermission => true | _ => false end.

Module ProcState.
Record t : Type := mk {
  Name : string; Username : string; State : ascii;
  Ppid : Z; Pgid : Z; Tty : Z; Priority : Z; Nice : Z; Processor : Z }.
End ProcState.

Module ProcMem.
Record t : Type := mk {
  Size : Z; Resident : Z; Share : Z;
  MinorFaults : Z; MajorFaults : Z; PageFaults : Z }.
Definition zero : t := mk 0 0 0 0 0 0.
End ProcMem.

Module ProcTime.
Record t : Type := mk { StartTime : Z; User : Z; Sys : Z; Total : Z }.
Definition zero : t := mk 0 0 0 0.
End ProcTime.

Module ProcIO.
Record t : Type := mk {
  ReadChar : Z; WriteChar : Z; SysCounterRead : Z; SysCounterWrite : Z;
  ReadBytes : Z; WriteBytes : Z }.
Definition zero : t := mk 0 0 0 0 0 0.
End ProcIO.

Module ProcFDUsage.
Record t : Type := mk { Open : Z; SoftLimit : Z; HardLimit : Z }.
Definition zero : t := mk 0 0 0.
(** Struct comparison [fd == (sigar.ProcFDUsage{})]. *)
Definition is_zero (fd : t) : bool :=
  (Open fd =? 0) && (SoftLimit fd =? 0) && (HardLimit fd =? 0).
End ProcFDUsage.

Module ProcExe.
Record t : Type := mk { Name : string; Cwd : string; Root : string }.
Definition zero : t := mk EmptyString EmptyString EmptyString.
End ProcExe.

(** The per-process files [ProcState.Get] reads: [readProcFile pid name];
    the parsed [/proc/[pid]/status] that [getProcStatus] returns; and
    [user.LookupId]. *)
Record ProcFS : Type := {
  readProcFile : Z -> string -> error + string;
  getProcStatus : Z -> error + gmap string string;
  LookupId : string -> option string }.

(** [getUIDs]: the four values of the "Uid" line. *)
Definition getUIDs (status : gmap string string) : error + list string :=
  match status !! "Uid"%string with
  | None => inl (ErrIO "Uid not found in proc status")
  | Some uidLine =>
      let uidStrs := GoStrings.Fields uidLine in
      if (length uidStrs =? 4)%nat then inr uidStrs
      else inl (ErrIO "Uid line did not contain four values")
  end.

(** [ProcState.Get(pid)], lines 180-228, on a zero receiver.  The
    header is cut after the first ")" of the file; the name is what
    follows the first space of the header; the fields are those of the
    remainder.  An index out of range panics. *)
Definition ProcState_Get (fs : ProcFS) (pid : Z) : outcome (error + ProcState.t) :=
  match readProcFile fs pid "stat" with
  | inl err => Returns (inl err)
  | inr contents =>
      let headerAndStats := GoStrings.SplitAfterN contents ")" 2 in
      pidAndName <- index headerAndStats 0 ;;;
      stats <- index headerAndStats 1 ;;;
      let fields := GoStrings.Fields stats in
      name <- index (GoStrings.SplitAfterN pidAndName " " 2) 1 ;;;
      first <- GoStrings.byte_at name 0 ;;;
      last <- GoStrings.byte_at name (String.length name - 1) ;;;
      if Ascii.eqb first "(" && Ascii.eqb last ")" then
        let Name := String.substring 1 (String.length name - 2) name in
        f0 <- index fields 0 ;;;
        State <- GoStrings.byte_at f0 0 ;;;
        f1 <- index fields 1 ;;;
        f2 <- index fields 2 ;;;
        f4 <- index fields 4 ;;;
        f15 <- index fields 15 ;;;
        f16 <- index fields 16 ;;;
        f36 <- index fields 36 ;;;
        match getProcStatus fs pid with
        | inl err =>
            Returns (inl (Errorf "failed to read process status" pid (Some err)))
        | inr status =>
            match getUIDs status with
            | inl err =>
                Returns (inl (Errorf "failed to read process status" pid (Some err)))
            | inr uids =>
                uid <- index uids 0 ;;;
                let Username :=
                  match LookupId fs uid with
                  | Some user => user
                  | None => uid
                  end in
                Returns (inr (ProcState.mk Name Username State
                                (GoStrings.Atoi f1) (GoStrings.Atoi f2)
                                (GoStrings.Atoi f4) (GoStrings.Atoi f15)
                                (GoStrings.Atoi f16) (GoStrings.Atoi f36)))
            end
        end
      else Returns (inl (Errorf "Malformed process stats" pid None))
  end.

End Sigar.

(** ** The sampler (helper.go): data *)

Module Helper.

Import Sigar.

(** [common.MapStr] is [map[string]interface{}]; the values the sampler
    stores are integers, strings, floats, times and nested maps. *)
Inductive Value : Type :=
| VInt (n : Z)
| VUint (n : Z)
| VString (s : string)
| VFloat (f : float64)
| VTime (unixNano : Z)
| VMapStr (m : gmap string Value).

Abbreviation MapStr := (gmap string Value).

Fixpoint split_on (sep : ascii) (cur s : string) : list string :=
  match s with
  | EmptyString => [cur]
  | String c s' =>
      if Ascii.eqb c sep then cur :: split_on sep EmptyString s'
      else split_on sep (cur +:+ String c EmptyString) s'
  end.

Fixpoint put_path (path : list string) (v : Value) (m : MapStr) : MapStr :=
  match path with
  | [] => m
  | [k] => <[k := v]> m
  | k :: rest =>
      match m !! k with
      | None => <[k := VMapStr (put_path rest v ∅)]> m
      | Some (VMapStr sub) => <[k := VMapStr (put_path rest v sub)]> m
      | Some _ => m
      end
  end.

(** Modelled from the spec: [common.MapStr.Put] (libbeat) is not among the
    sources.  The record has "nested groups"; [Put(key, value)] stores
    [value] under the dotted [key], entering the group of each component
    and creating the groups that are missing.  Its error (a component that
    is not a group) is dropped by the caller, and the map is then left as
    it was. *)
Definition Put (key : string) (v : Value) (m : MapStr) : MapStr :=
  put_path (split_on "." EmptyString key) v m.

(** [match.Matcher]: a compiled pattern, used through [MatchString]. *)
Record Matcher : Type := { MatchString : string -> bool }.

Record Process : Type := mkProcess {
  Pid : Z;
  Ppid : Z;
  Pgid : Z;
  Name : string;
  Username : string;
  State : string;
  CmdLine : string;
  Cwd : string;
  Mem : ProcMem.t;
  Cpu : ProcTime.t;
  IO : ProcIO.t;
  Ctime : Z;                 (* time.Time, in nanoseconds *)
  FD : ProcFDUsage.t;
  Env : option MapStr;       (* [None] is the nil map *)
  cpuTotalPct : float64 }.

(** The zero value [Process{}]. *)
Definition zeroProcess : Process :=
  mkProcess 0 0 0 EmptyString EmptyString EmptyString EmptyString EmptyString
    ProcMem.zero ProcTime.zero ProcIO.zero 0 ProcFDUsage.zero None F64.zero.

(** [includeTopConfig] is declared in config.go (not among the sources);
    these are the fields helper.go reads. *)
Record includeTopConfig : Type := {
  Enabled : bool;
  ByCPU : Z;
  ByMemory : Z }.

Record ProcStats : Type := mkProcStats {
  Procs : list string;
  ProcsMap : gmap Z Process;     (* [map[int]*Process]; no entry is nil *)
  CpuTicks : bool;
  EnvWhitelist : list string;
  CacheCmdLine : bool;
  IncludeTop : includeTopConfig;
  procRegexps : list Matcher;
  envRegexps : list Matcher }.

(** [procStats.ProcsMap = m]. *)
Definition set_ProcsMap (procStats : ProcStats) (m : gmap Z Process) : ProcStats :=
  mkProcStats (Procs procStats) m (CpuTicks procStats) (EnvWhitelist procStats)
    (CacheCmdLine procStats) (IncludeTop procStats) (procRegexps procStats)
    (envRegexps procStats).

(** ** The operating system, and the log of what was asked of it *)

(** The answers of the data source during one sampling cycle.  [ProcExe.Get]
    and [ProcArgs.Get] leave what they had read in the receiver when they
    fail, and the caller reads it: they answer with the receiver and the
    error.  [time_Now pid] is the clock read by [newProcess(pid, ...)];
    [GetMemory] is [memory.GetMemory], by the total it reports. *)
Record DataSource : Type := {
  GOOS : string;
  Getpid : Z;
  ProcList_Get : error + list Z;
  ProcState_Get : Z -> error + ProcState.t;
  ProcExe_Get : Z -> ProcExe.t * option error;
  ProcMem_Get : Z -> error + ProcMem.t;
  ProcTime_Get : Z -> error + ProcTime.t;
  ProcIO_Get : Z -> error + ProcIO.t;
  ProcArgs_Get : Z -> list string * option error;
  ProcFDUsage_Get : Z -> error + ProcFDUsage.t;
  ProcEnv_Get : Z -> error + gmap string string;
  time_Now : Z -> Z;
  GetMemory : error + Z }.

Inductive Query : Type :=
| QProcList
| QProcState (pid : Z)
| QProcExe (pid : Z)
| QProcMem (pid : Z)
| QProcTime (pid : Z)
| QProcIO (pid : Z)
| QProcArgs (pid : Z)
| QProcFDUsage (pid : Z)
| QProcEnv (pid : Z)
| QGetMemory.


(** A computation that queries the system: it extends the log. *)
Definition M (A : Type) : Type := list Query -> A * list Query.

Definition ret {A} (a : A) : M A := fun log => (a, log).

Definition bind {A B} (c : M A) (k : A -> M B) : M B :=
  fun log => let '(a, log') := c log in k a log'.

Definition ask (q : Query) : M unit := fun log => (tt, log ++ [q]).

Notation "x <~ c ;; k" := (bind c (fun x => k))
  (at level 100, c at next level, right associativity).
Notation "c ;; k" := (bind c (fun _ => k))
  (at level 100, right associativity).

(** A loop [for _, x := range l] that threads an accumulator. *)
Fixpoint foldM {X S} (body : S -> X -> M S) (items : list X) (acc : S) : M S :=
  match items with
  | [] => ret acc
  | x :: rest => acc' <~ body acc x ;; foldM body rest acc'
  end.

(** A loop [for _, x := range items] that appends one result per item. *)
Fixpoint mapM {X Y} (each : X -> M Y) (items : list X) : M (list Y) :=
  match items with
  | [] => ret []
  | x :: rest => y <~ each x ;; ys <~ mapM each rest ;; ret (y :: ys)
  end.

(** What a computation returns, and what it asks, from an empty log. *)
Definition result {A} (c : M A) : A := fst (c []).
Definition queries {A} (c : M A) : list Query := snd (c []).

(** ** The sampler (helper.go): operations *)

(** [getProcState], lines 211-226. *)
Definition getProcState (b : ascii) : string :=
  if Ascii.eqb b "S" then "sleeping"
  else if Ascii.eqb b "R" then "running"
  else if Ascii.eqb b "D" then "idle"
  else if Ascii.eqb b "T" then "stopped"
  else if Ascii.eqb b "Z" then "zombie"
  else "unknown".

(** [newProcess], lines 56-81.  An error of [exe.Get] that is "not
    implemented" or a permission error is passed over. *)
Definition newProcess (ds : DataSource) (pid : Z) (cmdline : string)
    (env : option MapStr) : M (error + Process) :=
  ask (QProcState pid) ;;
  match ProcState_Get ds pid with
  | inl err => ret (inl (Errorf "error getting process state" pid (Some err)))
  | inr state =>
      ask (QProcExe pid) ;;
      let '(exe, exeErr) := ProcExe_Get ds pid in
      let proc :=
        mkProcess pid (ProcState.Ppid state) (ProcState.Pgid state)
          (ProcState.Name state) (ProcState.Username state)
          (getProcState (ProcState.State state)) cmdline (ProcExe.Cwd exe)
          ProcMem.zero ProcTime.zero ProcIO.zero (time_Now ds pid)
          ProcFDUsage.zero env F64.zero in
      match exeErr with
      | Some err =>
          if negb (IsNotImplemented err) && negb (IsPermission err)
          then ret (inl (Errorf "error getting process exe" pid (Some err)))
          else ret (inr proc)
      | None => ret (inr proc)
      end
  end.

(** [getProcFDUsage], lines 133-153: the usage, or nothing, and an error. *)
Definition getProcFDUsage (ds : DataSource) (pid : Z)
    : M (option ProcFDUsage.t * option error) :=
  if String.eqb (GOOS ds) "freebsd" && negb (pid =? Getpid ds)
  then ret (None, None)
  else
    ask (QProcFDUsage pid) ;;
    match ProcFDUsage_Get ds pid with
    | inl err =>
        if IsNotImplemented err then ret (None, None)
        else if IsPermission err then ret (None, None)
        else ret (None, Some err)
    | inr fd => ret (Some fd, None)
    end.

(** The loop of [getProcEnv], lines 176-180: [out[k] = v] for the
    variables that pass the filter ([None] is the nil filter). *)
Definition copyEnv (filter : option (string -> bool)) (vars : gmap string string)
    (out : MapStr) : MapStr :=
  map_fold (fun k v acc =>
              match filter with
              | None => <[k := VString v]> acc
              | Some f => if f k then <[k := VString v]> acc else acc
              end) out vars.

(** [getProcEnv], lines 163-182: the [out] map as it leaves it, and the
    error. *)
Definition getProcEnv (ds : DataSource) (pid : Z) (out : MapStr)
    (filter : option (string -> bool)) : M (MapStr * option error) :=
  ask (QProcEnv pid) ;;
  match ProcEnv_Get ds pid with
  | inl err =>
      if IsNotImplemented err then ret (out, None)
      else if IsPermission err then ret (out, None)
      else ret (out, Some err)
  | inr vars => ret (copyEnv filter vars out, None)
  end.

Definition with_Mem (p : Process) (v : ProcMem.t) : Process :=
  mkProcess (Pid p) (Ppid p) (Pgid p) (Name p) (Username p) (State p) (CmdLine p)
    (Cwd p) v (Cpu p) (IO p) (Ctime p) (FD p) (Env p) (cpuTotalPct p).
Definition with_Cpu (p : Process) (v : ProcTime.t) : Process :=
  mkProcess (Pid p) (Ppid p) (Pgid p) (Name p) (Username p) (State p) (CmdLine p)
    (Cwd p) (Mem p) v (IO p) (Ctime p) (FD p) (Env p) (cpuTotalPct p).
Definition with_IO (p : Process) (v : ProcIO.t) : Process :=
  mkProcess (Pid p) (Ppid p) (Pgid p) (Name p) (Username p) (State p) (CmdLine p)
    (Cwd p) (Mem p) (Cpu p) v (Ctime p) (FD p) (Env p) (cpuTotalPct p).
Definition with_CmdLine (p : Process) (v : string) : Process :=
  mkProcess (Pid p) (Ppid p) (Pgid p) (Name p) (Username p) (State p) v
    (Cwd p) (Mem p) (Cpu p) (IO p) (Ctime p) (FD p) (Env p) (cpuTotalPct p).
Definition with_FD (p : Process) (v : ProcFDUsage.t) : Process :=
  mkProcess (Pid p) (Ppid p) (Pgid p) (Name p) (Username p) (State p) (CmdLine p)
    (Cwd p) (Mem p) (Cpu p) (IO p) (Ctime p) v (Env p) (cpuTotalPct p).
Definition with_Env (p : Process) (v : option MapStr) : Process :=
  mkProcess (Pid p) (Ppid p) (Pgid p) (Name p) (Username p) (State p) (CmdLine p)
    (Cwd p) (Mem p) (Cpu p) (IO p) (Ctime p) (FD p) v (cpuTotalPct p).
Definition with_cpuTotalPct (p : Process) (v : float64) : Process :=
  mkProcess (Pid p) (Ppid p) (Pgid p) (Name p) (Username p) (State p) (CmdLine p)
    (Cwd p) (Mem p) (Cpu p) (IO p) (Ctime p) (FD p) (Env p) v.

(** [getDetails], lines 88-126, in four steps; the process as it is
    updated, or the error that ends the fetch. *)
Definition getDetails_env (ds : DataSource) (envPredicate : option (string -> bool))
    (proc : Process) : M (error + Process) :=
  match Env proc with
  | None =>
      r <~ getProcEnv ds (Pid proc) ∅ envPredicate ;;
      match r with
      | (_, Some err) =>
          ret (inl (Errorf "error getting process environment variables"
                      (Pid proc) (Some err)))
      | (out, None) => ret (inr (with_Env proc (Some out)))
      end
  | Some _ => ret (inr proc)
  end.

Definition getDetails_fd (ds : DataSource) (envPredicate : option (string -> bool))
    (proc : Process) : M (error + Process) :=
  r <~ getProcFDUsage ds (Pid proc) ;;
  match r with
  | (_, Some err) =>
      ret (inl (Errorf "error getting process file descriptor usage"
                  (Pid proc) (Some err)))
  | (Some fd, None) => getDetails_env ds envPredicate (with_FD proc fd)
  | (None, None) => getDetails_env ds envPredicate proc
  end.

Definition getDetails_args (ds : DataSource) (envPredicate : option (string -> bool))
    (proc : Process) : M (error + Process) :=
  if String.eqb (CmdLine proc) ""
  then
    ask (QProcArgs (Pid proc)) ;;
    let '(args, argsErr) := ProcArgs_Get ds (Pid proc) in
    match argsErr with
    | Some err =>
        if negb (IsNotImplemented err)
        then ret (inl (Errorf "error getting process arguments" (Pid proc) (Some err)))
        else getDetails_fd ds envPredicate
               (with_CmdLine proc (String.concat " " args))
    | None =>
        getDetails_fd ds envPredicate (with_CmdLine proc (String.concat " " args))
    end
  else getDetails_fd ds envPredicate proc.

Definition getDetails (ds : DataSource) (envPredicate : option (string -> bool))
    (proc : Process) : M (error + Process) :=
  ask (QProcMem (Pid proc)) ;;
  match ProcMem_Get ds (Pid proc) with
  | inl err => ret (inl (Errorf "error getting process mem" (Pid proc) (Some err)))
  | inr mem =>
      ask (QProcTime (Pid proc)) ;;
      match ProcTime_Get ds (Pid proc) with
      | inl err =>
          ret (inl (Errorf "error getting process cpu time" (Pid proc) (Some err)))
      | inr cpu =>
          ask (QProcIO (Pid proc)) ;;
          match ProcIO_Get ds (Pid proc) with
          | inl err =>
              ret (inl (Errorf "error getting process io" (Pid proc) (Some err)))
          | inr io =>
              getDetails_args ds envPredicate
                (with_IO (with_Cpu (with_Mem proc mem) cpu) io)
          end
      end
  end.

(** [GetProcMemPercentage], lines 184-199.  With [totalPhyMem = 0] the
    total is read from the system; a failure of that read gives 0. *)
Definition GetProcMemPercentage (ds : DataSource) (proc : Process)
    (totalPhyMem : Z) : M float64 :=
  let perc total :=
    System.Round
      (F64.div (F64.of_Z (ProcMem.Resident (Mem proc))) (F64.of_Z total))
      F64.half 4 in
  if totalPhyMem =? 0
  then
    ask QGetMemory ;;
    match GetMemory ds with
    | inl err => ret F64.zero
    | inr total => ret (perc total)
    end
  else ret (perc totalPhyMem).

(** [unixTimeMsToTime], lines 460-462: [time.Unix(0, int64(ms*1000000))]. *)
Definition unixTimeMsToTime (unixTimeMs : Z) : Z :=
  GoInt.int64_of_u64 (GoInt.mul_u64 unixTimeMs 1000000).

(** The record of [getProcessEvent], lines 229-289, given the memory
    percentage [pct] that [GetProcMemPercentage] returned. *)
Definition processRecord (procStats : ProcStats) (process : Process)
    (pct : float64) : MapStr :=
  let proc : MapStr :=
    <["pid" := VInt (Pid process)]>
    (<["ppid" := VInt (Ppid process)]>
    (<["pgid" := VInt (Pgid process)]>
    (<["name" := VString (Name process)]>
    (<["state" := VString (State process)]>
    (<["username" := VString (Username process)]>
    (<["memory" := VMapStr
         (<["size" := VUint (ProcMem.Size (Mem process))]>
         (<["rss" := VMapStr
              (<["bytes" := VUint (ProcMem.Resident (Mem process))]>
              (<["pct" := VFloat pct]> ∅))]>
         (<["share" := VUint (ProcMem.Share (Mem process))]> ∅)))]>
    (<["io" := VMapStr
         (<["read_char" := VUint (ProcIO.ReadChar (IO process))]>
         (<["write_char" := VUint (ProcIO.WriteChar (IO process))]>
         (<["read_count" := VUint (ProcIO.SysCounterRead (IO process))]>
         (<["write_count" := VUint (ProcIO.SysCounterWrite (IO process))]>
         (<["read_bytes" := VUint (ProcIO.ReadBytes (IO process))]>
         (<["write_bytes" := VUint (ProcIO.WriteBytes (IO process))]> ∅))))))]>
    ∅))))))) in
  let proc :=
    if negb (String.eqb (CmdLine process) "")
    then <["cmdline" := VString (CmdLine process)]> proc else proc in
  let proc :=
    if negb (String.eqb (Cwd process) "")
    then <["cwd" := VString (Cwd process)]> proc else proc in
  let proc :=
    match Env process with
    | Some env => if (0 <? size env)%nat then <["env" := VMapStr env]> proc else proc
    | None => proc
    end in
  let proc :=
    <["cpu" := VMapStr
       (<["total" := VMapStr (<["pct" := VFloat (cpuTotalPct process)]> ∅)]>
       (<["start_time" := VTime (unixTimeMsToTime (ProcTime.StartTime (Cpu process)))]>
        ∅))]> proc in
  let proc :=
    if CpuTicks procStats
    then Put "cpu.total.ticks" (VUint (ProcTime.Total (Cpu process)))
           (Put "cpu.system" (VUint (ProcTime.Sys (Cpu process)))
              (Put "cpu.user" (VUint (ProcTime.User (Cpu process))) proc))
    else proc in
  let proc :=
    if negb (ProcFDUsage.is_zero (FD process))
    then <["fd" := VMapStr
            (<["open" := VUint (ProcFDUsage.Open (FD process))]>
            (<["limit" := VMapStr
                 (<["soft" := VUint (ProcFDUsage.SoftLimit (FD process))]>
                 (<["hard" := VUint (ProcFDUsage.HardLimit (FD process))]> ∅))]>
             ∅))]> proc
    else proc in
  proc.

(** [getProcessEvent], lines 228-290. *)
Definition getProcessEvent (procStats : ProcStats) (ds : DataSource)
    (process : Process) : M MapStr :=
  pct <~ GetProcMemPercentage ds process 0 ;;
  ret (processRecord procStats process pct).

(** [GetProcCpuPercentage], lines 292-303; [None] is the nil pointer.
    [dCPU] is the [int64] reading of the wrapped [uint64] difference, and
    [dt] the [Duration] between the two capture times, in milliseconds. *)
Definition GetProcCpuPercentage (last current : option Process) : float64 :=
  match last, current with
  | Some last, Some current =>
      let dCPU :=
        GoInt.int64_of_u64
          (GoInt.sub_u64 (ProcTime.Total (Cpu current)) (ProcTime.Total (Cpu last))) in
      let dt :=
        F64.div (F64.of_Z (GoInt.sat64 (Ctime current - Ctime last)))
                (F64.of_Z 1000000) in
      let perc := F64.div (F64.of_Z dCPU) dt in
      System.Round perc F64.half 4
  | _, _ => F64.zero
  end.

(** [MatchProcess], lines 305-313. *)
Definition MatchProcess (procStats : ProcStats) (name : string) : bool :=
  existsb (fun reg => MatchString reg name) (procRegexps procStats).

(** [isWhitelistedEnvVar], lines 445-456. *)
Definition isWhitelistedEnvVar (p : ProcStats) (varName : string) : bool :=
  if (length (envRegexps p) =? 0)%nat then false
  else existsb (fun reg => MatchString reg varName) (envRegexps p).

(** [isProcessInSlice], lines 434-441. *)
Definition isProcessInSlice (processes : list Process) (proc : Process) : bool :=
  existsb (fun p => Pid p =? Pid proc) processes.

(** The two orders of [includeTopProcesses]. *)
Definition byCPU (a b : Process) : bool := F64.gt (cpuTotalPct a) (cpuTotalPct b).
Definition byMemory (a b : Process) : bool :=
  ProcMem.Resident (Mem b) <? ProcMem.Resident (Mem a).

(** The loop of lines 422-426. *)
Definition appendMissing (result candidates : list Process) : list Process :=
  fold_left (fun result proc =>
               if negb (isProcessInSlice result proc) then result ++ [proc]
               else result) candidates result.

Section WithRuntime.

Context {rt : GoRuntime}.

(** [includeTopProcesses], lines 402-430.  [processes] is sorted in place
    (twice when both counts are positive); [result] is a slice of its own. *)
Definition includeTopProcesses (procStats : ProcStats)
    (processes : GoSlice.slice Process) : outcome (list Process) :=
  let cfg := IncludeTop procStats in
  if negb (Enabled cfg) || ((ByCPU cfg =? 0) && (ByMemory cfg =? 0))
  then Returns (GoSlice.elems processes)
  else
    r1 <- (if 0 <? ByCPU cfg
           then
             let processes := GoSlice.sorted_in_place (sort_Slice byCPU) processes in
             top <- GoSlice.slice_to processes (ByCPU cfg) ;;;
             Returns (GoSlice.elems top, processes)
           else Returns ([], processes)) ;;;
    let '(result, processes) := r1 in
    if 0 <? ByMemory cfg
    then
      let processes := GoSlice.sorted_in_place (sort_Slice byMemory) processes in
      top <- GoSlice.slice_to processes (ByMemory cfg) ;;;
      Returns (appendMissing result (GoSlice.elems top))
    else Returns result.

(** The slice [processes] of [GetProcStats] once the loop has appended
    the elements of [l] to it: the rest of its backing array is zeroed. *)
Definition appended (l : list Process) : GoSlice.slice Process :=
  GoSlice.mkSlice
    (l ++ replicate (append_cap (length l) - length l) zeroProcess)
    (length l).

(** Lines 360-367: the command line and environment handed to
    [newProcess] for [pid]. *)
Definition carriedOver (procStats : ProcStats) (pid : Z) : string * option MapStr :=
  match ProcsMap procStats !! pid with
  | Some previousProc =>
      (if CacheCmdLine procStats then CmdLine previousProc else EmptyString,
       Env previousProc)
  | None => (EmptyString, None)
  end.

(** The body of the loop of lines 359-387, on the pair of [processes] and
    [newProcs].  The map entry is the pointer [process], so it sees the
    percentage stored after the insertion. *)
Definition sampleProcess (procStats : ProcStats) (ds : DataSource)
    (acc : list Process * gmap Z Process) (pid : Z)
    : M (list Process * gmap Z Process) :=
  let '(processes, newProcs) := acc in
  let '(cmdline, env) := carriedOver procStats pid in
  r <~ newProcess ds pid cmdline env ;;
  match r with
  | inl err => ret acc
  | inr process =>
      if MatchProcess procStats (Name process)
      then
        r <~ getDetails ds (Some (isWhitelistedEnvVar procStats)) process ;;
        match r with
        | inl err => ret acc
        | inr process =>
            let last := ProcsMap procStats !! Pid process in
            let process :=
              with_cpuTotalPct process (GetProcCpuPercentage last (Some process)) in
            ret (processes ++ [process], <[Pid process := process]> newProcs)
        end
      else ret acc
  end.

(** [GetProcStats], lines 344-400: what the call does (it returns the
    records or an error, or panics) and the [ProcStats] it leaves. *)
Definition GetProcStats (procStats : ProcStats) (ds : DataSource)
    : M (outcome (error + list MapStr) * ProcStats) :=
  if (length (Procs procStats) =? 0)%nat
  then ret (Returns (inr []), procStats)
  else
    ask QProcList ;;
    match ProcList_Get ds with
    | inl err => ret (Returns (inl err), procStats)
    | inr pids =>
        acc <~ foldM (sampleProcess procStats ds) pids ([], ∅) ;;
        let '(processes, newProcs) := acc in
        let procStats := set_ProcsMap procStats newProcs in
        match includeTopProcesses procStats (appended processes) with
        | Panics => ret (Panics, procStats)
        | Returns processes =>
            procs <~ mapM (getProcessEvent procStats ds) processes ;;
            ret (Returns (inr procs), procStats)
        end
    end.

End WithRuntime.

End Helper.

(** * Part II: properties *)

(** ** Machine integers *)

Lemma wrap64_range z : GoInt.is_u64 (GoInt.wrap64 z).
Proof.
  unfold GoInt.is_u64, GoInt.wrap64, GoInt.two64.
  apply Z.mod_pos_bound. lia.
Qed.

Lemma int64_of_u64_range u : GoInt.is_u64 u -> GoInt.is_i64 (GoInt.int64_of_u64 u).
Proof.
  unfold GoInt.is_u64, GoInt.is_i64, GoInt.int64_of_u64, GoInt.two64,
    GoInt.minInt64, GoInt.maxInt64.
  intros Hu. destruct (Z.ltb_spec u (2 ^ 63)); lia.
Qed.

Lemma int64_of_u64_congr u : (GoInt.int64_of_u64 u - u) mod GoInt.two64 = 0.
Proof.
  unfold GoInt.int64_of_u64. destruct (u <? 2 ^ 63).
  - now rewrite Z.sub_diag.
  - replace (u - GoInt.two64 - u) with (-1 * GoInt.two64) by lia.
    apply Z_mod_mult.
Qed.

(** The signed reading of a wrapped difference is the difference itself as
    soon as that difference fits an [int64]. *)
Lemma signed_sub_exact a b :
  GoInt.is_i64 (a - b) -> GoInt.int64_of_u64 (GoInt.sub_u64 a b) = a - b.
Proof.
  unfold GoInt.is_i64, GoInt.int64_of_u64, GoInt.sub_u64, GoInt.wrap64,
    GoInt.two64, GoInt.minInt64, GoInt.maxInt64.
  intros Hd.
  destruct (Z_lt_le_dec (a - b) 0) as [Hneg | Hpos].
  - assert (Hm : (a - b) mod 2 ^ 64 = a - b + 2 ^ 64).
    { symmetry. apply Z.mod_unique with (q := -1); lia. }
    rewrite Hm. destruct (Z.ltb_spec (a - b + 2 ^ 64) (2 ^ 63)); lia.
  - rewrite Z.mod_small by lia.
    destruct (Z.ltb_spec (a - b) (2 ^ 63)); lia.
Qed.

(** In every case it is congruent to the difference modulo 2^64. *)
Lemma signed_sub_congr a b :
  (GoInt.int64_of_u64 (GoInt.sub_u64 a b) - (a - b)) mod GoInt.two64 = 0.
Proof.
  pose proof (int64_of_u64_congr (GoInt.sub_u64 a b)) as H1.
  unfold GoInt.sub_u64, GoInt.wrap64 in *.
  assert (H2 : ((a - b) mod GoInt.two64 - (a - b)) mod GoInt.two64 = 0).
  { rewrite Zminus_mod_idemp_l, Z.sub_diag. reflexivity. }
  set (w := (a - b) mod GoInt.two64) in *.
  replace (GoInt.int64_of_u64 w - (a - b))
    with ((GoInt.int64_of_u64 w - w) + (w - (a - b))) by lia.
  rewrite Z.add_mod by (unfold GoInt.two64; lia).
  rewrite H1, H2. reflexivity.
Qed.

Lemma sat64_range z : GoInt.is_i64 (GoInt.sat64 z).
Proof.
  unfold GoInt.is_i64, GoInt.sat64, GoInt.minInt64, GoInt.maxInt64.
  destruct (Z.ltb_spec z (- 2 ^ 63)); [lia |].
  destruct (Z.ltb_spec (2 ^ 63 - 1) z); lia.
Qed.

Lemma sat64_exact z : GoInt.is_i64 z -> GoInt.sat64 z = z.
Proof.
  unfold GoInt.is_i64, GoInt.sat64, GoInt.minInt64, GoInt.maxInt64. intros Hz.
  destruct (Z.ltb_spec z (- 2 ^ 63)); [lia |].
  destruct (Z.ltb_spec (2 ^ 63 - 1) z); lia.
Qed.

(** ** A runtime: insertion sort meets the contract of [sort.Slice] *)

Fixpoint insert_sorted {A} (less : A -> A -> bool) (x : A) (l : list A) : list A :=
  match l with
  | [] => [x]
  | y :: l' => if less x y then x :: l else y :: insert_sorted less x l'
  end.

Fixpoint insertion_sort {A} (less : A -> A -> bool) (l : list A) : list A :=
  match l with
  | [] => []
  | x :: l' => insert_sorted less x (insertion_sort less l')
  end.

(** No element of the tail is less than the head, all along the list. *)
Fixpoint descending {A} (less : A -> A -> bool) (l : list A) : Prop :=
  match l with
  | [] => True
  | x :: l' => Forall (fun y => less y x = false) l' /\ descending less l'
  end.

Lemma insert_sorted_perm {A} (less : A -> A -> bool) x l :
  insert_sorted less x l ≡ₚ x :: l.
Proof.
  induction l as [| y l IH]; simpl; [reflexivity |].
  destruct (less x y); [reflexivity |].
  rewrite IH. apply Permutation_swap.
Qed.

Lemma insertion_sort_perm {A} (less : A -> A -> bool) l :
  insertion_sort less l ≡ₚ l.
Proof.
  induction l as [| x l IH]; simpl; [reflexivity |].
  rewrite insert_sorted_perm. now rewrite IH.
Qed.

Lemma descending_sorted_by {A} (less : A -> A -> bool) l :
  descending less l -> sorted_by less l.
Proof.
  induction l as [| x l IH]; intros Hd i j a b Hij Hi Hj.
  - rewrite lookup_nil in Hi. discriminate.
  - destruct Hd as [Hall Hd]. destruct j as [| j]; [lia |].
    simpl in Hj. destruct i as [| i].
    + simpl in Hi. injection Hi as <-.
      rewrite Forall_forall in Hall. apply Hall.
      eapply list_elem_of_lookup_2; eauto.
    + simpl in Hi. apply (IH Hd i j); auto with lia.
Qed.

Lemma insert_sorted_descending {A} (less : A -> A -> bool) (L : list A) x l :
  transitive_ordering less L -> x ∈ L -> (forall y, y ∈ l -> y ∈ L) ->
  descending less l -> descending less (insert_sorted less x l).
Proof.
  intros (Hirr & Htr & _) Hx. induction l as [| y l IH]; intros Hin Hd; simpl.
  - split; [constructor | exact I].
  - destruct Hd as [Hall Hd].
    assert (Hy : y ∈ L) by (apply Hin; left).
    assert (Hl : forall z, z ∈ l -> z ∈ L) by (intros z Hz; apply Hin; now right).
    rewrite Forall_forall in Hall.
    destruct (less x y) eqn:Hxy.
    + split; [| split; [now apply Forall_forall | assumption]].
      apply Forall_forall. intros z Hz.
      destruct (less z x) eqn:Hzx; [| reflexivity].
      assert (Hzy : less z y = true) by (apply (Htr z x y); auto).
      apply elem_of_cons in Hz as [-> | Hz].
      * rewrite (Hirr y Hy) in Hzy. discriminate.
      * rewrite (Hall z Hz) in Hzy. discriminate.
    + split; [| now apply IH].
      apply Forall_forall. intros z Hz.
      rewrite insert_sorted_perm in Hz.
      apply elem_of_cons in Hz as [-> | Hz]; [assumption |].
      now apply Hall.
Qed.

Lemma insertion_sort_descending {A} (less : A -> A -> bool) (L l : list A) :
  transitive_ordering less L -> (forall y, y ∈ l -> y ∈ L) ->
  descending less (insertion_sort less l).
Proof.
  intros Hord. induction l as [| x l IH]; intros Hin; simpl; [exact I |].
  apply (insert_sorted_descending less L); auto.
  - apply Hin. left.
  - intros y Hy. rewrite insertion_sort_perm in Hy. apply Hin. now right.
  - apply IH. intros y Hy. apply Hin. now right.
Qed.

Lemma insertion_sort_sorted {A} (less : A -> A -> bool) (l : list A) :
  transitive_ordering less l -> sorted_by less (insertion_sort less l).
Proof.
  intros Hord. apply descending_sorted_by.
  apply (insertion_sort_descending less l l); auto.
Qed.

(** Capacities that double: 0, 1, 2, 4, 4, 8, ... *)
Definition doubling_cap (n : nat) : nat :=
  match n with
  | O => O
  | _ => Nat.pow 2 (Nat.log2_up n)
  end.

Definition insertionRuntime : GoRuntime :=
  {| sort_Slice := @insertion_sort;
     sort_Slice_perm := @insertion_sort_perm;
     sort_Slice_sorted := @insertion_sort_sorted;
     append_cap := doubling_cap |}.

(** ** Slices *)

Import Sigar Helper.

Lemma sorted_in_place_len {A} (sort : list A -> list A) (s : GoSlice.slice A) :
  GoSlice.len (GoSlice.sorted_in_place sort s) = GoSlice.len s.
Proof. reflexivity. Qed.

Lemma sorted_in_place_cap {A} (sort : list A -> list A) (s : GoSlice.slice A) :
  (forall l, length (sort l) = length l) ->
  GoSlice.cap (GoSlice.sorted_in_place sort s) = GoSlice.cap s.
Proof.
  intros Hlen. unfold GoSlice.cap, GoSlice.sorted_in_place, GoSlice.elems.
  cbn [GoSlice.len GoSlice.arr].
  rewrite length_app, Hlen, length_take, length_drop. lia.
Qed.

Lemma sort_Slice_length `{GoRuntime} {A} (less : A -> A -> bool) (l : list A) :
  length (sort_Slice less l) = length l.
Proof. apply Permutation_length, sort_Slice_perm. Qed.

Lemma slice_to_beyond_cap {A} (s : GoSlice.slice A) (n : Z) :
  Z.of_nat (GoSlice.cap s) < n -> GoSlice.slice_to s n = Panics.
Proof.
  intros Hn. unfold GoSlice.slice_to.
  destruct (Z.leb_spec n (Z.of_nat (GoSlice.cap s))); [lia |].
  now rewrite andb_false_r.
Qed.

Lemma slice_to_within {A} (s : GoSlice.slice A) (n : Z) :
  0 <= n <= Z.of_nat (GoSlice.cap s) ->
  GoSlice.slice_to s n = Returns (GoSlice.mkSlice (GoSlice.arr s) (Z.to_nat n)).
Proof.
  intros Hn. unfold GoSlice.slice_to.
  destruct (Z.leb_spec 0 n); [| lia].
  destruct (Z.leb_spec n (Z.of_nat (GoSlice.cap s))); [reflexivity | lia].
Qed.

Lemma sorted_in_place_elems {A} (sort : list A -> list A) (s : GoSlice.slice A) :
  (forall l, length (sort l) = length l) ->
  (GoSlice.len s <= GoSlice.cap s)%nat ->
  GoSlice.elems (GoSlice.sorted_in_place sort s) = sort (GoSlice.elems s).
Proof.
  intros Hlen Hcap. destruct s as [arr len].
  unfold GoSlice.sorted_in_place, GoSlice.elems, GoSlice.cap in *.
  cbn [GoSlice.len GoSlice.arr] in *.
  assert (Hl : length (sort (take len arr)) = len).
  { rewrite Hlen, length_take. lia. }
  rewrite take_app_le by lia. apply take_ge. lia.
Qed.

(** ** Top-N selection *)

Lemma isProcessInSlice_spec (processes : list Process) (proc : Process) :
  isProcessInSlice processes proc = true <-> Pid proc ∈ Pid <$> processes.
Proof.
  unfold isProcessInSlice. rewrite existsb_exists, list_elem_of_fmap.
  split.
  - intros (p & Hp & Heq). exists p. split; [lia | now apply list_elem_of_In].
  - intros (p & Heq & Hp). exists p. split; [now apply list_elem_of_In | lia].
Qed.

(** The loop that appends the memory selection: it adds a sublist of the
    candidates, none of whose PIDs is in the result already, no PID twice,
    and afterwards every candidate's PID is in the result. *)
Lemma appendMissing_spec (candidates result : list Process) :
  exists added,
    appendMissing result candidates = result ++ added /\
    added `sublist_of` candidates /\
    (forall p, p ∈ added -> Pid p ∉ Pid <$> result) /\
    NoDup (Pid <$> added) /\
    (forall p, p ∈ candidates -> Pid p ∈ Pid <$> (result ++ added)).
Proof.
  revert result. induction candidates as [| c cs IH]; intros result.
  - exists []. rewrite app_nil_r. split; [reflexivity |].
    split; [constructor |]. split; [intros p Hp; inversion Hp |].
    split; [constructor |]. intros p Hp; inversion Hp.
  - unfold appendMissing in *. simpl.
    destruct (isProcessInSlice result c) eqn:Hin; simpl.
    + destruct (IH result) as (added & Heq & Hsub & Hnot & Hnd & Hall).
      exists added. split; [assumption |]. split; [now apply sublist_cons |].
      split; [assumption |]. split; [assumption |].
      intros p Hp. apply elem_of_cons in Hp as [-> | Hp]; [| now apply Hall].
      apply isProcessInSlice_spec in Hin.
      rewrite fmap_app. apply elem_of_app. now left.
    + destruct (IH (result ++ [c])) as (added & Heq & Hsub & Hnot & Hnd & Hall).
      assert (Hc : Pid c ∉ Pid <$> result).
      { intros Hc. apply isProcessInSlice_spec in Hc. congruence. }
      exists (c :: added). split; [| split; [| split; [| split]]].
      * rewrite Heq, <- app_assoc. reflexivity.
      * now apply sublist_skip.
      * intros p Hp. apply elem_of_cons in Hp as [-> | Hp]; [assumption |].
        intros Hr. apply (Hnot p Hp). rewrite fmap_app. apply elem_of_app. now left.
      * rewrite fmap_cons. constructor; [| assumption].
        intros Hc'. apply list_elem_of_fmap in Hc' as (p & Hpc & Hp).
        apply (Hnot p Hp). rewrite <- Hpc, fmap_app. apply elem_of_app. right.
        simpl. left.
      * intros p Hp. replace (result ++ c :: added) with ((result ++ [c]) ++ added)
          by (now rewrite <- app_assoc).
        apply elem_of_cons in Hp as [-> | Hp]; [| now apply Hall].
        rewrite !fmap_app. apply elem_of_app. left. apply elem_of_app. right.
        simpl. left.
Qed.

(** A list that is strictly in order has one sorted arrangement. *)
Fixpoint strictly_descending {A} (less : A -> A -> bool) (l : list A) : Prop :=
  match l with
  | [] => True
  | x :: l' => Forall (fun y => less x y = true) l' /\ strictly_descending less l'
  end.

Lemma sorted_by_tail {A} (less : A -> A -> bool) x l :
  sorted_by less (x :: l) -> sorted_by less l.
Proof.
  intros Hs i j a b Hij Hi Hj. apply (Hs (S i) (S j)); auto with lia.
Qed.

(** The first element of a sorted arrangement is the one that is less than
    every other element. *)
Lemma sorted_head_is_top {A} (less : A -> A -> bool) (m : A) (l l' : list A) :
  l' ≡ₚ l -> sorted_by less l' -> m ∈ l ->
  (forall x, x ∈ l -> x = m \/ less m x = true) ->
  exists t, l' = m :: t.
Proof.
  intros Hperm Hsorted Hm Htop.
  destruct l' as [| a t].
  - rewrite <- Hperm in Hm. inversion Hm.
  - exists t. f_equal.
    assert (Ha : a ∈ l) by (rewrite <- Hperm; left).
    destruct (Htop a Ha) as [Heq | Hma]; [assumption |].
    rewrite <- Hperm in Hm. apply elem_of_cons in Hm as [-> | Hm]; [reflexivity |].
    apply list_elem_of_lookup in Hm as (j & Hj).
    rewrite (Hsorted 0%nat (S j) a m) in Hma;
      [discriminate | lia | reflexivity | exact Hj].
Qed.

Lemma sorted_perm_unique {A} (less : A -> A -> bool) (l l' : list A) :
  strictly_descending less l -> l' ≡ₚ l -> sorted_by less l' -> l' = l.
Proof.
  revert l'. induction l as [| m t IH]; intros l' Hstrict Hperm Hsorted.
  - now apply Permutation_nil_r.
  - destruct Hstrict as [Htop Hstrict].
    destruct (sorted_head_is_top less m (m :: t) l') as (t' & ->); auto.
    + left.
    + intros x Hx. apply elem_of_cons in Hx as [-> | Hx]; [now left | right].
      rewrite Forall_forall in Htop. now apply Htop.
    + f_equal. apply IH; auto.
      * now apply Permutation_cons_inv in Hperm.
      * now apply sorted_by_tail in Hsorted.
Qed.

(** A decision procedure for [transitive_ordering] on a given list. *)
Definition transitive_orderingb {A} (less : A -> A -> bool) (l : list A) : bool :=
  forallb (fun a => negb (less a a)) l &&
  forallb (fun a => forallb (fun b => forallb (fun c =>
    implb (less a b && less b c) (less a c) &&
    implb (negb (less a b) && negb (less b c)) (negb (less a c))) l) l) l.

Lemma transitive_orderingb_sound {A} (less : A -> A -> bool) (l : list A) :
  transitive_orderingb less l = true -> transitive_ordering less l.
Proof.
  unfold transitive_orderingb. rewrite andb_true_iff, !forallb_forall.
  intros [Hirr Htr]. split; [| split].
  - intros a Ha. apply list_elem_of_In in Ha. apply Hirr in Ha.
    now destruct (less a a).
  - intros a b c Ha Hb Hc Hab Hbc.
    apply list_elem_of_In in Ha, Hb, Hc.
    specialize (Htr a Ha). rewrite forallb_forall in Htr.
    specialize (Htr b Hb). rewrite forallb_forall in Htr.
    specialize (Htr c Hc). rewrite Hab, Hbc in Htr.
    now destruct (less a c).
  - intros a b c Ha Hb Hc Hab Hbc.
    apply list_elem_of_In in Ha, Hb, Hc.
    specialize (Htr a Ha). rewrite forallb_forall in Htr.
    specialize (Htr b Hb). rewrite forallb_forall in Htr.
    specialize (Htr c Hc). rewrite Hab, Hbc in Htr.
    now destruct (less a c).
Qed.

(** Resident memory is an integer: [byMemory] orders any list. *)
Lemma byMemory_ordering (l : list Process) : transitive_ordering byMemory l.
Proof.
  unfold byMemory. split; [| split].
  - intros a _. apply Z.ltb_irrefl.
  - intros a b c _ _ _ Hab Hbc. apply Z.ltb_lt in Hab, Hbc. apply Z.ltb_lt. lia.
  - intros a b c _ _ _ Hab Hbc. apply Z.ltb_ge in Hab, Hbc. apply Z.ltb_ge. lia.
Qed.

Lemma elems_of_list {A} (l : list A) : GoSlice.elems (GoSlice.of_list l) = l.
Proof. unfold GoSlice.elems, GoSlice.of_list. simpl. now apply take_ge. Qed.

Lemma sorted_in_place_of_list {A} (sort : list A -> list A) (l : list A) :
  length (sort l) = length l ->
  GoSlice.sorted_in_place sort (GoSlice.of_list l) = GoSlice.of_list (sort l).
Proof.
  intros Hlen. unfold GoSlice.sorted_in_place. rewrite elems_of_list.
  unfold GoSlice.of_list. cbn [GoSlice.len GoSlice.arr].
  rewrite drop_all, app_nil_r, Hlen. reflexivity.
Qed.

(** What [includeTopProcesses] computes when top-N selection is on, by
    the two counts. *)
Lemma includeTopProcesses_enabled `{GoRuntime} (procStats : ProcStats)
    (processes : GoSlice.slice Process) :
  Enabled (IncludeTop procStats) = true ->
  0 < ByCPU (IncludeTop procStats) -> 0 < ByMemory (IncludeTop procStats) ->
  let sortedCPU := GoSlice.sorted_in_place (sort_Slice byCPU) processes in
  let sortedMem := GoSlice.sorted_in_place (sort_Slice byMemory) sortedCPU in
  includeTopProcesses procStats processes =
    (topCPU <- GoSlice.slice_to sortedCPU (ByCPU (IncludeTop procStats)) ;;;
     topMem <- GoSlice.slice_to sortedMem (ByMemory (IncludeTop procStats)) ;;;
     Returns (appendMissing (GoSlice.elems topCPU) (GoSlice.elems topMem))).
Proof.
  intros Hen Hcpu Hmem. unfold includeTopProcesses. rewrite Hen. simpl.
  destruct (Z.eqb_spec (ByCPU (IncludeTop procStats)) 0) as [Hz |_]; [lia |].
  simpl.
  destruct (Z.ltb_spec 0 (ByCPU (IncludeTop procStats))); [| lia].
  destruct (Z.ltb_spec 0 (ByMemory (IncludeTop procStats))); [| lia].
  destruct (GoSlice.slice_to _ (ByCPU _)); reflexivity.
Qed.

(** A count above the capacity of the slice panics. *)
Lemma includeTopProcesses_beyond_cap `{GoRuntime} (procStats : ProcStats)
    (processes : GoSlice.slice Process) :
  Enabled (IncludeTop procStats) = true ->
  Z.of_nat (GoSlice.cap processes) < ByCPU (IncludeTop procStats) ->
  includeTopProcesses procStats processes = Panics.
Proof.
  intros Hen Hcap. unfold includeTopProcesses. rewrite Hen. simpl.
  destruct (Z.eqb_spec (ByCPU (IncludeTop procStats)) 0) as [Hz |_]; [lia |].
  simpl.
  destruct (Z.ltb_spec 0 (ByCPU (IncludeTop procStats))); [| lia].
  rewrite slice_to_beyond_cap; [reflexivity |].
  rewrite sorted_in_place_cap; [assumption |].
  intros l. apply sort_Slice_length.
Qed.

(** ** Fixtures *)

Definition fixture (pid : Z) (pct : float64) (rss : Z) : Process :=
  mkProcess pid 1 pid "proc" "root" "running" EmptyString EmptyString
    (ProcMem.mk 0 rss 0 0 0 0) ProcTime.zero ProcIO.zero 0
    ProcFDUsage.zero None pct.

Definition topN (cpu mem : Z) : ProcStats :=
  mkProcStats ["."%string] ∅ false [] false
    {| Enabled := true; ByCPU := cpu; ByMemory := mem |} [] [].

Definition p1 : Process := fixture 1 (F64.of_Z 50) 5.
Definition p2 : Process := fixture 2 (F64.of_Z 40) 50.
Definition p3 : Process := fixture 3 (F64.of_Z 30) 500.
Definition p4 : Process := fixture 4 (F64.of_Z 20) 1.
Definition p5 : Process := fixture 5 (F64.of_Z 10) 1.
Definition five : list Process := [p1; p2; p3; p4; p5].

(** ** C1: a count above the number of processes *)

(** C1 (the claim fails on the code).  With [byCPU = 10] and a slice of
    three processes (length and capacity 3), [includeTopProcesses] does not
    return three processes: [processes[:10]] is out of range and the call
    panics, whatever [sort.Slice] did before. *)
Theorem includeTopProcesses_ten_of_three `{GoRuntime} :
  includeTopProcesses (topN 10 0) (GoSlice.of_list [p1; p2; p3]) = Panics.
Proof.
  apply includeTopProcesses_beyond_cap; [reflexivity |].
  unfold GoSlice.cap, GoSlice.of_list. simpl. lia.
Qed.

(** ** C8: the union of the two selections *)

Lemma five_sorted_byCPU `{GoRuntime} : sort_Slice byCPU five = five.
Proof.
  apply (sorted_perm_unique byCPU).
  - unfold five. simpl. repeat split; repeat constructor.
  - apply sort_Slice_perm.
  - apply sort_Slice_sorted. apply transitive_orderingb_sound.
    vm_compute. reflexivity.
Qed.

Lemma five_sorted_byMemory `{GoRuntime} : exists t, sort_Slice byMemory five = p3 :: t.
Proof.
  apply (sorted_head_is_top byMemory p3 five).
  - apply sort_Slice_perm.
  - apply sort_Slice_sorted, byMemory_ordering.
  - unfold five. set_solver.
  - intros x Hx. unfold five in Hx.
    repeat (apply elem_of_cons in Hx as [-> | Hx]); try (right; reflexivity);
      try (left; reflexivity).
    inversion Hx.
Qed.

(** C8.  With [byCPU = 2] and [byMemory = 1] over the five processes of
    the example, [includeTopProcesses] returns the two with the highest CPU
    percentage and then the one with the largest resident memory (the
    third): three entries, no PID twice; this for every implementation of
    [sort.Slice].  In general, when both counts are positive and the call
    returns, the result is the CPU selection followed by those processes of
    the memory selection whose PID was not in the result yet: what is added
    has no PID of the CPU selection and no PID twice, and every process of
    the memory selection has its PID in the result. *)
Theorem includeTopProcesses_union `{GoRuntime} :
  (includeTopProcesses (topN 2 1) (GoSlice.of_list five) = Returns [p1; p2; p3] /\
   NoDup (Pid <$> [p1; p2; p3])) /\
  (forall (procStats : ProcStats) (processes : GoSlice.slice Process)
          (result : list Process),
     Enabled (IncludeTop procStats) = true ->
     0 < ByCPU (IncludeTop procStats) -> 0 < ByMemory (IncludeTop procStats) ->
     includeTopProcesses procStats processes = Returns result ->
     let sortedCPU := GoSlice.sorted_in_place (sort_Slice byCPU) processes in
     let sortedMem := GoSlice.sorted_in_place (sort_Slice byMemory) sortedCPU in
     exists topCPU topMem added,
       GoSlice.slice_to sortedCPU (ByCPU (IncludeTop procStats)) = Returns topCPU /\
       GoSlice.slice_to sortedMem (ByMemory (IncludeTop procStats)) = Returns topMem /\
       result = GoSlice.elems topCPU ++ added /\
       added `sublist_of` GoSlice.elems topMem /\
       (forall p, p ∈ added -> Pid p ∉ Pid <$> GoSlice.elems topCPU) /\
       NoDup (Pid <$> added) /\
       (forall p, p ∈ GoSlice.elems topMem -> Pid p ∈ Pid <$> result)).
Proof.
  split; [split |].
  - rewrite includeTopProcesses_enabled by (reflexivity || (simpl; lia)).
    rewrite !sorted_in_place_of_list by apply sort_Slice_length.
    rewrite five_sorted_byCPU.
    destruct five_sorted_byMemory as (t & ->).
    rewrite (slice_to_within (GoSlice.of_list five)) by (vm_compute; split; discriminate).
    rewrite (slice_to_within (GoSlice.of_list (p3 :: t))).
    + reflexivity.
    + unfold GoSlice.cap, GoSlice.of_list. cbn [GoSlice.arr length ByMemory IncludeTop topN].
      lia.
  - change (NoDup [1; 2; 3]). compute_done.
  - intros procStats processes result Hen Hcpu Hmem Hres sortedCPU sortedMem.
    rewrite includeTopProcesses_enabled in Hres by assumption.
    fold sortedCPU in Hres. fold sortedMem in Hres.
    destruct (GoSlice.slice_to sortedCPU _) as [topCPU |]; [| discriminate].
    destruct (GoSlice.slice_to sortedMem _) as [topMem |]; [| discriminate].
    simpl in Hres. injection Hres as <-.
    destruct (appendMissing_spec (GoSlice.elems topMem) (GoSlice.elems topCPU))
      as (added & Heq & Hsub & Hnot & Hnd & Hall).
    exists topCPU, topMem, added. rewrite Heq. auto 10.
Qed.

Lemma includeTopProcesses_union_witness :
  includeTopProcesses (rt := insertionRuntime) (topN 2 1) (GoSlice.of_list five)
  = Returns [p1; p2; p3].
Proof.
  apply (proj1 (proj1 (includeTopProcesses_union (H := insertionRuntime)))).
Defined.

(** ** C10: the environment allow-list *)

(** The strings of a map of environment variables. *)
Definition envStrings (m : MapStr) : gmap string string :=
  omap (fun v => match v with VString s => Some s | _ => None end) m.

Lemma envStrings_fmap (vars : gmap string string) :
  envStrings (VString <$> vars) = vars.
Proof.
  apply map_eq. intros k. unfold envStrings.
  rewrite lookup_omap, lookup_fmap. now destruct (vars !! k).
Qed.

(** The loop of [getProcEnv] adds to [out] the variables that pass. *)
Lemma copyEnv_filter (f : string -> bool) (vars : gmap string string) (out : MapStr) :
  copyEnv (Some f) vars out
  = (VString <$> filter (fun kv => f kv.1 = true) vars) ∪ out.
Proof.
  unfold copyEnv.
  apply (map_fold_weak_ind
           (fun r m => r = (VString <$> filter (fun kv => f kv.1 = true) m) ∪ out)).
  - now rewrite map_filter_empty, fmap_empty, (left_id ∅ (∪)).
  - intros k v m r Hk ->. destruct (f k) eqn:Hf.
    + rewrite map_filter_insert_True by exact Hf.
      now rewrite fmap_insert, insert_union_l.
    + rewrite map_filter_insert_not; [reflexivity |].
      simpl. intros y. rewrite Hf. discriminate.
Qed.

Lemma copyEnv_lookup (f : string -> bool) (vars : gmap string string) (k : string) :
  copyEnv (Some f) vars ∅ !! k = if f k then VString <$> vars !! k else None.
Proof.
  rewrite copyEnv_filter, (right_id ∅ (∪)), lookup_fmap, map_lookup_filter.
  destruct (vars !! k) as [v |] eqn:Hv; simpl.
  - destruct (f k) eqn:Hf.
    + rewrite option_guard_True by reflexivity. reflexivity.
    + rewrite option_guard_False by discriminate. reflexivity.
  - now destruct (f k).
Qed.

(** C10.  The allow-list filter of [getProcEnv] keeps exactly the variables
    whose name [isWhitelistedEnvVar] accepts, and it is idempotent: run
    over the variables it kept, it gives the same map. *)
Theorem env_whitelist_idempotent (p : ProcStats) (vars : gmap string string) :
  let keep := Some (isWhitelistedEnvVar p) in
  copyEnv keep (envStrings (copyEnv keep vars ∅)) ∅ = copyEnv keep vars ∅ /\
  (forall k, copyEnv keep vars ∅ !! k
             = if isWhitelistedEnvVar p k then VString <$> vars !! k else None).
Proof.
  intros keep. split; [| apply copyEnv_lookup].
  apply map_eq. intros k. unfold keep.
  rewrite !copyEnv_lookup.
  destruct (isWhitelistedEnvVar p k) eqn:Hk; [| reflexivity].
  unfold envStrings. rewrite lookup_omap, copyEnv_lookup, Hk.
  now destruct (vars !! k).
Qed.

(** ** Fixtures: a system and a sampler *)

Definition fixtureSystem (pids : error + list Z) (total : Z) (now : Z)
    (args : list string * option error) (fd : error + ProcFDUsage.t)
    (env : error + gmap string string) (memory : error + Z) : DataSource :=
  {| GOOS := "linux";
     Getpid := 1;
     ProcList_Get := pids;
     ProcState_Get := fun pid => inr (ProcState.mk "proc" "root" "S" 1 pid 0 20 0 0);
     ProcExe_Get := fun _ => (ProcExe.mk "/bin/proc" "/srv" "/", None);
     ProcMem_Get := fun _ => inr (ProcMem.mk 4096 500 0 0 0 0);
     ProcTime_Get := fun _ => inr (ProcTime.mk 0 total 0 total);
     ProcIO_Get := fun _ => inr ProcIO.zero;
     ProcArgs_Get := fun _ => args;
     ProcFDUsage_Get := fun _ => fd;
     ProcEnv_Get := fun _ => env;
     time_Now := fun _ => now;
     GetMemory := memory |}.

Definition anyName : Matcher := {| MatchString := fun _ => true |}.
Definition onlyPATH : Matcher := {| MatchString := fun s => String.eqb s "PATH" |}.

(** A sampler that matches every process and keeps the variable PATH. *)
Definition fixtureStats (cache : bool) (previous : gmap Z Process) : ProcStats :=
  mkProcStats ["."%string] previous false ["PATH"%string] cache
    {| Enabled := false; ByCPU := 0; ByMemory := 0 |} [anyName] [onlyPATH].

(** ** The monad *)

Ltac run_monad :=
  unfold bind, ask, ret in *; cbn beta iota in *.

(** ** C6: a failed enumeration *)

(** C6.  When the list of PIDs cannot be read, [GetProcStats] asks nothing
    else, returns that error, and leaves the [ProcStats], its [ProcsMap]
    included, as it was. *)
Theorem GetProcStats_enumeration_failure `{GoRuntime} (procStats : ProcStats)
    (ds : DataSource) (err : error) (log : list Query) :
  Procs procStats <> [] ->
  ProcList_Get ds = inl err ->
  GetProcStats procStats ds log = ((Returns (inl err), procStats), log ++ [QProcList]).
Proof.
  intros Hprocs Hlist. unfold GetProcStats.
  destruct (Procs procStats) as [| pattern patterns]; [congruence |].
  simpl. run_monad. rewrite Hlist. reflexivity.
Qed.

Lemma GetProcStats_enumeration_failure_witness :
  GetProcStats (rt := insertionRuntime)
    (fixtureStats true {[ 7 := fixture 7 F64.zero 500 ]})
    (fixtureSystem (inl (ErrIO "open /proc: permission denied")) 1000 0
       ([], None) (inl ErrNotImplemented) (inl ErrNotImplemented) (inr 1000)) []
  = ((Returns (inl (ErrIO "open /proc: permission denied")),
      fixtureStats true {[ 7 := fixture 7 F64.zero 500 ]}), [QProcList]).
Proof.
  apply (GetProcStats_enumeration_failure (H := insertionRuntime));
    [discriminate | reflexivity].
Defined.

(** ** What [newProcess] and [getDetails] leave in the process *)

Lemma newProcess_fields (ds : DataSource) (pid : Z) (cmdline : string)
    (env : option MapStr) (log log' : list Query) (proc : Process) :
  newProcess ds pid cmdline env log = (inr proc, log') ->
  Pid proc = pid /\ CmdLine proc = cmdline /\ Env proc = env /\
  FD proc = ProcFDUsage.zero /\ Ctime proc = time_Now ds pid.
Proof.
  unfold newProcess. run_monad.
  destruct (ProcState_Get ds pid) as [e | state]; [discriminate |].
  destruct (ProcExe_Get ds pid) as [exe [e |]].
  - destruct (negb (IsNotImplemented e) && negb (IsPermission e));
      [discriminate |].
    intros [= <- _]. auto.
  - intros [= <- _]. auto.
Qed.

(** An unavailable file-descriptor query gives no data and no error. *)
Lemma getProcFDUsage_unavailable (ds : DataSource) (pid : Z) (err : error)
    (log : list Query) :
  ProcFDUsage_Get ds pid = inl err ->
  IsNotImplemented err || IsPermission err = true ->
  fst (getProcFDUsage ds pid log) = (None, None).
Proof.
  intros Hfd Herr. unfold getProcFDUsage. run_monad.
  destruct (String.eqb (GOOS ds) "freebsd" && negb (pid =? Getpid ds));
    [reflexivity |].
  rewrite Hfd. destruct (IsNotImplemented err); [reflexivity |].
  simpl in Herr. now rewrite Herr.
Qed.

Lemma getDetails_env_FD (ds : DataSource) (pred : option (string -> bool))
    (proc proc' : Process) (log log' : list Query) :
  getDetails_env ds pred proc log = (inr proc', log') ->
  FD proc' = FD proc /\ Pid proc' = Pid proc /\ CmdLine proc' = CmdLine proc.
Proof.
  unfold getDetails_env, getProcEnv. run_monad.
  destruct (Env proc).
  - intros [= <- _]. auto.
  - destruct (ProcEnv_Get ds (Pid proc)) as [e | vars].
    + destruct (IsNotImplemented e); [intros [= <- _]; auto |].
      destruct (IsPermission e); [intros [= <- _]; auto | discriminate].
    + intros [= <- _]. auto.
Qed.

Lemma getDetails_fd_unavailable (ds : DataSource) (pred : option (string -> bool))
    (proc proc' : Process) (err : error) (log log' : list Query) :
  ProcFDUsage_Get ds (Pid proc) = inl err ->
  IsNotImplemented err || IsPermission err = true ->
  getDetails_fd ds pred proc log = (inr proc', log') ->
  FD proc' = FD proc.
Proof.
  intros Hfd Herr. unfold getDetails_fd.
  pose proof (getProcFDUsage_unavailable ds (Pid proc) err log Hfd Herr) as Hnone.
  run_monad. destruct (getProcFDUsage ds (Pid proc) log) as [r log1].
  simpl in Hnone. subst r. intros Hrun.
  now apply getDetails_env_FD in Hrun.
Qed.

Lemma getDetails_unavailable_FD (ds : DataSource) (pred : option (string -> bool))
    (proc proc' : Process) (err : error) (log log' : list Query) :
  ProcFDUsage_Get ds (Pid proc) = inl err ->
  IsNotImplemented err || IsPermission err = true ->
  getDetails ds pred proc log = (inr proc', log') ->
  FD proc' = FD proc.
Proof.
  intros Hfd Herr. unfold getDetails, getDetails_args. run_monad.
  destruct (ProcMem_Get ds (Pid proc)) as [e | mem]; [discriminate |].
  destruct (ProcTime_Get ds (Pid proc)) as [e | cpu]; [discriminate |].
  destruct (ProcIO_Get ds (Pid proc)) as [e | io]; [discriminate |].
  cbn [CmdLine Pid with_IO with_Cpu with_Mem].
  destruct (String.eqb (CmdLine proc) "").
  - destruct (ProcArgs_Get ds (Pid proc)) as [args [e |]].
    + destruct (negb (IsNotImplemented e)); [discriminate |].
      intros Hrun. apply (getDetails_fd_unavailable _ _ _ _ err) in Hrun; auto.
    + intros Hrun. apply (getDetails_fd_unavailable _ _ _ _ err) in Hrun; auto.
  - intros Hrun. apply (getDetails_fd_unavailable _ _ _ _ err) in Hrun; auto.
Qed.

(** ** The record of a process *)

Lemma put_path_other (k0 k : string) (rest : list string) (v : Value) (m : MapStr) :
  k <> k0 -> put_path (k0 :: rest) v m !! k = m !! k.
Proof.
  intros Hk. simpl. destruct rest as [| k1 rest].
  - now rewrite lookup_insert_ne.
  - destruct (m !! k0) as [[] |]; try reflexivity; now rewrite lookup_insert_ne.
Qed.

Lemma put_path_keeps (k0 : string) (rest : list string) (v : Value) (m : MapStr) :
  is_Some (m !! k0) -> is_Some (put_path (k0 :: rest) v m !! k0).
Proof.
  intros Hk. simpl. destruct rest as [| k1 rest].
  - rewrite lookup_insert_eq. eauto.
  - destruct (m !! k0) as [[] |] eqn:Hm; try (rewrite Hm; eauto);
      rewrite lookup_insert_eq; eauto.
Qed.

Lemma lookup_cond_insert (c : bool) (k k' : string) (v : Value) (m : MapStr) :
  k <> k' -> (if c then <[k' := v]> m else m) !! k = m !! k.
Proof. intros Hk. destruct c; [now rewrite lookup_insert_ne | reflexivity]. Qed.

Lemma Put_cpu_paths :
  split_on "." "" "cpu.total.ticks" = ["cpu"; "total"; "ticks"]%string /\
  split_on "." "" "cpu.system" = ["cpu"; "system"]%string /\
  split_on "." "" "cpu.user" = ["cpu"; "user"]%string.
Proof. repeat split. Qed.

(** Looking a key up in [processRecord]: through the stores of other keys. *)
Ltac record_lookup :=
  unfold Put;
  rewrite ?(proj1 Put_cpu_paths), ?(proj1 (proj2 Put_cpu_paths)),
    ?(proj2 (proj2 Put_cpu_paths));
  repeat first
    [ rewrite put_path_other by discriminate
    | rewrite lookup_cond_insert by discriminate
    | rewrite lookup_insert_ne by discriminate ].

(** A process whose [FD] is the zero value has no [fd] group. *)
Lemma processRecord_fd (procStats : ProcStats) (process : Process) (pct : float64) :
  ProcFDUsage.is_zero (FD process) = true ->
  processRecord procStats process pct !! "fd"%string = None.
Proof.
  intros Hfd. unfold processRecord. rewrite Hfd. cbn [negb].
  destruct (CpuTicks procStats), (Env process) as [env |];
    record_lookup; apply lookup_empty.
Qed.

(** [getProcessEvent] asks for the total memory once and nothing else. *)
Lemma getProcessEvent_run (procStats : ProcStats) (ds : DataSource)
    (process : Process) (log : list Query) :
  getProcessEvent procStats ds process log
  = (processRecord procStats process
       (match GetMemory ds with
        | inl _ => F64.zero
        | inr total =>
            System.Round
              (F64.div (F64.of_Z (ProcMem.Resident (Mem process))) (F64.of_Z total))
              F64.half 4
        end),
     log ++ [QGetMemory]).
Proof.
  unfold getProcessEvent, GetProcMemPercentage. run_monad. simpl.
  destruct (GetMemory ds); reflexivity.
Qed.

(** ** C7: a process whose file descriptors cannot be read *)

(** C7.  When the file-descriptor query of a process reports "not
    implemented" or a permission error, [getProcFDUsage] returns no data
    and no error, and the record of the process, built by [newProcess],
    [getDetails] and [getProcessEvent], has no [fd] key at all. *)
Theorem fd_unavailable_no_fd_group (procStats : ProcStats) (ds : DataSource)
    (pid : Z) (err : error) (cmdline : string) (env : option MapStr)
    (pred : option (string -> bool)) (proc proc' : Process)
    (log0 log1 log2 log3 : list Query) :
  ProcFDUsage_Get ds pid = inl err ->
  IsNotImplemented err || IsPermission err = true ->
  newProcess ds pid cmdline env log1 = (inr proc, log2) ->
  getDetails ds pred proc log2 = (inr proc', log3) ->
  fst (getProcFDUsage ds pid log0) = (None, None) /\
  fst (getProcessEvent procStats ds proc' log3) !! "fd"%string = None.
Proof.
  intros Hfd Herr Hnew Hdetails. split.
  - now apply (getProcFDUsage_unavailable ds pid err).
  - apply newProcess_fields in Hnew as (Hpid & _ & _ & Hzero & _).
    rewrite <- Hpid in Hfd.
    apply (getDetails_unavailable_FD _ _ _ _ err) in Hdetails; auto.
    rewrite getProcessEvent_run. simpl.
    apply processRecord_fd. now rewrite Hdetails, Hzero.
Qed.

(** A system where process 7 runs and file descriptors are not
    implemented; the process as [newProcess] and [getDetails] build it. *)
Definition noFDSystem : DataSource :=
  fixtureSystem (inr [7]) 1000 0 (["proc"%string], None)
    (inl ErrNotImplemented) (inr ∅) (inr 1000).

Definition created7 : Process :=
  Eval vm_compute in
    match fst (newProcess noFDSystem 7 "" None []) with
    | inr proc => proc
    | inl _ => zeroProcess
    end.

Definition detailed7 : Process :=
  Eval vm_compute in
    match fst (getDetails noFDSystem None created7 [QProcState 7; QProcExe 7]) with
    | inr proc => proc
    | inl _ => zeroProcess
    end.

Lemma fd_unavailable_no_fd_group_witness :
  fst (getProcFDUsage noFDSystem 7 []) = (None, None) /\
  fst (getProcessEvent (fixtureStats true ∅) noFDSystem detailed7
         [QProcState 7; QProcExe 7; QProcMem 7; QProcTime 7; QProcIO 7;
          QProcArgs 7; QProcFDUsage 7; QProcEnv 7]) !! "fd"%string = None.
Proof.
  apply (fd_unavailable_no_fd_group (fixtureStats true ∅) noFDSystem 7
           ErrNotImplemented "" None None created7 detailed7
           [] [] [QProcState 7; QProcExe 7]);
    [reflexivity | reflexivity | vm_compute; reflexivity | vm_compute; reflexivity].
Defined.

(** ** C9: the event assembler *)

(** C9 (as stated, it fails).  Two invocations of [getProcessEvent] on the
    same process with the same configuration give different records when
    the system reports a different total memory in between. *)
Lemma getProcessEvent_reads_total_memory :
  fst (getProcessEvent (fixtureStats true ∅)
         (fixtureSystem (inr [7]) 1000 0 ([], None) (inl ErrNotImplemented)
            (inr ∅) (inr 1000)) detailed7 [])
  <> fst (getProcessEvent (fixtureStats true ∅)
         (fixtureSystem (inr [7]) 1000 0 ([], None) (inl ErrNotImplemented)
            (inr ∅) (inr 2000)) detailed7 []).
Proof.
  intros Heq.
  apply (f_equal (fun r : MapStr => r !! "memory"%string)) in Heq.
  vm_compute in Heq. discriminate.
Qed.

(** C9, amended.  [getProcessEvent] has no failure mode: for every process
    it returns a record, with the [pid] and the [memory], [io] and [cpu]
    groups; a failed read of the total memory is absorbed (the memory
    percentage is then 0).  The record depends on the system through that
    read and through nothing else: two invocations on the same process and
    configuration give the same record whenever [memory.GetMemory] answers
    the same. *)
Theorem getProcessEvent_total_given_memory (procStats : ProcStats)
    (ds1 ds2 : DataSource) (process : Process) (log1 log2 : list Query) :
  GetMemory ds1 = GetMemory ds2 ->
  let r1 := fst (getProcessEvent procStats ds1 process log1) in
  let r2 := fst (getProcessEvent procStats ds2 process log2) in
  r1 = r2 /\
  r1 !! "pid"%string = Some (VInt (Pid process)) /\
  is_Some (r1 !! "memory"%string) /\
  is_Some (r1 !! "io"%string) /\
  is_Some (r1 !! "cpu"%string) /\
  (forall err, GetMemory ds1 = inl err ->
     r1 = processRecord procStats process F64.zero).
Proof.
  intros Hmem r1 r2. subst r1 r2. rewrite !getProcessEvent_run. cbn [fst].
  rewrite Hmem. split; [reflexivity |].
  set (pct := match GetMemory ds2 with inl _ => _ | inr _ => _ end).
  split; [| split; [| split; [| split]]].
  - unfold processRecord.
    destruct (CpuTicks procStats), (Env process) as [env |],
      (negb (ProcFDUsage.is_zero (FD process)));
      record_lookup; now rewrite lookup_insert_eq.
  - unfold processRecord.
    destruct (CpuTicks procStats), (Env process) as [env |],
      (negb (ProcFDUsage.is_zero (FD process)));
      record_lookup; rewrite lookup_insert_eq; eauto.
  - unfold processRecord.
    destruct (CpuTicks procStats), (Env process) as [env |],
      (negb (ProcFDUsage.is_zero (FD process)));
      record_lookup; rewrite lookup_insert_eq; eauto.
  - unfold processRecord.
    destruct (CpuTicks procStats), (negb (ProcFDUsage.is_zero (FD process)));
      unfold Put;
      rewrite ?(proj1 Put_cpu_paths), ?(proj1 (proj2 Put_cpu_paths)),
        ?(proj2 (proj2 Put_cpu_paths));
      rewrite ?lookup_insert_ne by discriminate;
      repeat apply put_path_keeps; rewrite lookup_insert_eq; eauto.
  - intros err Herr. unfold pct. now rewrite Herr.
Qed.

Lemma getProcessEvent_total_given_memory_witness :
  let ds1 := fixtureSystem (inr [7]) 1000 0 ([], None) (inl ErrNotImplemented)
               (inr ∅) (inr 1000) in
  let ds2 := fixtureSystem (inr [7; 8]) 2000 5 (["proc"%string], None)
               (inr (ProcFDUsage.mk 3 1024 4096)) (inl ErrPermission) (inr 1000) in
  let r1 := fst (getProcessEvent (fixtureStats true ∅) ds1 detailed7 []) in
  let r2 := fst (getProcessEvent (fixtureStats true ∅) ds2 detailed7 [QProcList]) in
  r1 = r2 /\
  r1 !! "pid"%string = Some (VInt (Pid detailed7)) /\
  is_Some (r1 !! "memory"%string) /\
  is_Some (r1 !! "io"%string) /\
  is_Some (r1 !! "cpu"%string) /\
  (forall err, GetMemory ds1 = inl err ->
     r1 = processRecord (fixtureStats true ∅) detailed7 F64.zero).
Proof.
  intros ds1 ds2.
  apply (getProcessEvent_total_given_memory (fixtureStats true ∅) ds1 ds2
           detailed7 [] [QProcList]).
  reflexivity.
Defined.

(** ** C5: the name in the stat record *)

(** The stat record of a process whose name is [(sd-pam)]: the kernel
    writes the name between parentheses, as it is. *)
Definition sdpamStat : string :=
  "42 ((sd-pam)) S 1 42 42 0 -1 1077936448 54 0 0 0 0 0 0 0 20 0 1 0 1234 173150208 1170 18446744073709551615 1 1 0 0 0 0 0 4096 0 0 0 0 17 3 0 0 0 0 0 0 0 0 0 0 0 0 0".

Definition sdpamFS : ProcFS :=
  {| readProcFile := fun _ _ => inr sdpamStat;
     getProcStatus := fun _ => inr {[ "Uid"%string := "0 0 0 0"%string ]};
     LookupId := fun _ => Some "root"%string |}.

(** C5 (the claim fails on the code).  The header is cut after the first
    ")" of the record, not after the one that closes the name: for the
    name [(sd-pam)] the parser returns the name [(sd-pam], the run state
    [)] and the parent 0, where the record says [(sd-pam)], [S] and 1. *)
Theorem ProcState_Get_name_with_paren :
  Sigar.ProcState_Get sdpamFS 42
  = Returns (inr (ProcState.mk "(sd-pam" "root" ")" 0 1 42 0 20 17)).
Proof. vm_compute. reflexivity. Qed.

(** ** float64: signs *)

(** Zero of either sign, or positive: what [0 <= x] holds of. *)
Definition nonneg (x : float64) : Prop :=
  match x with
  | S754_zero _ => True
  | S754_infinity s | S754_finite s _ _ => s = false
  | S754_nan => False
  end.

(** Not a NaN, and of sign [s]. *)
Definition signed (s : bool) (x : float64) : Prop :=
  match x with
  | S754_zero s' | S754_infinity s' | S754_finite s' _ _ => s' = s
  | S754_nan => False
  end.

Lemma nonneg_le (x : float64) : nonneg x <-> F64.le F64.zero x = true.
Proof.
  destruct x as [s | s | | s m e]; simpl; try destruct s;
    unfold F64.le, SFleb; simpl; intuition congruence.
Qed.

Lemma signed_nonneg (x : float64) : signed false x -> nonneg x.
Proof. destruct x; simpl; auto. Qed.

Lemma shr_record_of_loc_m (m : Z) (l : location) : shr_m (shr_record_of_loc m l) = m.
Proof. destruct l as [| []]; reflexivity. Qed.

Lemma shr_1_m (r : shr_record) : 0 <= shr_m r -> shr_m (shr_1 r) = shr_m r / 2.
Proof.
  destruct r as [m r s]. cbn [shr_m]. intros Hm.
  destruct m as [| [p | p |] | p]; try lia; cbn [shr_1 shr_m].
  - reflexivity.
  - apply Z.div_unique with (r := 1); lia.
  - apply Z.div_unique with (r := 0); lia.
  - reflexivity.
Qed.

Lemma iter_pos_shr_1_m (n : positive) (r : shr_record) :
  0 <= shr_m r -> shr_m (SpecFloat.iter_pos shr_1 n r) = shr_m r / 2 ^ Zpos n.
Proof.
  revert r. induction n as [n IH | n IH |]; intros r Hm; simpl SpecFloat.iter_pos.
  - assert (H1 : 0 <= shr_m (shr_1 r)).
    { rewrite shr_1_m by lia. apply Z.div_pos; lia. }
    assert (H2 : 0 <= shr_m (SpecFloat.iter_pos shr_1 n (shr_1 r))).
    { rewrite IH by lia. apply Z.div_pos; lia. }
    rewrite IH, IH, shr_1_m by lia.
    rewrite !Z.div_div by lia. f_equal.
    change 2 with (2 ^ 1) at 1. rewrite <- !Z.pow_add_r by lia. f_equal. lia.
  - assert (H2 : 0 <= shr_m (SpecFloat.iter_pos shr_1 n r)).
    { rewrite IH by lia. apply Z.div_pos; lia. }
    rewrite IH, IH by lia.
    rewrite !Z.div_div by lia. f_equal.
    rewrite <- Z.pow_add_r by lia. f_equal. lia.
  - rewrite shr_1_m by lia. reflexivity.
Qed.

(** [shr]: the mantissa shifted right by [n] when [n] is positive. *)
Lemma shr_spec (r : shr_record) (e n : Z) :
  0 <= shr_m r ->
  shr_m (fst (shr r e n)) = shr_m r / 2 ^ Z.max 0 n /\
  snd (shr r e n) = e + Z.max 0 n.
Proof.
  intros Hm. destruct n as [| n | n]; simpl.
  - rewrite Z.div_1_r. lia.
  - rewrite iter_pos_shr_1_m by lia. split; [reflexivity | lia].
  - rewrite Z.div_1_r. lia.
Qed.

Lemma shr_fexp_spec (m e : Z) (l : location) :
  0 <= m ->
  let n := Z.max 0 (fexp F64.prec F64.emax (Zdigits2 m + e) - e) in
  shr_m (fst (shr_fexp F64.prec F64.emax m e l)) = m / 2 ^ n /\
  snd (shr_fexp F64.prec F64.emax m e l) = e + n.
Proof.
  intros Hm n. unfold shr_fexp.
  pose proof (shr_spec (shr_record_of_loc m l) e
                (fexp F64.prec F64.emax (Zdigits2 m + e) - e)) as H.
  rewrite shr_record_of_loc_m in H. now apply H.
Qed.

Lemma round_nearest_even_bounds (m : Z) (l : location) :
  m <= round_nearest_even m l <= m + 1.
Proof.
  unfold round_nearest_even. destruct l as [| []]; try lia.
  destruct (Z.even m); lia.
Qed.

(** The result of rounding a non-negative mantissa has the given sign. *)
Lemma binary_round_aux_signed (s : bool) (m e : Z) (l : location) :
  0 <= m -> signed s (binary_round_aux F64.prec F64.emax s m e l).
Proof.
  intros Hm. unfold binary_round_aux.
  pose proof (shr_fexp_spec m e l Hm) as [H1 _].
  destruct (shr_fexp F64.prec F64.emax m e l) as [mrs' e'] eqn:E1. simpl in H1.
  assert (Hm1 : 0 <= shr_m mrs').
  { rewrite H1. apply Z.div_pos; [lia |]. apply Z.pow_pos_nonneg; lia. }
  pose proof (round_nearest_even_bounds (shr_m mrs') (loc_of_shr_record mrs')) as Hr.
  set (m1 := round_nearest_even (shr_m mrs') (loc_of_shr_record mrs')) in *.
  assert (Hm1r : 0 <= m1) by lia.
  pose proof (shr_fexp_spec m1 e' loc_Exact Hm1r) as [H2 _].
  destruct (shr_fexp F64.prec F64.emax m1 e' loc_Exact) as [mrs'' e''] eqn:E2.
  simpl in H2.
  assert (Hm2 : 0 <= shr_m mrs'').
  { rewrite H2. apply Z.div_pos; [lia |]. apply Z.pow_pos_nonneg; lia. }
  destruct (shr_m mrs'') as [| p | p]; simpl; try lia; auto.
  destruct (e'' <=? F64.emax - F64.prec); reflexivity.
Qed.

Lemma of_Z_signed (z : Z) : signed (z <? 0) (F64.of_Z z).
Proof.
  unfold F64.of_Z, binary_normalize. destruct z as [| p | p]; [reflexivity | |].
  - unfold binary_round. destruct (shl_align p 0 _) as [mz ez].
    now apply binary_round_aux_signed.
  - unfold binary_round. destruct (shl_align p 0 _) as [mz ez].
    now apply binary_round_aux_signed.
Qed.

Lemma mul_nonneg (m : positive) (e : Z) (x : float64) :
  nonneg x -> nonneg (F64.mul (S754_finite false m e) x).
Proof.
  destruct x as [s | s | | s mx ex]; simpl; intros Hx; try subst s; auto.
  apply signed_nonneg, binary_round_aux_signed. lia.
Qed.

Lemma div_nonneg (m : positive) (e : Z) (x : float64) :
  nonneg x -> nonneg (F64.div x (S754_finite false m e)).
Proof.
  destruct x as [s | s | | s mx ex]; simpl; intros Hx; try subst s; auto.
  unfold F64.div, SFdiv, SFdiv_core_binary.
  match goal with
  | |- context [IntDef.Z.div_eucl ?a ?b] =>
      assert (Hm' : 0 <= a);
      [| pose proof (Z_div_mod a b ltac:(lia)) as Hdiv;
         change (Z.div_eucl a b) with (IntDef.Z.div_eucl a b) in Hdiv;
         destruct (IntDef.Z.div_eucl a b) as [q r] ]
  end.
  - match goal with |- context [Z.shiftl _ ?s] => destruct s end;
      try lia. apply Z.shiftl_nonneg. lia.
  - apply signed_nonneg, binary_round_aux_signed. nia.
Qed.

Ltac case_if :=
  match goal with |- context [if ?c then _ else _] => destruct c eqn:? end.

Lemma floor_nonneg (x : float64) : nonneg x -> nonneg (F64.floor x).
Proof.
  destruct x as [s | s | | s m e]; cbn [F64.floor nonneg]; auto. intros ->.
  repeat (case_if; [reflexivity |]).
  apply signed_nonneg.
  pose proof (of_Z_signed (Z.shiftr (Z.pos m) (- e))) as H.
  assert (Hq : 0 <= Z.shiftr (Z.pos m) (- e)) by (apply Z.shiftr_nonneg; lia).
  destruct (Z.ltb_spec (Z.shiftr (Z.pos m) (- e)) 0); [lia | exact H].
Qed.

Lemma ceil_nonneg (x : float64) : nonneg x -> nonneg (F64.ceil x).
Proof.
  unfold F64.ceil, F64.opp.
  destruct x as [s | s | | s m e]; cbn [F64.floor nonneg SFopp negb]; auto;
    intros ->; [reflexivity |].
  cbn [negb]. repeat (case_if; [reflexivity |]).
  assert (Hq : 0 <= Z.shiftr (Z.pos m) (- e)) by (apply Z.shiftr_nonneg; lia).
  pose proof (of_Z_signed (- (Z.shiftr (Z.pos m) (- e) + 1))) as H.
  destruct (Z.ltb_spec (- (Z.shiftr (Z.pos m) (- e) + 1)) 0); [| lia].
  destruct (F64.of_Z _); simpl in *; subst; auto.
Qed.

(** Rounding keeps a value that is not negative so. *)
Lemma Round_nonneg (x : float64) :
  nonneg x -> nonneg (System.Round x F64.half 4).
Proof.
  intros Hx. unfold System.Round.
  change (F64.of_Z (10 ^ 4)) with (S754_finite false 5497558138880000 (-39)).
  apply div_nonneg.
  destruct (F64.ge _ _); [apply ceil_nonneg | apply floor_nonneg];
    now apply mul_nonneg.
Qed.

(** ** float64: magnitudes *)

Lemma digits2_pos_size (p : positive) : digits2_pos p = Pos.size p.
Proof. induction p as [p IH | p IH |]; simpl; congruence. Qed.

Lemma Zdigits2_log2 (m : Z) : 0 < m -> Zdigits2 m = Z.log2 m + 1.
Proof.
  destruct m as [| p | p]; try lia. intros _. simpl Zdigits2.
  rewrite digits2_pos_size. destruct p as [p | p |]; simpl; lia.
Qed.

Lemma Zdigits2_pos (m : Z) : 0 < m -> 1 <= Zdigits2 m.
Proof.
  intros Hm. rewrite Zdigits2_log2 by lia.
  pose proof (Z.log2_nonneg m). lia.
Qed.

(** [m] has [Zdigits2 m] binary digits. *)
Lemma Zdigits2_bounds (m : Z) :
  0 < m -> 2 ^ (Zdigits2 m - 1) <= m < 2 ^ Zdigits2 m.
Proof.
  intros Hm. rewrite Zdigits2_log2 by lia.
  pose proof (Z.log2_spec m Hm) as H.
  replace (Z.log2 m + 1 - 1) with (Z.log2 m) by lia.
  replace (Z.log2 m + 1) with (Z.succ (Z.log2 m)) by lia. exact H.
Qed.

Lemma Zdigits2_le (a b : Z) : 0 < a -> a <= b -> Zdigits2 a <= Zdigits2 b.
Proof.
  intros Ha Hab. rewrite !Zdigits2_log2 by lia.
  pose proof (Z.log2_le_mono a b Hab). lia.
Qed.

Lemma Zdigits2_succ (a : Z) : 0 < a -> Zdigits2 (a + 1) <= Zdigits2 a + 1.
Proof.
  intros Ha. rewrite !Zdigits2_log2 by lia.
  pose proof (Z.log2_succ_le a). unfold Z.succ in *. lia.
Qed.

(** Dropping [n] low digits of a number that has more. *)
Lemma Zdigits2_div_pow2 (m n : Z) :
  0 < m -> 0 <= n < Zdigits2 m ->
  0 < m / 2 ^ n /\ Zdigits2 (m / 2 ^ n) = Zdigits2 m - n.
Proof.
  intros Hm Hn. rewrite (Zdigits2_log2 m) in * by lia.
  assert (Hpos : 0 < m / 2 ^ n).
  { apply Z.div_str_pos. split; [apply Z.pow_pos_nonneg; lia |].
    pose proof (Z.log2_spec m Hm) as [Hlo _].
    apply Z.le_trans with (2 ^ Z.log2 m); [| exact Hlo].
    apply Z.pow_le_mono_r; lia. }
  split; [exact Hpos |].
  rewrite Zdigits2_log2 by exact Hpos.
  rewrite <- Z.shiftr_div_pow2 by lia.
  rewrite Z.log2_shiftr by lia. lia.
Qed.

Lemma Zdigits2_mul_pow2 (m n : Z) :
  0 < m -> 0 <= n -> Zdigits2 (m * 2 ^ n) = Zdigits2 m + n.
Proof.
  intros Hm Hn.
  assert (Hp : 0 < 2 ^ n) by (apply Z.pow_pos_nonneg; lia).
  rewrite !Zdigits2_log2 by nia.
  rewrite <- Z.shiftl_mul_pow2 by lia.
  rewrite Z.log2_shiftl by lia. lia.
Qed.

(** Rounding a positive mantissa whose magnitude is in the normal range
    gives a finite, non-zero number, of magnitude at most one more. *)
Lemma binary_round_aux_normal (s : bool) (m e : Z) (l : location) :
  0 < m -> -1021 <= Zdigits2 m + e <= 1022 -> e <= 970 ->
  exists m' e',
    binary_round_aux F64.prec F64.emax s m e l = S754_finite s m' e' /\
    Zdigits2 (Zpos m') <= 53 /\
    Zdigits2 m + e <= Zdigits2 (Zpos m') + e' <= Zdigits2 m + e + 1.
Proof.
  intros Hm Hmag He. unfold binary_round_aux.
  pose proof (Zdigits2_pos m Hm) as Hd.
  pose proof (shr_fexp_spec m e l ltac:(lia)) as [H1 H1e].
  destruct (shr_fexp F64.prec F64.emax m e l) as [mrs' e1] eqn:E1.
  cbn [fst snd] in H1, H1e.
  unfold fexp, emin, F64.prec, F64.emax in H1, H1e.
  set (n1 := Z.max 0 (Z.max (Zdigits2 m + e - 53) (3 - 1024 - 53) - e)) in *.
  assert (Hn1 : n1 = Z.max 0 (Zdigits2 m - 53)) by lia.
  destruct (Zdigits2_div_pow2 m n1 Hm ltac:(lia)) as [Hm1 Hd1].
  rewrite <- H1 in Hm1, Hd1.
  pose proof (round_nearest_even_bounds (shr_m mrs') (loc_of_shr_record mrs')) as Hr.
  set (m1 := round_nearest_even (shr_m mrs') (loc_of_shr_record mrs')) in *.
  assert (Hd1r : Zdigits2 (shr_m mrs') <= Zdigits2 m1 <= Zdigits2 (shr_m mrs') + 1).
  { split; [apply Zdigits2_le; lia |].
    apply Z.le_trans with (Zdigits2 (shr_m mrs' + 1)).
    - apply Zdigits2_le; lia.
    - apply Zdigits2_succ; lia. }
  pose proof (shr_fexp_spec m1 e1 loc_Exact ltac:(lia)) as [H2 H2e].
  destruct (shr_fexp F64.prec F64.emax m1 e1 loc_Exact) as [mrs'' e2] eqn:E2.
  cbn [fst snd] in H2, H2e.
  unfold fexp, emin, F64.prec, F64.emax in H2, H2e.
  set (n2 := Z.max 0 (Z.max (Zdigits2 m1 + e1 - 53) (3 - 1024 - 53) - e1)) in *.
  assert (Hn2 : n2 = Z.max 0 (Zdigits2 m1 - 53)) by lia.
  destruct (Zdigits2_div_pow2 m1 n2 ltac:(lia) ltac:(lia)) as [Hm2 Hd2].
  rewrite <- H2 in Hm2, Hd2.
  destruct (shr_m mrs'') as [| m' | m'] eqn:Em2; try lia.
  exists m', e2.
  unfold F64.emax, F64.prec.
  destruct (Z.leb_spec e2 (1024 - 53)); [| lia].
  split; [reflexivity |]. lia.
Qed.

Lemma Pos_iter_xO (p k : positive) : Zpos (Pos.iter xO p k) = Zpos p * 2 ^ Zpos k.
Proof.
  induction k as [| k IH] using Pos.peano_ind.
  - simpl. lia.
  - rewrite Pos.iter_succ, Pos2Z.inj_xO, IH, Pos2Z.inj_succ, Z.pow_succ_r by lia.
    lia.
Qed.

(** A positive integer below 2^64 converts to a finite positive number. *)
Lemma of_Z_finite (z : Z) :
  0 < z < 2 ^ 64 ->
  exists m e,
    F64.of_Z z = S754_finite false m e /\
    Zdigits2 (Zpos m) <= 53 /\ 1 <= Zdigits2 (Zpos m) + e <= 66.
Proof.
  intros Hz. destruct z as [| p | p]; try lia.
  unfold F64.of_Z, binary_normalize, binary_round.
  pose proof (Zdigits2_pos (Zpos p) ltac:(lia)) as Hd1.
  assert (Hd64 : Zdigits2 (Zpos p) <= 64).
  { destruct (Z_le_gt_dec (Zdigits2 (Zpos p)) 64) as [| Hgt]; [assumption |].
    pose proof (Zdigits2_bounds (Zpos p) ltac:(lia)) as [Hlo _].
    assert (2 ^ 64 <= 2 ^ (Zdigits2 (Zpos p) - 1)) by (apply Z.pow_le_mono_r; lia).
    lia. }
  change (Z.pos (digits2_pos p)) with (Zdigits2 (Zpos p)).
  unfold shl_align, fexp, emin, F64.prec, F64.emax.
  set (d := Zdigits2 (Zpos p)) in *.
  replace (Z.max (d + 0 - 53) (3 - 1024 - 53) - 0) with (d - 53) by lia.
  replace (Z.max (d + 0 - 53) (3 - 1024 - 53)) with (d - 53) by lia.
  destruct (d - 53) as [| k | k] eqn:Ek.
  - destruct (binary_round_aux_normal false (Zpos p) 0 loc_Exact)
      as (m' & e' & Heq & Hm' & Hmag); fold d; try lia.
    exists m', e'. split; [exact Heq |]. fold d in Hmag. lia.
  - destruct (binary_round_aux_normal false (Zpos p) 0 loc_Exact)
      as (m' & e' & Heq & Hm' & Hmag); fold d; try lia.
    exists m', e'. split; [exact Heq |]. fold d in Hmag. lia.
  - assert (Hdk : Zdigits2 (Zpos (Pos.iter xO p k)) = d + Zpos k).
    { rewrite Pos_iter_xO. apply Zdigits2_mul_pow2; lia. }
    destruct (binary_round_aux_normal false (Zpos (Pos.iter xO p k)) (Zneg k) loc_Exact)
      as (m' & e' & Heq & Hm' & Hmag); try lia.
    exists m', e'. split; [exact Heq |]. lia.
Qed.

(** The quotient of two finite positive numbers of moderate magnitude is
    finite and positive. *)
Lemma div_finite (mx my : positive) (ex ey : Z) :
  Zdigits2 (Zpos mx) <= 53 -> Zdigits2 (Zpos my) <= 53 ->
  -900 <= Zdigits2 (Zpos mx) + ex - (Zdigits2 (Zpos my) + ey) <= 900 ->
  exists m e,
    F64.div (S754_finite false mx ex) (S754_finite false my ey)
    = S754_finite false m e.
Proof.
  intros Hdx Hdy HE.
  pose proof (Zdigits2_pos (Zpos mx) ltac:(lia)) as Hdx1.
  pose proof (Zdigits2_pos (Zpos my) ltac:(lia)) as Hdy1.
  unfold F64.div, SFdiv, SFdiv_core_binary.
  unfold fexp, emin, F64.prec, F64.emax.
  set (dx := Zdigits2 (Zpos mx)) in *. set (dy := Zdigits2 (Zpos my)) in *.
  set (e' := Z.min (Z.max (dx + ex - (dy + ey) - 53) (3 - 1024 - 53)) (ex - ey)).
  assert (He' : e' = dx + ex - (dy + ey) - 53) by lia.
  assert (Hs : ex - ey - e' = 53 - dx + dy) by lia.
  rewrite Hs.
  destruct (53 - dx + dy) as [| k | k] eqn:Ek; try lia.
  rewrite Z.shiftl_mul_pow2 by lia.
  assert (Hp : 0 < 2 ^ Zpos k) by (apply Z.pow_pos_nonneg; lia).
  set (m' := Zpos mx * 2 ^ Zpos k) in *.
  assert (Hm'pos : 0 < m') by (unfold m'; nia).
  assert (Hdm' : Zdigits2 m' = dx + Zpos k) by (apply Zdigits2_mul_pow2; lia).
  pose proof (Zdigits2_bounds m' Hm'pos) as [Hm'lo _].
  pose proof (Zdigits2_bounds (Zpos my) ltac:(lia)) as [_ Hmyhi]. fold dy in Hmyhi.
  assert (Hle : Zpos my <= m').
  { apply Z.le_trans with (2 ^ (Zdigits2 m' - 1)); [| exact Hm'lo].
    apply Z.le_trans with (2 ^ dy); [lia |]. apply Z.pow_le_mono_r; lia. }
  pose proof (Z_div_mod m' (Zpos my) ltac:(lia)) as Hdiv.
  change (Z.div_eucl m' (Zpos my)) with (IntDef.Z.div_eucl m' (Zpos my)) in Hdiv.
  destruct (IntDef.Z.div_eucl m' (Zpos my)) as [q r].
  assert (Hq : 0 < q) by nia.
  assert (Hqm : q <= m') by nia.
  pose proof (Zdigits2_pos q Hq) as Hdq1.
  pose proof (Zdigits2_le q m' Hq Hqm) as Hdq.
  destruct (binary_round_aux_normal (xorb false false) q e' (new_location (Zpos my) r))
    as (m2 & e2 & Heq & _ & _); try lia.
  exists m2, e2. exact Heq.
Qed.

(** ** C2: the CPU percentage *)

(** Two samples of one process: the total CPU time, in milliseconds, and
    the capture time, in nanoseconds. *)
Definition sampleAt (total ctime : Z) : Process :=
  mkProcess 7 1 7 "proc" "root" "running" "proc" "/srv"
    ProcMem.zero (ProcTime.mk 0 total 0 total) ProcIO.zero ctime
    ProcFDUsage.zero (Some ∅) F64.zero.

(** C2.  Without a previous sample [GetProcCpuPercentage] returns exactly
    0.  With one, it returns [Round(dCPU / (elapsed / 1e6), .5, 4)]: [dCPU]
    is the difference of the two totals as a signed 64-bit integer (the
    difference itself whenever it fits, and congruent to it modulo 2^64 in
    any case), and [elapsed] is the [Duration] between the two capture
    times in nanoseconds (their difference whenever it fits), so that
    [elapsed / 1e6] are the elapsed milliseconds. *)
Theorem GetProcCpuPercentage_delta (last current : Process) :
  GetProcCpuPercentage None (Some current) = F64.zero /\
  exists dCPU elapsed : Z,
    GetProcCpuPercentage (Some last) (Some current)
    = System.Round
        (F64.div (F64.of_Z dCPU) (F64.div (F64.of_Z elapsed) (F64.of_Z 1000000)))
        F64.half 4 /\
    GoInt.is_i64 dCPU /\
    (dCPU - (ProcTime.Total (Cpu current) - ProcTime.Total (Cpu last)))
      mod GoInt.two64 = 0 /\
    (GoInt.is_i64 (ProcTime.Total (Cpu current) - ProcTime.Total (Cpu last)) ->
     dCPU = ProcTime.Total (Cpu current) - ProcTime.Total (Cpu last)) /\
    GoInt.is_i64 elapsed /\
    (GoInt.is_i64 (Ctime current - Ctime last) ->
     elapsed = Ctime current - Ctime last).
Proof.
  split; [reflexivity |].
  exists (GoInt.int64_of_u64
            (GoInt.sub_u64 (ProcTime.Total (Cpu current)) (ProcTime.Total (Cpu last)))),
         (GoInt.sat64 (Ctime current - Ctime last)).
  split; [reflexivity |]. split; [| split; [| split; [| split]]].
  - apply int64_of_u64_range, wrap64_range.
  - apply signed_sub_congr.
  - apply signed_sub_exact.
  - apply sat64_range.
  - apply sat64_exact.
Qed.

(** The round trip of the spec: two samples one second apart, the second
    with [delta] ms of CPU time more, give [delta / 1000], rounded. *)
Lemma GetProcCpuPercentage_one_second (last current : Process) (delta : Z) :
  ProcTime.Total (Cpu current) - ProcTime.Total (Cpu last) = delta ->
  GoInt.is_i64 delta ->
  Ctime current - Ctime last = 1000000000 ->
  GetProcCpuPercentage (Some last) (Some current)
  = System.Round (F64.div (F64.of_Z delta) (F64.of_Z 1000)) F64.half 4.
Proof.
  intros Hdelta Hfit Hsecond. unfold GetProcCpuPercentage.
  rewrite signed_sub_exact by (now rewrite Hdelta).
  rewrite Hdelta, Hsecond. reflexivity.
Qed.

(** For instance, 500 ms of CPU time more is the percentage 0.5. *)
Example GetProcCpuPercentage_half :
  GetProcCpuPercentage (Some (sampleAt 1000 0)) (Some (sampleAt 1500 1000000000))
  = F64.half.
Proof. vm_compute. reflexivity. Qed.

(** ** C3: the sign of the CPU percentage *)

(** C3 (as stated, it fails).  When the current total is smaller than the
    previous one the percentage is negative: 1000 ms less, one second
    later, gives -1. *)
Lemma GetProcCpuPercentage_negative :
  GetProcCpuPercentage (Some (sampleAt 1000 0)) (Some (sampleAt 0 1000000000))
  = F64.opp (F64.of_Z 1) /\
  F64.le F64.zero
    (GetProcCpuPercentage (Some (sampleAt 1000 0)) (Some (sampleAt 0 1000000000)))
  = false.
Proof. split; vm_compute; reflexivity. Qed.

Lemma sat64_pos (z : Z) : 0 < z -> 0 < GoInt.sat64 z < 2 ^ 64.
Proof.
  intros Hz. unfold GoInt.sat64, GoInt.minInt64, GoInt.maxInt64.
  destruct (Z.ltb_spec z (- 2 ^ 63)); [lia |].
  destruct (Z.ltb_spec (2 ^ 63 - 1) z); lia.
Qed.

(** C3, amended.  When the current total CPU time is not below the
    previous one (by less than 2^63 ms) and the current sample was captured
    after the previous one, the percentage is the rounding to four decimal
    places of the quotient of the difference of the totals by the elapsed
    milliseconds (the elapsed nanoseconds, at most the largest [Duration],
    over 1e6); that quotient is not negative, and neither is the
    percentage.  For a process seen for the first time it is 0. *)
Theorem GetProcCpuPercentage_nonneg (last current : Process) :
  0 <= ProcTime.Total (Cpu current) - ProcTime.Total (Cpu last) < 2 ^ 63 ->
  0 < Ctime current - Ctime last ->
  let delta := ProcTime.Total (Cpu current) - ProcTime.Total (Cpu last) in
  let elapsed := GoInt.sat64 (Ctime current - Ctime last) in
  let perc :=
    F64.div (F64.of_Z delta) (F64.div (F64.of_Z elapsed) (F64.of_Z 1000000)) in
  GetProcCpuPercentage (Some last) (Some current) = System.Round perc F64.half 4 /\
  (Ctime current - Ctime last < 2 ^ 63 -> elapsed = Ctime current - Ctime last) /\
  F64.le F64.zero perc = true /\
  F64.le F64.zero (GetProcCpuPercentage (Some last) (Some current)) = true /\
  GetProcCpuPercentage None (Some current) = F64.zero.
Proof.
  intros Hd Hns delta elapsed perc.
  assert (Hget : GetProcCpuPercentage (Some last) (Some current)
                 = System.Round perc F64.half 4).
  { unfold GetProcCpuPercentage.
    rewrite signed_sub_exact
      by (unfold GoInt.is_i64, GoInt.minInt64, GoInt.maxInt64; lia).
    reflexivity. }
  assert (Hperc : nonneg perc).
  { subst perc elapsed.
    destruct (of_Z_finite (GoInt.sat64 (Ctime current - Ctime last)))
      as (mx & ex & -> & Hdx & Hmag); [now apply sat64_pos |].
    change (F64.of_Z 1000000) with (S754_finite false 8589934592000000 (-33)).
    destruct (div_finite mx 8589934592000000 ex (-33)) as (md & ed & ->);
      [exact Hdx | vm_compute; discriminate | |].
    - change (Zdigits2 (Zpos 8589934592000000)) with 53. lia.
    - apply div_nonneg, signed_nonneg.
      pose proof (of_Z_signed delta) as H. subst delta.
      destruct (Z.ltb_spec
                  (ProcTime.Total (Cpu current) - ProcTime.Total (Cpu last)) 0);
        [lia | exact H]. }
  split; [exact Hget |]. split; [| split; [| split]].
  - intros Hfits. apply sat64_exact.
    unfold GoInt.is_i64, GoInt.minInt64, GoInt.maxInt64. lia.
  - now apply nonneg_le.
  - rewrite Hget. apply nonneg_le. now apply Round_nonneg.
  - reflexivity.
Qed.

Lemma GetProcCpuPercentage_nonneg_witness :
  GetProcCpuPercentage (Some (sampleAt 1000 0)) (Some (sampleAt 1500 1000000000))
  = System.Round
      (F64.div (F64.of_Z 500) (F64.div (F64.of_Z 1000000000) (F64.of_Z 1000000)))
      F64.half 4 /\
  F64.le F64.zero
    (GetProcCpuPercentage (Some (sampleAt 1000 0)) (Some (sampleAt 1500 1000000000)))
  = true /\
  GetProcCpuPercentage None (Some (sampleAt 1500 1000000000)) = F64.zero.
Proof.
  destruct (GetProcCpuPercentage_nonneg (sampleAt 1000 0) (sampleAt 1500 1000000000))
    as (Hget & _ & _ & Hsign & Hfirst); [simpl; lia | simpl; lia |].
  split; [exact Hget | split; [exact Hsign | exact Hfirst]].
Defined.

(** ** C4: what a cycle asks of the system *)

(** A computation that only appends to the log, whatever the log. *)
Definition logs {A} (c : M A) : Prop :=
  forall log, c log = (result c, log ++ queries c).

Lemma logs_ret {A} (a : A) : logs (ret a).
Proof. intros log. unfold ret, result, queries. simpl. now rewrite app_nil_r. Qed.

Lemma logs_ask (q : Query) : logs (ask q).
Proof. intros log. reflexivity. Qed.

Lemma logs_bind {A B} (c : M A) (k : A -> M B) :
  logs c -> (forall a, logs (k a)) -> logs (bind c k).
Proof.
  intros Hc Hk log. unfold result, queries, bind.
  rewrite (Hc log), (Hc []). simpl.
  rewrite (Hk (result c) (log ++ queries c)), (Hk (result c) (queries c)).
  simpl. now rewrite app_assoc.
Qed.

Lemma bind_queries {A B} (c : M A) (k : A -> M B) :
  logs c -> (forall a, logs (k a)) ->
  queries (bind c k) = queries c ++ queries (k (result c)).
Proof.
  intros Hc Hk. unfold queries at 1. unfold bind. rewrite (Hc []). simpl.
  now rewrite (Hk (result c) (queries c)).
Qed.

Lemma bind_result {A B} (c : M A) (k : A -> M B) :
  logs c -> (forall a, logs (k a)) ->
  result (bind c k) = result (k (result c)).
Proof.
  intros Hc Hk. unfold result at 1. unfold bind. rewrite (Hc []). simpl.
  now rewrite (Hk (result c) (queries c)).
Qed.

Ltac logs_step :=
  first
    [ apply logs_ret
    | apply logs_ask
    | apply logs_bind; [| intros ?]
    | match goal with
      | |- logs (match ?x with _ => _ end) => destruct x
      | |- logs (if ?c then _ else _) => destruct c
      | |- logs (let '(_, _) := ?x in _) => destruct x
      end ].

Lemma newProcess_logs ds pid cmdline env : logs (newProcess ds pid cmdline env).
Proof. unfold newProcess. repeat logs_step. Qed.

Lemma getProcFDUsage_logs ds pid : logs (getProcFDUsage ds pid).
Proof. unfold getProcFDUsage. repeat logs_step. Qed.

Lemma getProcEnv_logs ds pid out filter : logs (getProcEnv ds pid out filter).
Proof. unfold getProcEnv. repeat logs_step. Qed.

Lemma getDetails_env_logs ds pred proc : logs (getDetails_env ds pred proc).
Proof.
  unfold getDetails_env. destruct (Env proc); [apply logs_ret |].
  apply logs_bind; [apply getProcEnv_logs |]. intros [out [e |]]; apply logs_ret.
Qed.

Lemma getDetails_fd_logs ds pred proc : logs (getDetails_fd ds pred proc).
Proof.
  unfold getDetails_fd. apply logs_bind; [apply getProcFDUsage_logs |].
  intros [[fd |] [e |]]; try apply logs_ret; apply getDetails_env_logs.
Qed.

Lemma getDetails_args_logs ds pred proc : logs (getDetails_args ds pred proc).
Proof.
  unfold getDetails_args.
  destruct (String.eqb (CmdLine proc) ""); [| apply getDetails_fd_logs].
  apply logs_bind; [apply logs_ask |]. intros _.
  destruct (ProcArgs_Get ds (Pid proc)) as [args [e |]].
  - destruct (negb (IsNotImplemented e)); [apply logs_ret | apply getDetails_fd_logs].
  - apply getDetails_fd_logs.
Qed.

Lemma getDetails_logs ds pred proc : logs (getDetails ds pred proc).
Proof.
  unfold getDetails.
  repeat first [ apply getDetails_args_logs | logs_step ].
Qed.

Lemma getProcessEvent_logs procStats ds process :
  logs (getProcessEvent procStats ds process).
Proof.
  intros log. unfold result, queries. rewrite !getProcessEvent_run. reflexivity.
Qed.

Lemma sampleProcess_logs `{GoRuntime} procStats ds acc pid :
  logs (sampleProcess procStats ds acc pid).
Proof.
  unfold sampleProcess. destruct acc as [processes newProcs].
  destruct (carriedOver procStats pid) as [cmdline env].
  apply logs_bind; [apply newProcess_logs |]. intros [e | process]; [apply logs_ret |].
  destruct (MatchProcess procStats (Name process)); [| apply logs_ret].
  apply logs_bind; [apply getDetails_logs |]. intros [e | p]; apply logs_ret.
Qed.

Lemma foldM_logs {A B} (f : B -> A -> M B) (l : list A) (b : B) :
  (forall b a, logs (f b a)) -> logs (foldM f l b).
Proof.
  intros Hf. revert b. induction l as [| x l IH]; intros b; simpl.
  - apply logs_ret.
  - apply logs_bind; [apply Hf | apply IH].
Qed.

Lemma mapM_logs {A B} (f : A -> M B) (l : list A) :
  (forall a, logs (f a)) -> logs (mapM f l).
Proof.
  intros Hf. induction l as [| x l IH]; simpl.
  - apply logs_ret.
  - apply logs_bind; [apply Hf |]. intros y.
    apply logs_bind; [apply IH |]. intros ys. apply logs_ret.
Qed.

Lemma GetProcStats_logs `{GoRuntime} procStats ds : logs (GetProcStats procStats ds).
Proof.
  unfold GetProcStats.
  destruct (length (Procs procStats) =? 0)%nat; [apply logs_ret |].
  apply logs_bind; [apply logs_ask |]. intros _.
  destruct (ProcList_Get ds) as [e | pids]; [apply logs_ret |].
  apply logs_bind; [apply foldM_logs; intros; apply sampleProcess_logs |].
  intros [processes newProcs].
  destruct (includeTopProcesses _ _); [| apply logs_ret].
  apply logs_bind; [apply mapM_logs; intros; apply getProcessEvent_logs |].
  intros procs. apply logs_ret.
Qed.






























(** A process with a cached environment, a system where it still runs,
    and a kernel thread (no command line). *)
Definition old7 : Process :=
  mkProcess 7 1 7 "proc" "root" "sleeping" "proc -v" "/srv" ProcMem.zero
    (ProcTime.mk 0 500 0 500) ProcIO.zero 0 ProcFDUsage.zero
    (Some {[ "OLD"%string := VString "1" ]}) F64.zero.

Definition procSystem : DataSource :=
  fixtureSystem (inr [7]) 1000 1000000000 (["proc"%string], None)
    (inl ErrNotImplemented) (inr {[ "PATH"%string := "/bin"%string ]}) (inr 1000).



(** Process 7 as the first cycle over [procSystem] leaves it. *)
Definition cached7 : Process :=
  Eval vm_compute in
    match ProcsMap (snd (result (GetProcStats (rt := insertionRuntime)
                                   (fixtureStats true ∅) procSystem))) !! 7 with
    | Some p => p
    | None => zeroProcess
    end.


(** * Part III: one sampling cycle, as a whole *)

(** ** What the detail fetch leaves of a process *)

(** The environment of a process becomes known in [getDetails]; who the
    process is, and when it was captured, do not change there. *)
Definition detailed (proc proc' : Process) : Prop :=
  Pid proc' = Pid proc /\ Name proc' = Name proc /\ Ctime proc' = Ctime proc /\
  is_Some (Env proc') /\
  (forall env, Env proc = Some env -> Env proc' = Some env).

Lemma getDetails_env_detailed ds pred proc proc' log log' :
  getDetails_env ds pred proc log = (inr proc', log') -> detailed proc proc'.
Proof.
  unfold getDetails_env, getProcEnv. run_monad.
  destruct (Env proc) as [env |] eqn:Henv.
  - intros [= <- _]. unfold detailed. rewrite Henv. eauto 6.
  - assert (Hset : forall out, detailed proc (with_Env proc (Some out))).
    { intros out. repeat split; cbn; eauto. rewrite Henv. discriminate. }
    destruct (ProcEnv_Get ds (Pid proc)) as [e | vars].
    + destruct (IsNotImplemented e); [intros [= <- _]; apply Hset |].
      destruct (IsPermission e); [intros [= <- _]; apply Hset | discriminate].
    + intros [= <- _]. apply Hset.
Qed.

Lemma detailed_trans (p q r : Process) :
  Pid q = Pid p -> Name q = Name p -> Ctime q = Ctime p -> Env q = Env p ->
  detailed q r -> detailed p r.
Proof.
  intros Hpid Hname Htime Henv (H1 & H2 & H3 & H4 & H5).
  repeat split; try congruence. intros env He. apply H5. congruence.
Qed.

Lemma getDetails_fd_detailed ds pred proc proc' log log' :
  getDetails_fd ds pred proc log = (inr proc', log') -> detailed proc proc'.
Proof.
  unfold getDetails_fd. run_monad.
  destruct (getProcFDUsage ds (Pid proc) log) as [[[fd |] [e |]] log1];
    try discriminate.
  - intros Hrun. apply getDetails_env_detailed in Hrun.
    now apply (detailed_trans proc (with_FD proc fd)).
  - apply getDetails_env_detailed.
Qed.

Lemma getDetails_args_detailed ds pred proc proc' log log' :
  getDetails_args ds pred proc log = (inr proc', log') -> detailed proc proc'.
Proof.
  unfold getDetails_args. run_monad.
  destruct (String.eqb (CmdLine proc) ""); [| apply getDetails_fd_detailed].
  destruct (ProcArgs_Get ds (Pid proc)) as [args [e |]].
  - destruct (negb (IsNotImplemented e)); [discriminate |].
    intros Hrun. apply getDetails_fd_detailed in Hrun.
    now apply (detailed_trans proc (with_CmdLine proc (String.concat " " args))).
  - intros Hrun. apply getDetails_fd_detailed in Hrun.
    now apply (detailed_trans proc (with_CmdLine proc (String.concat " " args))).
Qed.

Lemma getDetails_detailed ds pred proc proc' log log' :
  getDetails ds pred proc log = (inr proc', log') -> detailed proc proc'.
Proof.
  unfold getDetails. run_monad.
  destruct (ProcMem_Get ds (Pid proc)) as [e | mem]; [discriminate |].
  destruct (ProcTime_Get ds (Pid proc)) as [e | cpu]; [discriminate |].
  destruct (ProcIO_Get ds (Pid proc)) as [e | io]; [discriminate |].
  intros Hrun. apply getDetails_args_detailed in Hrun.
  now apply (detailed_trans proc (with_IO (with_Cpu (with_Mem proc mem) cpu) io)).
Qed.

(** [newProcess] answers with the name the system reports for the PID. *)
Lemma newProcess_name ds pid cmdline env proc log log' :
  newProcess ds pid cmdline env log = (inr proc, log') ->
  exists state, ProcState_Get ds pid = inr state /\ Name proc = ProcState.Name state.
Proof.
  unfold newProcess. run_monad.
  destruct (ProcState_Get ds pid) as [e | state]; [discriminate |].
  destruct (ProcExe_Get ds pid) as [exe [e |]].
  - destruct (negb (IsNotImplemented e) && negb (IsPermission e));
      [discriminate |].
    intros [= <- _]. eauto.
  - intros [= <- _]. eauto.
Qed.

(** The percentage does not depend on the percentage stored in the
    current sample. *)
Lemma GetProcCpuPercentage_with_pct (last : option Process) (p : Process) (pct : float64) :
  GetProcCpuPercentage last (Some (with_cpuTotalPct p pct))
  = GetProcCpuPercentage last (Some p).
Proof. destruct last; reflexivity. Qed.

(** ** The loop over the PIDs *)

(** A process as a turn of the loop stores it. *)
Definition sampledFrom (procStats : ProcStats) (ds : DataSource) (p : Process) : Prop :=
  (exists state, ProcState_Get ds (Pid p) = inr state /\
                 Name p = ProcState.Name state) /\
  MatchProcess procStats (Name p) = true /\
  is_Some (Env p) /\
  (forall previousProc env,
     ProcsMap procStats !! Pid p = Some previousProc ->
     Env previousProc = Some env -> Env p = Some env) /\
  Ctime p = time_Now ds (Pid p) /\
  cpuTotalPct p = GetProcCpuPercentage (ProcsMap procStats !! Pid p) (Some p).

(** The state of the loop after the PIDs [done]. *)
Definition loopState (procStats : ProcStats) (ds : DataSource) (done : list Z)
    (acc : list Process * gmap Z Process) : Prop :=
  Forall (sampledFrom procStats ds) acc.1 /\
  Pid <$> acc.1 `sublist_of` done /\
  (forall pid p, acc.2 !! pid = Some p -> Pid p = pid /\ p ∈ acc.1) /\
  (forall p, p ∈ acc.1 -> is_Some (acc.2 !! Pid p)).

Lemma foldM_invariant {X S} (I : list X -> S -> Prop) (body : S -> X -> M S)
    (items : list X) :
  (forall done x acc log, I done acc -> I (done ++ [x]) (fst (body acc x log))) ->
  forall done acc log, I done acc -> I (done ++ items) (fst (foldM body items acc log)).
Proof.
  intros Hstep. induction items as [| x items IH]; intros done acc log Hacc.
  - simpl. now rewrite app_nil_r.
  - simpl. unfold bind. specialize (Hstep done x acc log Hacc).
    destruct (body acc x log) as [acc' log']. simpl in Hstep.
    replace (done ++ x :: items) with ((done ++ [x]) ++ items)
      by now rewrite <- app_assoc.
    now apply IH.
Qed.

Lemma loopState_skip procStats ds done x acc :
  loopState procStats ds done acc -> loopState procStats ds (done ++ [x]) acc.
Proof.
  intros (H1 & H2 & H3 & H4).
  split; [exact H1 | split; [now apply sublist_inserts_r | split; assumption]].
Qed.

Lemma sampleProcess_loopState `{GoRuntime} procStats ds done pid acc log :
  loopState procStats ds done acc ->
  loopState procStats ds (done ++ [pid]) (fst (sampleProcess procStats ds acc pid log)).
Proof.
  intros Hacc. unfold sampleProcess. destruct acc as [processes newProcs].
  destruct (carriedOver procStats pid) as [cmdline env] eqn:Hcarried.
  unfold bind at 1.
  destruct (newProcess ds pid cmdline env log) as [[e | process] log1] eqn:Hnew;
    [now apply loopState_skip |].
  destruct (MatchProcess procStats (Name process)) eqn:Hmatch;
    [| now apply loopState_skip].
  unfold bind.
  destruct (getDetails ds (Some (isWhitelistedEnvVar procStats)) process log1)
    as [[e | process'] log2] eqn:Hdetails; [now apply loopState_skip |].
  cbn [ret fst].
  destruct (newProcess_name _ _ _ _ _ _ _ Hnew) as (state & Hstate & Hname).
  apply newProcess_fields in Hnew as (Hpid & _ & Henv & _ & Htime).
  apply getDetails_detailed in Hdetails as (Hpid' & Hname' & Htime' & Hsome & Hkept).
  set (p := with_cpuTotalPct process' _).
  assert (Hp : Pid p = pid) by (cbn; congruence).
  assert (Hsampled : sampledFrom procStats ds p).
  { unfold sampledFrom. rewrite Hp. cbn [p Name Env Ctime cpuTotalPct with_cpuTotalPct].
    split; [exists state; split; congruence |].
    split; [congruence |]. split; [exact Hsome |].
    split; [| split; [congruence |]].
    - intros previousProc env0 Hprev Henv0. apply Hkept.
      unfold carriedOver in Hcarried. rewrite Hprev in Hcarried.
      congruence.
    - fold p. unfold p. rewrite GetProcCpuPercentage_with_pct. congruence. }
  destruct Hacc as (H1 & H2 & H3 & H4). unfold loopState. cbn [fst snd] in *.
  split; [| split; [| split]].
  - apply Forall_app. split; [exact H1 | now constructor].
  - rewrite fmap_app. apply sublist_app; [exact H2 |]. cbn [fmap list_fmap].
    now rewrite Hp.
  - intros pid' q. rewrite Hp. rewrite lookup_insert_Some.
    intros [[<- <-] | [Hne Hq]].
    + split; [exact Hp |]. apply elem_of_app. right. constructor.
    + destruct (H3 _ _ Hq) as [Hq1 Hq2]. split; [exact Hq1 |].
      apply elem_of_app. now left.
  - intros q Hq. rewrite Hp. apply elem_of_app in Hq as [Hq | Hq].
    + destruct (decide (pid = Pid q)) as [-> | Hne].
      * rewrite lookup_insert_eq. eauto.
      * rewrite lookup_insert_ne by exact Hne. now apply H4.
    + apply list_elem_of_singleton in Hq as ->. rewrite Hp, lookup_insert_eq. eauto.
Qed.

(** The record [getProcessEvent] builds for a process. *)
Definition eventOf (procStats : ProcStats) (ds : DataSource) (process : Process)
    : MapStr :=
  processRecord procStats process
    (match GetMemory ds with
     | inl _ => F64.zero
     | inr total =>
         System.Round
           (F64.div (F64.of_Z (ProcMem.Resident (Mem process))) (F64.of_Z total))
           F64.half 4
     end).

Lemma mapM_getProcessEvent procStats ds processes log :
  mapM (getProcessEvent procStats ds) processes log
  = (eventOf procStats ds <$> processes,
     log ++ replicate (length processes) QGetMemory).
Proof.
  revert log. induction processes as [| p processes IH]; intros log.
  - simpl. unfold ret. now rewrite app_nil_r.
  - simpl. unfold bind. rewrite getProcessEvent_run, IH. unfold ret.
    now rewrite <- app_assoc.
Qed.

Lemma processRecord_pid (procStats : ProcStats) (process : Process) (pct : float64) :
  processRecord procStats process pct !! "pid"%string = Some (VInt (Pid process)).
Proof.
  unfold processRecord.
  destruct (CpuTicks procStats), (Env process) as [env |],
    (negb (ProcFDUsage.is_zero (FD process)));
    record_lookup; now rewrite lookup_insert_eq.
Qed.

(** A cycle whose enumeration succeeds, in three steps: the loop over the
    PIDs, the top-N selection, the records. *)
Lemma GetProcStats_run `{GoRuntime} procStats ds pids log :
  Procs procStats <> [] ->
  ProcList_Get ds = inr pids ->
  GetProcStats procStats ds log
  = let '(acc, log1) :=
      foldM (sampleProcess procStats ds) pids ([], ∅) (log ++ [QProcList]) in
    let procStats' := set_ProcsMap procStats acc.2 in
    match includeTopProcesses procStats' (appended acc.1) with
    | Panics => ((Panics, procStats'), log1)
    | Returns processes =>
        ((Returns (inr (eventOf procStats' ds <$> processes)), procStats'),
         log1 ++ replicate (length processes) QGetMemory)
    end.
Proof.
  intros Hprocs Hlist. unfold GetProcStats.
  destruct (Procs procStats) as [| pattern patterns]; [congruence |].
  cbn [length Nat.eqb]. run_monad. rewrite Hlist.
  destruct (foldM _ pids _ _) as [[processes newProcs] log1]. cbn [fst snd].
  destruct (includeTopProcesses _ _) as [top |]; [| reflexivity].
  now rewrite mapM_getProcessEvent.
Qed.

Lemma GetProcStats_cycle `{GoRuntime} procStats ds pids :
  Procs procStats <> [] ->
  ProcList_Get ds = inr pids ->
  let acc := fst (foldM (sampleProcess procStats ds) pids ([], ∅) [QProcList]) in
  let procStats' := set_ProcsMap procStats acc.2 in
  snd (result (GetProcStats procStats ds)) = procStats' /\
  fst (result (GetProcStats procStats ds))
  = match includeTopProcesses procStats' (appended acc.1) with
    | Panics => Panics
    | Returns processes => Returns (inr (eventOf procStats' ds <$> processes))
    end.
Proof.
  intros Hprocs Hlist acc procStats'. subst acc procStats'.
  unfold result. rewrite (GetProcStats_run procStats ds pids []) by assumption.
  cbn [app].
  destruct (foldM _ pids _ _) as [[processes newProcs] log1]. cbn [fst snd].
  destruct (includeTopProcesses _ _) as [top |]; split; reflexivity.
Qed.

Lemma GetProcStats_loopState `{GoRuntime} procStats ds pids :
  loopState procStats ds pids
    (fst (foldM (sampleProcess procStats ds) pids ([], ∅) [QProcList])).
Proof.
  apply (foldM_invariant (loopState procStats ds) _ pids
           (fun done x acc log => sampleProcess_loopState procStats ds done x acc log)
           [] ([], ∅) [QProcList]).
  split; [constructor | split; [constructor | split]].
  - intros pid p. cbn. now rewrite lookup_empty.
  - intros p Hp. cbn in Hp. now apply elem_of_nil in Hp.
Qed.

(** X1.  After a cycle whose enumeration succeeds, every entry of the new
    snapshot is filed under its own PID, which is one of the PIDs listed;
    its name is the one the system reported and matches a pattern; its
    environment is known; it was captured at the time of its turn; and its
    CPU percentage is the one computed against the entry of the previous
    snapshot for that PID.  This holds whether or not the top-N selection
    that follows panics. *)
Theorem GetProcStats_snapshot `{GoRuntime} (procStats : ProcStats) (ds : DataSource)
    (pids : list Z) :
  Procs procStats <> [] ->
  ProcList_Get ds = inr pids ->
  forall pid p,
    ProcsMap (snd (result (GetProcStats procStats ds))) !! pid = Some p ->
    Pid p = pid /\ pid ∈ pids /\
    (exists state, ProcState_Get ds pid = inr state /\
                   Name p = ProcState.Name state) /\
    MatchProcess procStats (Name p) = true /\
    is_Some (Env p) /\
    Ctime p = time_Now ds pid /\
    cpuTotalPct p = GetProcCpuPercentage (ProcsMap procStats !! pid) (Some p).
Proof.
  intros Hprocs Hlist pid p.
  destruct (GetProcStats_cycle procStats ds pids Hprocs Hlist) as [-> _].
  destruct (GetProcStats_loopState procStats ds pids) as (Hall & Hsub & Hmap & _).
  cbn [ProcsMap set_ProcsMap]. intros Hp.
  destruct (Hmap pid p Hp) as [Hpid Hin].
  rewrite Forall_forall in Hall.
  destruct (Hall p Hin) as (Hstate & Hmatch & Henv & _ & Htime & Hpct).
  rewrite Hpid in *. repeat split; try assumption.
  eapply elem_of_sublist; [| exact Hsub].
  rewrite <- Hpid. apply list_elem_of_fmap. eauto.
Qed.

Lemma includeTopProcesses_disabled `{GoRuntime} procStats (l : list Process) :
  Enabled (IncludeTop procStats) = false ->
  includeTopProcesses procStats (appended l) = Returns l.
Proof.
  intros Hoff. unfold includeTopProcesses. rewrite Hoff. cbn [negb orb].
  unfold GoSlice.elems, appended. cbn [GoSlice.len GoSlice.arr].
  now rewrite take_app_length.
Qed.

(** X2.  With the top-N selection off, a cycle whose enumeration succeeds
    returns one record per process of the new snapshot and no other: the
    PIDs of the records, in their order, are a selection of the PIDs listed
    that keeps the order of the listing, and a PID is among them exactly
    when the new snapshot has an entry for it. *)
Theorem GetProcStats_reports_snapshot `{GoRuntime} (procStats : ProcStats)
    (ds : DataSource) (pids : list Z) :
  Procs procStats <> [] ->
  ProcList_Get ds = inr pids ->
  Enabled (IncludeTop procStats) = false ->
  exists (records : list MapStr) (sampled : list Z),
    fst (result (GetProcStats procStats ds)) = Returns (inr records) /\
    (fun r : MapStr => r !! "pid"%string) <$> records
    = (fun pid => Some (VInt pid)) <$> sampled /\
    sampled `sublist_of` pids /\
    (forall pid,
       pid ∈ sampled
       <-> is_Some (ProcsMap (snd (result (GetProcStats procStats ds))) !! pid)).
Proof.
  intros Hprocs Hlist Hoff.
  destruct (GetProcStats_cycle procStats ds pids Hprocs Hlist) as [-> ->].
  destruct (GetProcStats_loopState procStats ds pids) as (_ & Hsub & Hmap & Hin).
  destruct (fst (foldM _ pids _ _)) as [processes newProcs]. cbn [fst snd] in *.
  rewrite includeTopProcesses_disabled by exact Hoff.
  exists (eventOf (set_ProcsMap procStats newProcs) ds <$> processes),
    (Pid <$> processes).
  split; [reflexivity |]. split; [| split; [exact Hsub |]].
  - rewrite <- !list_fmap_compose. apply list_fmap_ext. intros i p _.
    apply processRecord_pid.
  - intros pid. cbn [ProcsMap set_ProcsMap]. split.
    + intros (p & -> & Hp)%list_elem_of_fmap. now apply Hin.
    + intros [p Hp]. destruct (Hmap pid p Hp) as [<- Hp'].
      apply list_elem_of_fmap. eauto.
Qed.

(** ** What a cycle asks, and of which processes *)

(** [c] only appends to the log, and every query it makes satisfies [P]. *)
Definition asksOnly (P : Query -> Prop) {A} (c : M A) : Prop :=
  logs c /\ Forall P (queries c).

Lemma asksOnly_ret P {A} (a : A) : asksOnly P (ret a).
Proof. split; [apply logs_ret | constructor]. Qed.

Lemma asksOnly_ask (P : Query -> Prop) (q : Query) : P q -> asksOnly P (ask q).
Proof. intros Hq. split; [apply logs_ask |]. repeat constructor. exact Hq. Qed.

Lemma asksOnly_bind P {A B} (c : M A) (k : A -> M B) :
  asksOnly P c -> (forall a, logs (k a)) -> asksOnly P (k (result c)) ->
  asksOnly P (bind c k).
Proof.
  intros [Hl Hc] Hk [_ Hkc]. split; [now apply logs_bind |].
  rewrite bind_queries by assumption. now apply Forall_app.
Qed.

Lemma asksOnly_bind_all P {A B} (c : M A) (k : A -> M B) :
  asksOnly P c -> (forall a, asksOnly P (k a)) -> asksOnly P (bind c k).
Proof.
  intros Hc Hk. apply asksOnly_bind; [exact Hc | | apply Hk].
  intros a. apply Hk.
Qed.

Ltac only_step :=
  first
    [ apply asksOnly_ret
    | apply asksOnly_ask; assumption
    | apply asksOnly_bind_all; [| intros ?]
    | match goal with
      | |- asksOnly _ (match ?x with _ => _ end) => destruct x
      | |- asksOnly _ (if ?c then _ else _) => destruct c
      | |- asksOnly _ (let '(_, _) := ?x in _) => destruct x
      end ].

Lemma newProcess_asksOnly P ds pid cmdline env :
  P (QProcState pid) -> P (QProcExe pid) ->
  asksOnly P (newProcess ds pid cmdline env).
Proof. intros H1 H2. unfold newProcess. repeat only_step. Qed.

Lemma getDetails_env_asksOnly P ds pred proc :
  (Env proc = None -> P (QProcEnv (Pid proc))) ->
  asksOnly P (getDetails_env ds pred proc).
Proof.
  intros Henv. unfold getDetails_env, getProcEnv.
  destruct (Env proc); [apply asksOnly_ret |].
  specialize (Henv eq_refl). repeat only_step.
Qed.

Lemma getDetails_fd_asksOnly P ds pred proc :
  P (QProcFDUsage (Pid proc)) ->
  (Env proc = None -> P (QProcEnv (Pid proc))) ->
  asksOnly P (getDetails_fd ds pred proc).
Proof.
  intros Hfd Henv. unfold getDetails_fd, getProcFDUsage.
  apply asksOnly_bind_all; [repeat only_step |].
  intros [[fd |] [e |]]; try apply asksOnly_ret;
    now apply getDetails_env_asksOnly.
Qed.

Lemma getDetails_asksOnly P ds pred proc :
  P (QProcMem (Pid proc)) -> P (QProcTime (Pid proc)) -> P (QProcIO (Pid proc)) ->
  (CmdLine proc = EmptyString -> P (QProcArgs (Pid proc))) ->
  P (QProcFDUsage (Pid proc)) ->
  (Env proc = None -> P (QProcEnv (Pid proc))) ->
  asksOnly P (getDetails ds pred proc).
Proof.
  intros Hmem Htime Hio Hargs Hfd Henv. unfold getDetails.
  apply asksOnly_bind_all; [now apply asksOnly_ask |]. intros _.
  destruct (ProcMem_Get ds (Pid proc)) as [e | mem]; [apply asksOnly_ret |].
  apply asksOnly_bind_all; [now apply asksOnly_ask |]. intros _.
  destruct (ProcTime_Get ds (Pid proc)) as [e | cpu]; [apply asksOnly_ret |].
  apply asksOnly_bind_all; [now apply asksOnly_ask |]. intros _.
  destruct (ProcIO_Get ds (Pid proc)) as [e | io]; [apply asksOnly_ret |].
  unfold getDetails_args. cbn [CmdLine Pid with_IO with_Cpu with_Mem].
  destruct (String.eqb_spec (CmdLine proc) "") as [Hcmd | Hcmd].
  - apply asksOnly_bind_all; [apply asksOnly_ask; auto |]. intros _.
    destruct (ProcArgs_Get ds (Pid proc)) as [args [e |]];
      [destruct (negb (IsNotImplemented e)); [apply asksOnly_ret |] |];
      now apply getDetails_fd_asksOnly.
  - now apply getDetails_fd_asksOnly.
Qed.

Lemma foldM_asksOnly P {X S} (body : S -> X -> M S) (items : list X) (acc : S) :
  (forall acc x, x ∈ items -> asksOnly P (body acc x)) ->
  asksOnly P (foldM body items acc).
Proof.
  revert acc. induction items as [| x items IH]; intros acc Hbody; simpl.
  - apply asksOnly_ret.
  - apply asksOnly_bind_all; [apply Hbody; left |].
    intros acc'. apply IH. intros acc'' y Hy. apply Hbody. now right.
Qed.

Lemma mapM_asksOnly P {X Y} (each : X -> M Y) (items : list X) :
  (forall x, asksOnly P (each x)) -> asksOnly P (mapM each items).
Proof.
  intros Heach. induction items as [| x items IH]; simpl.
  - apply asksOnly_ret.
  - apply asksOnly_bind_all; [apply Heach |]. intros y.
    apply asksOnly_bind_all; [apply IH |]. intros ys. apply asksOnly_ret.
Qed.

(** The process [pid] passes the name filter. *)
Definition matched (procStats : ProcStats) (ds : DataSource) (pid : Z) : Prop :=
  exists state, ProcState_Get ds pid = inr state /\
                MatchProcess procStats (ProcState.Name state) = true.

(** What a cycle may ask when the listing is [pids]: the listing and the
    total memory; the state and the executable of a listed PID; the memory,
    times, I/O and file descriptors of a listed PID that passes the name
    filter; its command line, unless one is carried over from the previous
    snapshot; its environment, unless the previous snapshot has one. *)
Definition permitted (procStats : ProcStats) (ds : DataSource) (pids : list Z)
    (q : Query) : Prop :=
  match q with
  | QProcList | QGetMemory => True
  | QProcState pid | QProcExe pid => pid ∈ pids
  | QProcMem pid | QProcTime pid | QProcIO pid | QProcFDUsage pid =>
      pid ∈ pids /\ matched procStats ds pid
  | QProcArgs pid =>
      pid ∈ pids /\ matched procStats ds pid /\
      fst (carriedOver procStats pid) = EmptyString
  | QProcEnv pid =>
      pid ∈ pids /\ matched procStats ds pid /\
      snd (carriedOver procStats pid) = None
  end.

Lemma sampleProcess_asksOnly `{GoRuntime} procStats ds pids acc pid :
  pid ∈ pids ->
  asksOnly (permitted procStats ds pids) (sampleProcess procStats ds acc pid).
Proof.
  intros Hpid. unfold sampleProcess. destruct acc as [processes newProcs].
  destruct (carriedOver procStats pid) as [cmdline env] eqn:Hcarried.
  apply asksOnly_bind; [now apply newProcess_asksOnly | |].
  - intros [e | process]; [apply logs_ret |].
    destruct (MatchProcess procStats (Name process)); [| apply logs_ret].
    apply logs_bind; [apply getDetails_logs |]. intros [e | p]; apply logs_ret.
  - destruct (result (newProcess ds pid cmdline env)) as [e | process] eqn:Hres;
      [apply asksOnly_ret |].
    assert (Hrun : newProcess ds pid cmdline env []
                   = (inr process, queries (newProcess ds pid cmdline env))).
    { rewrite <- Hres. unfold result, queries. now destruct (newProcess _ _ _ _ _). }
    destruct (newProcess_name _ _ _ _ _ _ _ Hrun) as (state & Hstate & Hname).
    apply newProcess_fields in Hrun as (Hp & Hcmd & Henv & _).
    destruct (MatchProcess procStats (Name process)) eqn:Hmatch;
      [| apply asksOnly_ret].
    assert (Hmatched : matched procStats ds pid).
    { exists state. split; [exact Hstate | congruence]. }
    apply asksOnly_bind_all; [| intros [e | p]; apply asksOnly_ret].
    apply getDetails_asksOnly; rewrite Hp; cbn [permitted]; auto.
    + intros Hempty. rewrite Hcarried. cbn [fst]. split; [| split]; congruence.
    + intros Hnone. rewrite Hcarried. cbn [snd]. split; [| split]; congruence.
Qed.

Lemma GetProcStats_asksOnly `{GoRuntime} procStats ds pids :
  ProcList_Get ds = inr pids ->
  asksOnly (permitted procStats ds pids) (GetProcStats procStats ds).
Proof.
  intros Hlist. unfold GetProcStats.
  destruct (length (Procs procStats) =? 0)%nat; [apply asksOnly_ret |].
  apply asksOnly_bind_all; [now apply asksOnly_ask |]. intros _.
  rewrite Hlist.
  apply asksOnly_bind_all;
    [apply foldM_asksOnly; intros; now apply sampleProcess_asksOnly |].
  intros [processes newProcs].
  destruct (includeTopProcesses _ _); [| apply asksOnly_ret].
  apply asksOnly_bind_all; [| intros procs; apply asksOnly_ret].
  apply mapM_asksOnly. intros p. split; [apply getProcessEvent_logs |].
  unfold queries. rewrite getProcessEvent_run. now repeat constructor.
Qed.

(** X3.  What a cycle asks of the system when the listing is [pids]: apart
    from the listing and the total memory, every query concerns a listed
    PID; the memory, times, I/O, file descriptors, command line and
    environment are asked only of a process whose reported name matches a
    pattern; the command line only when none is carried over from the
    previous snapshot, and the environment only when the previous snapshot
    has none for that PID. *)
Theorem GetProcStats_queries_permitted `{GoRuntime} (procStats : ProcStats)
    (ds : DataSource) (pids : list Z) (q : Query) :
  ProcList_Get ds = inr pids ->
  q ∈ queries (GetProcStats procStats ds) ->
  permitted procStats ds pids q.
Proof.
  intros Hlist Hq.
  destruct (GetProcStats_asksOnly procStats ds pids Hlist) as [_ Hall].
  rewrite Forall_forall in Hall. now apply Hall.
Qed.

(** A sampler without patterns does nothing in a cycle. *)
Lemma GetProcStats_no_patterns `{GoRuntime} procStats ds log :
  Procs procStats = [] ->
  GetProcStats procStats ds log = ((Returns (inr []), procStats), log).
Proof. intros Hnone. unfold GetProcStats. now rewrite Hnone. Qed.

(** X4.  The environment of a process is read at most in the cycle that
    first stores it: a PID that a cycle whose enumeration succeeded left
    in the snapshot is not asked for its environment in the next cycle,
    whatever the system then answers. *)
Theorem environment_read_once `{GoRuntime} (procStats : ProcStats)
    (ds1 ds2 : DataSource) (pids : list Z) (pid : Z) :
  ProcList_Get ds1 = inr pids ->
  let procStats1 := snd (result (GetProcStats procStats ds1)) in
  is_Some (ProcsMap procStats1 !! pid) ->
  QProcEnv pid ∉ queries (GetProcStats procStats1 ds2).
Proof.
  intros Hlist procStats1 [p Hp] Hasked.
  destruct (Procs procStats) as [| pattern patterns] eqn:Hprocs.
  { subst procStats1. unfold result, queries in *.
    rewrite (GetProcStats_no_patterns procStats ds1 [] Hprocs) in Hasked.
    cbn [fst snd] in Hasked.
    rewrite (GetProcStats_no_patterns procStats ds2 [] Hprocs) in Hasked.
    now apply elem_of_nil in Hasked. }
  assert (Hsome : Procs procStats <> []) by (rewrite Hprocs; discriminate).
  assert (Hknown : is_Some (Env p)).
  { subst procStats1.
    destruct (GetProcStats_cycle procStats ds1 pids Hsome Hlist) as [Heq _].
    rewrite Heq in Hp.
    destruct (GetProcStats_loopState procStats ds1 pids) as (Hall & _ & Hmap & _).
    cbn [ProcsMap set_ProcsMap] in Hp. destruct (Hmap pid p Hp) as [_ Hin].
    rewrite Forall_forall in Hall.
    now destruct (Hall p Hin) as (_ & _ & Henv & _). }
  destruct (ProcList_Get ds2) as [e | pids2] eqn:Hlist2.
  - revert Hasked. unfold queries, GetProcStats.
    destruct (length (Procs procStats1) =? 0)%nat; run_monad.
    + now intros ?%elem_of_nil.
    + rewrite Hlist2. cbn. intros Hq%list_elem_of_singleton. discriminate.
  - destruct (GetProcStats_asksOnly procStats1 ds2 pids2 Hlist2) as [_ Hall].
    rewrite Forall_forall in Hall. apply Hall in Hasked.
    cbn [permitted] in Hasked. destruct Hasked as (_ & _ & Hnone).
    unfold carriedOver in Hnone. rewrite Hp in Hnone. cbn [snd] in Hnone.
    rewrite Hnone in Hknown. now destruct Hknown.
Qed.

(** ** Top-N selection within the capacity *)

Lemma elems_length {A} (s : GoSlice.slice A) :
  (GoSlice.len s <= GoSlice.cap s)%nat -> length (GoSlice.elems s) = GoSlice.len s.
Proof. intros Hcap. unfold GoSlice.elems, GoSlice.cap in *. rewrite length_take. lia. Qed.

(** [s[:n]] of a slice sorted in place sees the [n] first of the sorted
    elements followed by the spare elements of the backing array. *)
Lemma slice_to_sorted `{GoRuntime} {A} (less : A -> A -> bool)
    (s : GoSlice.slice A) (n : Z) :
  n <= Z.of_nat (GoSlice.cap s) -> 0 < n ->
  GoSlice.slice_to (GoSlice.sorted_in_place (sort_Slice less) s) n
  = Returns (GoSlice.mkSlice
               (sort_Slice less (GoSlice.elems s)
                ++ drop (GoSlice.len s) (GoSlice.arr s))
               (Z.to_nat n)).
Proof.
  intros Hcap Hpos. rewrite slice_to_within; [reflexivity |].
  rewrite sorted_in_place_cap by (intros l; apply sort_Slice_length). lia.
Qed.

Lemma elems_mkSlice {A} (arr : list A) (n : nat) :
  GoSlice.elems (GoSlice.mkSlice arr n) = take n arr.
Proof. reflexivity. Qed.

Lemma sorted_in_place_arr {A} (sort : list A -> list A) (s : GoSlice.slice A) :
  GoSlice.arr (GoSlice.sorted_in_place sort s)
  = sort (GoSlice.elems s) ++ drop (GoSlice.len s) (GoSlice.arr s).
Proof. reflexivity. Qed.

Lemma appendMissing_nil (result : list Process) : appendMissing result [] = result.
Proof. reflexivity. Qed.

(** The selection, when both counts are within the capacity. *)
Lemma includeTopProcesses_within_cap `{GoRuntime} (procStats : ProcStats)
    (processes : GoSlice.slice Process) :
  let cfg := IncludeTop procStats in
  Enabled cfg = true ->
  ByCPU cfg <> 0 \/ ByMemory cfg <> 0 ->
  (GoSlice.len processes <= GoSlice.cap processes)%nat ->
  ByCPU cfg <= Z.of_nat (GoSlice.cap processes) ->
  ByMemory cfg <= Z.of_nat (GoSlice.cap processes) ->
  let spare := drop (GoSlice.len processes) (GoSlice.arr processes) in
  let byCpu :=
    if 0 <? ByCPU cfg then sort_Slice byCPU (GoSlice.elems processes)
    else GoSlice.elems processes in
  let byMem := sort_Slice byMemory byCpu in
  includeTopProcesses procStats processes
  = Returns (appendMissing (take (Z.to_nat (ByCPU cfg)) (byCpu ++ spare))
               (take (Z.to_nat (ByMemory cfg)) (byMem ++ spare))).
Proof.
  intros cfg Hon Hcounts Hlen Hcpu Hmem spare byCpu byMem.
  unfold includeTopProcesses. fold cfg. rewrite Hon. cbn [negb orb].
  replace ((ByCPU cfg =? 0) && (ByMemory cfg =? 0)) with false
    by (symmetry; apply andb_false_iff; rewrite !Z.eqb_neq; tauto).
  subst byMem byCpu. clearbody cfg.
  destruct (Z.ltb_spec 0 (ByCPU cfg)) as [Hc | Hc].
  - rewrite slice_to_sorted by assumption. cbn [outcome_bind].
    rewrite elems_mkSlice. fold spare.
    destruct (Z.ltb_spec 0 (ByMemory cfg)) as [Hm | Hm].
    + rewrite slice_to_sorted;
        [| rewrite sorted_in_place_cap by (intros l; apply sort_Slice_length);
           assumption | assumption].
      cbn [outcome_bind]. rewrite elems_mkSlice.
      rewrite sorted_in_place_elems by
        (first [intros l; apply sort_Slice_length | assumption]).
      rewrite sorted_in_place_len, sorted_in_place_arr.
      rewrite drop_app_length'
        by (rewrite sort_Slice_length; symmetry; now apply elems_length).
      reflexivity.
    + replace (Z.to_nat (ByMemory cfg)) with 0%nat by lia. reflexivity.
  - replace (Z.to_nat (ByCPU cfg)) with 0%nat by lia. cbn [take outcome_bind].
    destruct (Z.ltb_spec 0 (ByMemory cfg)) as [Hm | Hm].
    + rewrite slice_to_sorted by assumption. cbn [outcome_bind].
      rewrite elems_mkSlice. reflexivity.
    + replace (Z.to_nat (ByMemory cfg)) with 0%nat by lia. reflexivity.
Qed.

Lemma appendMissing_NoDup (result candidates : list Process) :
  NoDup (Pid <$> result ++ candidates) ->
  appendMissing result candidates = result ++ candidates.
Proof.
  revert result. induction candidates as [| c cs IH]; intros result Hnd.
  - now rewrite app_nil_r.
  - unfold appendMissing in *. cbn [fold_left].
    assert (Hc : isProcessInSlice result c = false).
    { apply not_true_is_false. intros Hin%isProcessInSlice_spec.
      rewrite fmap_app, fmap_cons in Hnd. apply NoDup_app in Hnd as (_ & Hdis & _).
      apply (Hdis _ Hin). left. }
    rewrite Hc. cbn [negb]. rewrite IH; rewrite <- app_assoc; [reflexivity | exact Hnd].
Qed.

(** X5.  With top-N selection on and both counts at most the number of
    processes, [includeTopProcesses] does not panic; every process it
    returns is one of those given; it returns at most [ByCPU + ByMemory]
    of them (none at all when neither count is positive); and no PID twice
    when the processes given have distinct PIDs. *)
Theorem includeTopProcesses_within_length `{GoRuntime} (procStats : ProcStats)
    (processes : GoSlice.slice Process) :
  Enabled (IncludeTop procStats) = true ->
  ByCPU (IncludeTop procStats) <> 0 \/ ByMemory (IncludeTop procStats) <> 0 ->
  (GoSlice.len processes <= GoSlice.cap processes)%nat ->
  ByCPU (IncludeTop procStats) <= Z.of_nat (GoSlice.len processes) ->
  ByMemory (IncludeTop procStats) <= Z.of_nat (GoSlice.len processes) ->
  exists result,
    includeTopProcesses procStats processes = Returns result /\
    (forall p, p ∈ result -> p ∈ GoSlice.elems processes) /\
    (length result
     <= Z.to_nat (ByCPU (IncludeTop procStats))
        + Z.to_nat (ByMemory (IncludeTop procStats)))%nat /\
    (NoDup (Pid <$> GoSlice.elems processes) -> NoDup (Pid <$> result)).
Proof.
  intros Hon Hcounts Hlen Hcpu Hmem.
  rewrite includeTopProcesses_within_cap by (first [assumption | lia]).
  set (byCpu := if 0 <? _ then _ else _).
  set (byMem := sort_Slice byMemory byCpu).
  assert (HpermC : byCpu ≡ₚ GoSlice.elems processes).
  { subst byCpu. destruct (0 <? _); [apply sort_Slice_perm | reflexivity]. }
  assert (HpermM : byMem ≡ₚ GoSlice.elems processes).
  { subst byMem. now rewrite sort_Slice_perm. }
  pose proof (elems_length processes Hlen) as Helems.
  rewrite !take_app_le
    by (first [rewrite HpermC | rewrite HpermM]; rewrite Helems; lia).
  destruct (appendMissing_spec
              (take (Z.to_nat (ByMemory (IncludeTop procStats))) byMem)
              (take (Z.to_nat (ByCPU (IncludeTop procStats))) byCpu))
    as (added & -> & Hsub & Hnew & Hnd & _).
  eexists. split; [reflexivity |]. split; [| split].
  - intros p [Hp | Hp]%elem_of_app.
    + rewrite <- HpermC. eapply elem_of_sublist; [exact Hp | apply sublist_take].
    + rewrite <- HpermM. eapply elem_of_sublist; [| apply sublist_take].
      eapply elem_of_sublist; [exact Hp | exact Hsub].
  - rewrite length_app. apply sublist_length in Hsub.
    rewrite length_take in Hsub. rewrite length_take. lia.
  - intros Hdistinct. rewrite fmap_app. apply NoDup_app. split; [| split].
    + eapply sublist_NoDup; [| apply fmap_sublist, sublist_take].
      now rewrite HpermC.
    + intros pid Hpid (p & -> & Hp)%list_elem_of_fmap. now apply (Hnew p Hp).
    + exact Hnd.
Qed.

(** In a sorted list, nothing after position [n] is less-than-reversed
    with anything before it. *)
Lemma sorted_by_take_drop {A} (less : A -> A -> bool) (l : list A) (n : nat) (p q : A) :
  sorted_by less l -> p ∈ take n l -> q ∈ drop n l -> less q p = false.
Proof.
  intros Hsorted (i & Hi)%list_elem_of_lookup (j & Hj)%list_elem_of_lookup.
  apply lookup_take_Some in Hi as [Hi Hlt]. rewrite lookup_drop in Hj.
  apply (Hsorted i (n + j)%nat p q); [lia | assumption | assumption].
Qed.

(** X6.  With top-N selection on, no selection by CPU and a count
    [ByMemory] between 1 and the number of processes, whose PIDs are
    distinct, [includeTopProcesses] returns exactly [ByMemory] processes,
    and they are the largest by resident memory: together with the
    processes left out they are the processes given, and no process left
    out has more resident memory than one returned. *)
Theorem includeTopProcesses_largest_by_memory `{GoRuntime} (procStats : ProcStats)
    (processes : GoSlice.slice Process) :
  Enabled (IncludeTop procStats) = true ->
  ByCPU (IncludeTop procStats) <= 0 ->
  0 < ByMemory (IncludeTop procStats) <= Z.of_nat (GoSlice.len processes) ->
  (GoSlice.len processes <= GoSlice.cap processes)%nat ->
  NoDup (Pid <$> GoSlice.elems processes) ->
  exists result rest,
    includeTopProcesses procStats processes = Returns result /\
    length result = Z.to_nat (ByMemory (IncludeTop procStats)) /\
    result ++ rest ≡ₚ GoSlice.elems processes /\
    (forall p q, p ∈ result -> q ∈ rest ->
       ProcMem.Resident (Mem q) <= ProcMem.Resident (Mem p)).
Proof.
  intros Hon Hcpu Hmem Hlen Hdistinct.
  rewrite includeTopProcesses_within_cap by (first [assumption | lia]).
  destruct (Z.ltb_spec 0 (ByCPU (IncludeTop procStats))) as [Hc | _]; [lia |].
  replace (Z.to_nat (ByCPU (IncludeTop procStats))) with 0%nat by lia.
  rewrite take_0.
  set (n := Z.to_nat (ByMemory (IncludeTop procStats))).
  set (byMem := sort_Slice byMemory (GoSlice.elems processes)).
  assert (Hperm : byMem ≡ₚ GoSlice.elems processes) by apply sort_Slice_perm.
  pose proof (elems_length processes Hlen) as Helems.
  assert (Hn : (n <= length byMem)%nat) by (rewrite Hperm, Helems; lia).
  rewrite take_app_le by exact Hn.
  rewrite appendMissing_NoDup.
  2:{ cbn [app]. eapply sublist_NoDup; [| apply fmap_sublist, sublist_take].
      now rewrite Hperm. }
  exists (take n byMem), (drop n byMem). cbn [app].
  split; [reflexivity |]. split; [rewrite length_take; lia |].
  split; [now rewrite take_drop |].
  intros p q Hp Hq.
  assert (Hless : byMemory q p = false).
  { apply (sorted_by_take_drop byMemory byMem n); [| assumption | assumption].
    apply sort_Slice_sorted, byMemory_ordering. }
  unfold byMemory in Hless. now apply Z.ltb_ge in Hless.
Qed.

(** X7.  With top-N selection on, no selection by memory and a count
    [ByCPU] between 1 and the number of processes, whose CPU percentages
    are ordered by [>] (none is a NaN), [includeTopProcesses] returns
    exactly [ByCPU] processes, and they are the busiest: together with
    the processes left out they are the processes given, and no process
    left out has a percentage above that of one returned. *)
Theorem includeTopProcesses_largest_by_cpu `{GoRuntime} (procStats : ProcStats)
    (processes : GoSlice.slice Process) :
  Enabled (IncludeTop procStats) = true ->
  ByMemory (IncludeTop procStats) <= 0 ->
  0 < ByCPU (IncludeTop procStats) <= Z.of_nat (GoSlice.len processes) ->
  (GoSlice.len processes <= GoSlice.cap processes)%nat ->
  transitive_ordering byCPU (GoSlice.elems processes) ->
  exists result rest,
    includeTopProcesses procStats processes = Returns result /\
    length result = Z.to_nat (ByCPU (IncludeTop procStats)) /\
    result ++ rest ≡ₚ GoSlice.elems processes /\
    (forall p q, p ∈ result -> q ∈ rest ->
       F64.gt (cpuTotalPct q) (cpuTotalPct p) = false).
Proof.
  intros Hon Hmem Hcpu Hlen Hordered.
  rewrite includeTopProcesses_within_cap by (first [assumption | lia]).
  destruct (Z.ltb_spec 0 (ByCPU (IncludeTop procStats))) as [_ | Hc]; [| lia].
  replace (Z.to_nat (ByMemory (IncludeTop procStats))) with 0%nat by lia.
  rewrite (take_0 (_ ++ _)), appendMissing_nil.
  set (n := Z.to_nat (ByCPU (IncludeTop procStats))).
  set (byCpu := sort_Slice byCPU (GoSlice.elems processes)).
  assert (Hperm : byCpu ≡ₚ GoSlice.elems processes) by apply sort_Slice_perm.
  pose proof (elems_length processes Hlen) as Helems.
  assert (Hn : (n <= length byCpu)%nat) by (rewrite Hperm, Helems; lia).
  rewrite take_app_le by exact Hn.
  exists (take n byCpu), (drop n byCpu).
  split; [reflexivity |]. split; [rewrite length_take; lia |].
  split; [now rewrite take_drop |].
  intros p q Hp Hq.
  apply (sorted_by_take_drop byCPU byCpu n); [| assumption | assumption].
  now apply sort_Slice_sorted.
Qed.

(** X8.  A count above the length of the slice but within its capacity
    does not panic: with top-N selection on and no selection by memory,
    [includeTopProcesses] returns every process, sorted, followed by the
    elements of the backing array that lie beyond the length, so that it
    returns [ByCPU] elements, more than there are processes. *)
Theorem includeTopProcesses_spare_capacity `{GoRuntime} (procStats : ProcStats)
    (processes : GoSlice.slice Process) :
  Enabled (IncludeTop procStats) = true ->
  ByMemory (IncludeTop procStats) <= 0 ->
  Z.of_nat (GoSlice.len processes) < ByCPU (IncludeTop procStats)
    <= Z.of_nat (GoSlice.cap processes) ->
  let n := Z.to_nat (ByCPU (IncludeTop procStats)) in
  exists result,
    includeTopProcesses procStats processes = Returns result /\
    result = sort_Slice byCPU (GoSlice.elems processes)
             ++ take (n - GoSlice.len processes)
                  (drop (GoSlice.len processes) (GoSlice.arr processes)) /\
    length result = n /\
    (GoSlice.len processes < length result)%nat.
Proof.
  intros Hon Hmem Hcpu n.
  assert (Hlen : (GoSlice.len processes <= GoSlice.cap processes)%nat) by lia.
  rewrite includeTopProcesses_within_cap by (first [assumption | lia]).
  destruct (Z.ltb_spec 0 (ByCPU (IncludeTop procStats))) as [_ | Hc]; [| lia].
  replace (Z.to_nat (ByMemory (IncludeTop procStats))) with 0%nat by lia.
  rewrite (take_0 (_ ++ _)), appendMissing_nil. fold n.
  pose proof (elems_length processes Hlen) as Helems.
  assert (Hsorted : length (sort_Slice byCPU (GoSlice.elems processes))
                    = GoSlice.len processes)
    by now rewrite sort_Slice_length.
  eexists. split; [reflexivity |].
  rewrite take_app_ge by (rewrite Hsorted; lia). rewrite Hsorted.
  split; [reflexivity |].
  assert (Hn : length (sort_Slice byCPU (GoSlice.elems processes)
                       ++ take (n - GoSlice.len processes)
                            (drop (GoSlice.len processes) (GoSlice.arr processes)))
               = n).
  { rewrite length_app, Hsorted, length_take, length_drop.
    unfold GoSlice.cap in *. lia. }
  split; [exact Hn | rewrite Hn; lia].
Qed.

(** ** Memory percentage, times, environment *)

(** X9.  [GetProcMemPercentage] reads the total memory from the system
    exactly when it is given the total 0, and asks nothing otherwise.  For
    a resident size and a total that are [uint64] values, the total in use
    being positive (the one given, or the one read when 0 is given), the
    percentage is not negative and not a NaN; when the read of the total
    fails it is 0. *)
Theorem GetProcMemPercentage_nonneg (ds : DataSource) (proc : Process)
    (totalPhyMem : Z) :
  0 <= ProcMem.Resident (Mem proc) < 2 ^ 64 ->
  0 <= totalPhyMem < 2 ^ 64 ->
  (forall total, totalPhyMem = 0 -> GetMemory ds = inr total -> 0 < total < 2 ^ 64) ->
  F64.le F64.zero (result (GetProcMemPercentage ds proc totalPhyMem)) = true /\
  queries (GetProcMemPercentage ds proc totalPhyMem)
  = (if totalPhyMem =? 0 then [QGetMemory] else []) /\
  (forall err, totalPhyMem = 0 -> GetMemory ds = inl err ->
     result (GetProcMemPercentage ds proc totalPhyMem) = F64.zero).
Proof.
  intros Hrss Htotal Hread.
  assert (Hperc : forall total, 0 < total < 2 ^ 64 ->
            F64.le F64.zero
              (System.Round
                 (F64.div (F64.of_Z (ProcMem.Resident (Mem proc))) (F64.of_Z total))
                 F64.half 4) = true).
  { intros total Hpos. apply nonneg_le, Round_nonneg.
    destruct (of_Z_finite total Hpos) as (m & e & -> & _).
    apply div_nonneg, signed_nonneg.
    pose proof (of_Z_signed (ProcMem.Resident (Mem proc))) as Hsigned.
    destruct (Z.ltb_spec (ProcMem.Resident (Mem proc)) 0); [lia | exact Hsigned]. }
  unfold result, queries, GetProcMemPercentage.
  destruct (Z.eqb_spec totalPhyMem 0) as [Hzero | Hpos].
  - run_monad. destruct (GetMemory ds) as [err | total] eqn:Hmem; cbn [fst snd app].
    + split; [reflexivity | split; [reflexivity | reflexivity]].
    + split; [apply Hperc; now apply Hread | split; [reflexivity |]].
      intros err _ [=].
  - unfold ret. cbn [fst snd]. split; [apply Hperc; lia | split; [reflexivity |]].
    intros err Hz. contradiction.
Qed.

(** X10.  [unixTimeMsToTime] on a [uint64] count of milliseconds: the
    result is the count in nanoseconds as long as that fits an [int64],
    which is up to 9223372036854 ms (the year 2262); the counts just above
    give a time before the epoch; in every case the result is the product
    modulo 2^64. *)
Theorem unixTimeMsToTime_range (unixTimeMs : Z) :
  GoInt.is_u64 unixTimeMs ->
  (unixTimeMs <= 9223372036854 ->
   unixTimeMsToTime unixTimeMs = unixTimeMs * 1000000) /\
  (9223372036855 <= unixTimeMs <= 18446744073709 ->
   unixTimeMsToTime unixTimeMs = unixTimeMs * 1000000 - 2 ^ 64 /\
   unixTimeMsToTime unixTimeMs < 0) /\
  GoInt.is_i64 (unixTimeMsToTime unixTimeMs) /\
  (unixTimeMsToTime unixTimeMs - unixTimeMs * 1000000) mod 2 ^ 64 = 0.
Proof.
  intros [Hlo Hhi]. unfold unixTimeMsToTime, GoInt.mul_u64.
  split; [| split; [| split]].
  - intros Hfits. unfold GoInt.wrap64, GoInt.two64.
    rewrite Z.mod_small by lia. unfold GoInt.int64_of_u64.
    destruct (Z.ltb_spec (unixTimeMs * 1000000) (2 ^ 63)); lia.
  - intros Hwraps. unfold GoInt.wrap64, GoInt.two64.
    rewrite Z.mod_small by lia. unfold GoInt.int64_of_u64, GoInt.two64.
    destruct (Z.ltb_spec (unixTimeMs * 1000000) (2 ^ 63)); lia.
  - apply int64_of_u64_range, wrap64_range.
  - pose proof (int64_of_u64_congr (GoInt.wrap64 (unixTimeMs * 1000000))) as Hc.
    unfold GoInt.two64 in *.
    rewrite <- Z.sub_0_r in Hc |- *.
    rewrite <- Z.sub_0_r.
    apply Z.cong_iff_0 in Hc. apply Z.cong_iff_0.
    rewrite Hc. unfold GoInt.wrap64, GoInt.two64. now rewrite Z.mod_mod by lia.
Qed.

(** Whether a filter lets a variable pass; the nil filter lets all pass. *)
Definition passes (filter : option (string -> bool)) (k : string) : bool :=
  match filter with
  | None => true
  | Some f => f k
  end.

Lemma copyEnv_lookup_out (filter : option (string -> bool))
    (vars : gmap string string) (out : MapStr) (k : string) :
  copyEnv filter vars out !! k
  = match vars !! k with
    | Some v => if passes filter k then Some (VString v) else out !! k
    | None => out !! k
    end.
Proof.
  assert (Heq : copyEnv filter vars out = copyEnv (Some (passes filter)) vars out).
  { destruct filter; reflexivity. }
  rewrite Heq, copyEnv_filter, lookup_union, lookup_fmap, map_lookup_filter.
  destruct (vars !! k) as [v |] eqn:Hv; cbn.
  - destruct (passes filter k) eqn:Hf.
    + rewrite option_guard_True by reflexivity. cbn. now destruct (out !! k).
    + rewrite option_guard_False by discriminate. cbn.
      now destruct (out !! k).
  - now destruct (out !! k).
Qed.

(** X11.  [getProcEnv] asks for the environment of the process once.  When
    the system cannot give it because the query is not implemented or not
    permitted, [out] is left as it was and no error is returned; another
    error is returned, with [out] as it was.  When the environment is read,
    a variable that passes the filter (every variable, when the filter is
    nil) is stored in [out] under its name, replacing what [out] held
    there, and every other entry of [out] stays. *)
Theorem getProcEnv_outcomes (ds : DataSource) (pid : Z) (out : MapStr)
    (filter : option (string -> bool)) :
  let r := result (getProcEnv ds pid out filter) in
  queries (getProcEnv ds pid out filter) = [QProcEnv pid] /\
  (forall err, ProcEnv_Get ds pid = inl err ->
     r = (out, if IsNotImplemented err || IsPermission err then None else Some err)) /\
  (forall vars, ProcEnv_Get ds pid = inr vars ->
     snd r = None /\
     forall k, fst r !! k
               = match vars !! k with
                 | Some v => if passes filter k then Some (VString v) else out !! k
                 | None => out !! k
                 end).
Proof.
  intros r. subst r. unfold result, queries, getProcEnv. run_monad.
  split; [| split].
  - destruct (ProcEnv_Get ds pid) as [err | vars]; [| reflexivity].
    destruct (IsNotImplemented err); [reflexivity |].
    destruct (IsPermission err); reflexivity.
  - intros err ->. destruct (IsNotImplemented err); [reflexivity |].
    destruct (IsPermission err); reflexivity.
  - intros vars ->. cbn [fst snd]. split; [reflexivity |].
    intros k. apply copyEnv_lookup_out.
Qed.

Lemma processRecord_env (procStats : ProcStats) (process : Process) (pct : float64) :
  processRecord procStats process pct !! "env"%string
  = match Env process with
    | Some env => if (0 <? size env)%nat then Some (VMapStr env) else None
    | None => None
    end.
Proof.
  unfold processRecord.
  destruct (CpuTicks procStats), (negb (ProcFDUsage.is_zero (FD process)));
    record_lookup;
    (destruct (Env process) as [env |]; [destruct (0 <? size env)%nat |]);
    rewrite ?lookup_insert_eq; try reflexivity;
    record_lookup; apply lookup_empty.
Qed.

(** X12.  With an empty allow-list no environment variable is kept: a
    process whose environment is fetched by [getDetails] under the
    predicate [isWhitelistedEnvVar] of a sampler without allow-list
    patterns ends with an empty, non-nil environment, whatever the system
    answers, and its record has no [env] key. *)
Theorem empty_whitelist_no_env (procStats : ProcStats) (ds : DataSource)
    (proc proc' : Process) (pct : float64) (log log' : list Query) :
  envRegexps procStats = [] ->
  Env proc = None ->
  getDetails ds (Some (isWhitelistedEnvVar procStats)) proc log = (inr proc', log') ->
  Env proc' = Some ∅ /\
  processRecord procStats proc' pct !! "env"%string = None.
Proof.
  intros Hnone Henv Hrun.
  assert (Hempty : Env proc' = Some ∅).
  { revert Hrun. unfold getDetails, getDetails_args. run_monad.
    destruct (ProcMem_Get ds (Pid proc)) as [e | mem]; [discriminate |].
    destruct (ProcTime_Get ds (Pid proc)) as [e | cpu]; [discriminate |].
    destruct (ProcIO_Get ds (Pid proc)) as [e | io]; [discriminate |].
    cbn [CmdLine Pid with_IO with_Cpu with_Mem].
    set (pred := Some (isWhitelistedEnvVar procStats)).
    assert (Hfd : forall p l, Env p = None ->
              getDetails_fd ds pred p l = (inr proc', log') -> Env proc' = Some ∅).
    { intros p l Hp. unfold getDetails_fd. run_monad.
      assert (Hstep : forall q l', Env q = None ->
                getDetails_env ds pred q l' = (inr proc', log') -> Env proc' = Some ∅).
      { intros q l' Hq. unfold getDetails_env, getProcEnv. rewrite Hq. run_monad.
        assert (Hcopy : forall vars, copyEnv pred vars ∅ = ∅).
        { intros vars. apply map_eq. intros k.
          rewrite copyEnv_lookup_out, lookup_empty. cbn [pred passes].
          unfold isWhitelistedEnvVar. rewrite Hnone. cbn.
          now destruct (vars !! k). }
        destruct (ProcEnv_Get ds (Pid q)) as [e | vars].
        - destruct (IsNotImplemented e); [now intros [= <- _] |].
          destruct (IsPermission e); [now intros [= <- _] | discriminate].
        - rewrite Hcopy. now intros [= <- _]. }
      destruct (getProcFDUsage ds (Pid p) l) as [[[fd |] [e |]] l1];
        try discriminate; now apply Hstep. }
    destruct (String.eqb (CmdLine proc) ""); [| now apply Hfd].
    destruct (ProcArgs_Get ds (Pid proc)) as [args [e |]];
      [destruct (negb (IsNotImplemented e)); [discriminate |] |];
      now apply Hfd. }
  split; [exact Hempty |]. now rewrite processRecord_env, Hempty.
Qed.

(** ** Initialisation *)

(** [procStats.procRegexps = regs] and [procStats.envRegexps = regs]. *)
Definition set_procRegexps (procStats : ProcStats) (regs : list Matcher) : ProcStats :=
  mkProcStats (Procs procStats) (ProcsMap procStats) (CpuTicks procStats)
    (EnvWhitelist procStats) (CacheCmdLine procStats) (IncludeTop procStats)
    regs (envRegexps procStats).

Definition set_envRegexps (procStats : ProcStats) (regs : list Matcher) : ProcStats :=
  mkProcStats (Procs procStats) (ProcsMap procStats) (CpuTicks procStats)
    (EnvWhitelist procStats) (CacheCmdLine procStats) (IncludeTop procStats)
    (procRegexps procStats) regs.

(** The errors of [InitProcStats]: the pattern that does not compile, and
    what [match.Compile] said of it. *)
Inductive InitError : Type :=
| FailedToCompile (pattern : string) (cause : error)
| FailedToCompileEnv (pattern : string) (cause : error).

Section Init.

(** [match.Compile] belongs to libbeat (package match), which is not among
    the sources: it is a parameter here. *)
Variable Compile : string -> error + Matcher.

(** The loops of lines 324-330 and 333-339: the patterns are compiled in
    order and appended to [regs]; the first that does not compile ends the
    loop, with what was appended until then. *)
Fixpoint compileEach (patterns : list string) (regs : list Matcher)
    : list Matcher * option (string * error) :=
  match patterns with
  | [] => (regs, None)
  | pattern :: rest =>
      match Compile pattern with
      | inl err => (regs, Some (pattern, err))
      | inr reg => compileEach rest (regs ++ [reg])
      end
  end.

(** [InitProcStats], lines 315-342: the error, and the [ProcStats] as the
    call leaves it. *)
Definition InitProcStats (procStats : ProcStats) : option InitError * ProcStats :=
  let procStats := set_ProcsMap procStats ∅ in
  if (length (Procs procStats) =? 0)%nat then (None, procStats)
  else
    match compileEach (Procs procStats) [] with
    | (regs, Some (pattern, err)) =>
        (Some (FailedToCompile pattern err), set_procRegexps procStats regs)
    | (regs, None) =>
        let procStats := set_procRegexps procStats regs in
        match compileEach (EnvWhitelist procStats) [] with
        | (regs, Some (pattern, err)) =>
            (Some (FailedToCompileEnv pattern err), set_envRegexps procStats regs)
        | (regs, None) => (None, set_envRegexps procStats regs)
        end
    end.

(** The patterns and the matchers compiled from them, one for one. *)
Definition compiled (patterns : list string) (regs : list Matcher) : Prop :=
  Forall2 (fun pattern reg => Compile pattern = inr reg) patterns regs.

Lemma compileEach_spec (patterns : list string) (regs : list Matcher) :
  match compileEach patterns regs with
  | (regs', None) => exists new, regs' = regs ++ new /\ compiled patterns new
  | (regs', Some (pattern, err)) =>
      exists done rest new,
        patterns = done ++ pattern :: rest /\ Compile pattern = inl err /\
        regs' = regs ++ new /\ compiled done new
  end.
Proof.
  revert regs. induction patterns as [| pattern patterns IH]; intros regs.
  - exists []. split; [now rewrite app_nil_r | constructor].
  - cbn [compileEach]. destruct (Compile pattern) as [err | reg] eqn:Hc.
    + exists [], patterns, []. rewrite app_nil_r.
      split; [reflexivity | split; [exact Hc | split; [reflexivity | constructor]]].
    + specialize (IH (regs ++ [reg])).
      destruct (compileEach patterns (regs ++ [reg])) as [regs' [[p e] |]].
      * destruct IH as (done & rest & new & -> & Hp & -> & Hdone).
        exists (pattern :: done), rest, (reg :: new).
        split; [reflexivity | split; [exact Hp |]].
        split; [now rewrite <- app_assoc | now constructor].
      * destruct IH as (new & -> & Hnew).
        exists (reg :: new). split; [now rewrite <- app_assoc | now constructor].
Qed.

Lemma compiled_exists (patterns : list string) (regs : list Matcher) (s : string) :
  compiled patterns regs ->
  existsb (fun reg => MatchString reg s) regs = true
  <-> exists pattern reg,
        pattern ∈ patterns /\ Compile pattern = inr reg /\ MatchString reg s = true.
Proof.
  induction 1 as [| pattern reg patterns regs Hc Hrest IH]; cbn [existsb].
  - split; [discriminate |]. intros (p & r & Hp & _). now apply elem_of_nil in Hp.
  - rewrite orb_true_iff, IH. split.
    + intros [Hm | (p & r & Hp & Hpc & Hm)].
      * exists pattern, reg. split; [left | auto].
      * exists p, r. split; [now right | auto].
    + intros (p & r & Hp & Hpc & Hm). apply elem_of_cons in Hp as [-> | Hp].
      * left. congruence.
      * right. eauto.
Qed.

Lemma compiled_each (patterns : list string) (regs : list Matcher) (pattern : string) :
  compiled patterns regs -> pattern ∈ patterns ->
  exists reg, Compile pattern = inr reg.
Proof.
  induction 1 as [| p reg patterns regs Hc Hrest IH]; intros Hin.
  - now apply elem_of_nil in Hin.
  - apply elem_of_cons in Hin as [-> | Hin]; eauto.
Qed.

Lemma isWhitelistedEnvVar_existsb (p : ProcStats) (varName : string) :
  isWhitelistedEnvVar p varName
  = existsb (fun reg => MatchString reg varName) (envRegexps p).
Proof. unfold isWhitelistedEnvVar. now destruct (envRegexps p). Qed.

(** [InitProcStats] empties the snapshot and leaves the patterns. *)
Lemma InitProcStats_keeps (procStats : ProcStats) :
  ProcsMap (snd (InitProcStats procStats)) = ∅ /\
  Procs (snd (InitProcStats procStats)) = Procs procStats.
Proof.
  unfold InitProcStats. cbn [Procs set_ProcsMap].
  destruct (length (Procs procStats) =? 0)%nat; [split; reflexivity |].
  destruct (compileEach (Procs procStats) []) as [regs [[pattern err] |]];
    [split; reflexivity |].
  cbv zeta.
  destruct (compileEach _ []) as [eregs [[pattern err] |]]; split; reflexivity.
Qed.

(** X13.  [InitProcStats] always empties the snapshot.  Without process
    patterns it succeeds and compiles nothing: the allow-list of the
    environment is not even looked at.  Otherwise it succeeds exactly when
    every process pattern and every allow-list pattern compiles; then
    [MatchProcess] accepts a name exactly when the matcher compiled from
    one of the process patterns does, and [isWhitelistedEnvVar] a variable
    exactly when the matcher of one of the allow-list patterns does.  When
    it fails, the error names a pattern that does not compile. *)
Theorem InitProcStats_outcomes (procStats : ProcStats) :
  let r := InitProcStats procStats in
  ProcsMap (snd r) = ∅ /\
  (Procs procStats = [] -> r = (None, set_ProcsMap procStats ∅)) /\
  (Procs procStats <> [] ->
   (fst r = None
    <-> (forall pattern, pattern ∈ Procs procStats ++ EnvWhitelist procStats ->
           exists reg, Compile pattern = inr reg)) /\
   (fst r = None ->
    (forall name,
       MatchProcess (snd r) name = true
       <-> exists pattern reg,
             pattern ∈ Procs procStats /\ Compile pattern = inr reg /\
             MatchString reg name = true) /\
    (forall varName,
       isWhitelistedEnvVar (snd r) varName = true
       <-> exists pattern reg,
             pattern ∈ EnvWhitelist procStats /\ Compile pattern = inr reg /\
             MatchString reg varName = true)) /\
   (forall e, fst r = Some e ->
      exists pattern cause,
        (e = FailedToCompile pattern cause /\ pattern ∈ Procs procStats \/
         e = FailedToCompileEnv pattern cause /\ pattern ∈ EnvWhitelist procStats) /\
        Compile pattern = inl cause)).
Proof.
  intros r. subst r. unfold InitProcStats. cbn [Procs EnvWhitelist set_ProcsMap].
  destruct (Procs procStats) as [| p0 ps] eqn:Hprocs.
  { cbn. split; [reflexivity | split; [reflexivity | congruence]]. }
  cbn [length Nat.eqb].
  pose proof (compileEach_spec (p0 :: ps) []) as Hp.
  destruct (compileEach (p0 :: ps) []) as [regs [[pattern err] |]].
  { destruct Hp as (done & rest & new & Hsplit & Hfail & _ & _).
    assert (Hin : pattern ∈ p0 :: ps).
    { rewrite Hsplit. apply elem_of_app. right. left. }
    split; [reflexivity | split; [discriminate |]]. intros _.
    split; [| split; [discriminate |]].
    - split; [discriminate |]. intros Hall.
      destruct (Hall pattern) as [reg Hreg]; [| congruence].
      apply elem_of_app. now left.
    - intros e [= <-]. exists pattern, err. split; [now left | exact Hfail]. }
  destruct Hp as (new & Hregs & Hprocs'). cbn [app] in Hregs. subst regs.
  cbv zeta.
  change (EnvWhitelist (set_procRegexps (set_ProcsMap procStats ∅) new))
    with (EnvWhitelist procStats).
  pose proof (compileEach_spec (EnvWhitelist procStats) []) as He.
  destruct (compileEach (EnvWhitelist procStats) []) as [eregs [[pattern err] |]].
  { destruct He as (done & rest & enew & Hsplit & Hfail & _ & _).
    assert (Hin : pattern ∈ EnvWhitelist procStats).
    { rewrite Hsplit. apply elem_of_app. right. left. }
    split; [reflexivity | split; [discriminate |]]. intros _.
    split; [| split; [discriminate |]].
    - split; [discriminate |]. intros Hall.
      destruct (Hall pattern) as [reg Hreg]; [| congruence].
      apply elem_of_app. now right.
    - intros e [= <-]. exists pattern, err. split; [now right | exact Hfail]. }
  destruct He as (enew & Hregs & Henv'). cbn [app] in Hregs. subst eregs.
  cbn [fst snd].
  split; [reflexivity | split; [discriminate |]]. intros _.
  split; [| split; [| discriminate]].
  - split; [| reflexivity]. intros _ pattern [Hin | Hin]%elem_of_app.
    + now apply (compiled_each (p0 :: ps) new).
    + now apply (compiled_each (EnvWhitelist procStats) enew).
  - intros _. split.
    + intros name. unfold MatchProcess. cbn [procRegexps set_envRegexps].
      now apply compiled_exists.
    + intros varName. rewrite isWhitelistedEnvVar_existsb.
      cbn [envRegexps set_envRegexps]. now apply compiled_exists.
Qed.

(** X14.  In the first cycle after a successful [InitProcStats] every
    process is new: whatever the system reports, each process that the
    cycle stores in the snapshot has the CPU percentage 0. *)
Theorem first_cycle_reports_zero_cpu `{GoRuntime} (procStats0 procStats : ProcStats)
    (ds : DataSource) (pids : list Z) :
  InitProcStats procStats0 = (None, procStats) ->
  Procs procStats0 <> [] ->
  ProcList_Get ds = inr pids ->
  forall pid p,
    ProcsMap (snd (result (GetProcStats procStats ds))) !! pid = Some p ->
    cpuTotalPct p = F64.zero.
Proof.
  intros Hinit Hprocs0 Hlist pid p.
  destruct (InitProcStats_keeps procStats0) as [Hempty Hsame].
  rewrite Hinit in Hempty, Hsame. cbn [snd] in Hempty, Hsame.
  assert (Hprocs : Procs procStats <> []) by now rewrite Hsame.
  destruct (GetProcStats_cycle procStats ds pids Hprocs Hlist) as [-> _].
  destruct (GetProcStats_loopState procStats ds pids) as (Hall & _ & Hmap & _).
  cbn [ProcsMap set_ProcsMap]. intros Hp.
  destruct (Hmap pid p Hp) as [Hpid Hin].
  rewrite Forall_forall in Hall.
  destruct (Hall p Hin) as (_ & _ & _ & _ & _ & ->).
  now rewrite Hempty, lookup_empty.
Qed.

End Init.

(** * Part IV: the files of a process *)

(** ** Strings *)

(** Whether the byte [c] occurs in [s]. *)
Fixpoint occurs (c : ascii) (s : string) : bool :=
  match s with
  | EmptyString => false
  | String x s' => Ascii.eqb x c || occurs c s'
  end.

Lemma append_String (x : ascii) (a b : string) :
  String x a +:+ b = String x (a +:+ b).
Proof. reflexivity. Qed.

Lemma append_Empty (b : string) : "" +:+ b = b.
Proof. reflexivity. Qed.

Lemma append_assoc (a b c : string) : (a +:+ b) +:+ c = a +:+ (b +:+ c).
Proof.
  induction a as [| x a IH]; [reflexivity |].
  now rewrite !append_String, IH.
Qed.

Lemma append_nil_r (a : string) : a +:+ "" = a.
Proof.
  induction a as [| x a IH]; [reflexivity |]. now rewrite append_String, IH.
Qed.

Lemma length_append (a b : string) :
  String.length (a +:+ b) = (String.length a + String.length b)%nat.
Proof.
  induction a as [| x a IH]; [reflexivity |].
  rewrite append_String. cbn [String.length]. now rewrite IH.
Qed.

Lemma occurs_append (c : ascii) (a b : string) :
  occurs c (a +:+ b) = occurs c a || occurs c b.
Proof.
  induction a as [| x a IH]; [reflexivity |].
  rewrite append_String. cbn [occurs]. now rewrite IH, orb_assoc.
Qed.

Lemma substring_whole (s : string) (n : nat) :
  (String.length s <= n)%nat -> String.substring 0 n s = s.
Proof.
  revert n. induction s as [| x s IH]; intros n Hn.
  - now destruct n.
  - destruct n as [| n]; simpl in *; [lia |]. rewrite IH by lia. reflexivity.
Qed.

Lemma substring_prefix (a b : string) :
  String.substring 0 (String.length a) (a +:+ b) = a.
Proof.
  induction a as [| x a IH].
  - rewrite append_Empty. now destruct b.
  - rewrite append_String. cbn [String.length String.substring]. now rewrite IH.
Qed.

Lemma get_append_end (a b : string) (c : ascii) :
  String.get (String.length a) (a +:+ String c b) = Some c.
Proof.
  induction a as [| x a IH]; [reflexivity |].
  rewrite append_String. exact IH.
Qed.

Lemma prefix_byte (c x : ascii) (s : string) :
  String.prefix (String c "") (String x s) = Ascii.eqb x c.
Proof.
  simpl. destruct (ascii_dec c x) as [-> | Hne].
  - rewrite Ascii.eqb_refl. now destruct s.
  - symmetry. apply Ascii.eqb_neq. congruence.
Qed.

(** Cutting after the first occurrence of a byte. *)
Lemma cut_after_first (c : ascii) (a b : string) :
  occurs c a = false ->
  GoStrings.cut_after (String c "") (a +:+ String c b)
  = Some (a +:+ String c "", b).
Proof.
  induction a as [| x a IH]; intros Ha.
  - rewrite !append_Empty. cbn [GoStrings.cut_after].
    rewrite prefix_byte, Ascii.eqb_refl.
    cbn [String.length String.substring]. rewrite substring_whole by lia.
    reflexivity.
  - cbn [occurs] in Ha. apply orb_false_iff in Ha as [Hx Ha].
    rewrite !append_String. cbn [GoStrings.cut_after].
    rewrite prefix_byte, Hx, (IH Ha). reflexivity.
Qed.

Lemma cut_after_absent (c : ascii) (s : string) :
  occurs c s = false -> GoStrings.cut_after (String c "") s = None.
Proof.
  induction s as [| x s IH]; intros Hs.
  - reflexivity.
  - cbn [occurs] in Hs. apply orb_false_iff in Hs as [Hx Hs].
    cbn [GoStrings.cut_after]. rewrite prefix_byte, Hx, (IH Hs). reflexivity.
Qed.

(** The pieces of [strings.Fields] are not empty. *)
Lemma Fields_from_nonempty (skip : nat) (cur : option string) (s w : string) :
  (forall v, cur = Some v -> v <> EmptyString) ->
  w ∈ GoStrings.Fields_from skip cur s -> w <> EmptyString.
Proof.
  revert skip cur.
  induction s as [| c s IH]; intros skip cur Hcur; cbn [GoStrings.Fields_from].
  - destruct cur as [v |]; [| now intros ?%elem_of_nil].
    intros ->%list_elem_of_singleton. now apply Hcur.
  - destruct skip as [| skip]; [| now apply IH].
    destruct (GoStrings.spaceWidth (String c s)) as [| rest].
    + apply IH. intros v [= <-]. destruct cur as [v |]; [| discriminate].
      destruct v; discriminate.
    + destruct cur as [v |].
      * intros [-> | Hw]%elem_of_cons; [now apply Hcur |].
        apply (IH rest None); [discriminate | exact Hw].
      * apply IH. discriminate.
Qed.

Lemma Fields_first_byte (s w : string) (i : nat) :
  GoStrings.Fields s !! i = Some w -> exists c, String.get 0 w = Some c.
Proof.
  intros Hw. assert (Hne : w <> EmptyString).
  { apply (Fields_from_nonempty 0 None s); [discriminate |].
    eapply list_elem_of_lookup_2, Hw. }
  destruct w as [| c w]; [contradiction | now exists c].
Qed.

(** ** The stat record *)

Lemma index_within {A} (l : list A) (i : nat) (d : A) :
  (i < length l)%nat -> index l i = Returns (default d (l !! i)).
Proof.
  intros Hi. unfold index.
  destruct (lookup_lt_is_Some_2 l i Hi) as [a ->]. reflexivity.
Qed.

Lemma index_beyond {A} (l : list A) (i : nat) :
  (length l <= i)%nat -> index l i = Panics.
Proof. intros Hi. unfold index. now rewrite lookup_ge_None_2. Qed.

(** A name between parentheses passes the test of lines 191-195, and the
    parentheses are stripped. *)
Lemma name_in_parens (n : string) :
  let name := String "(" (n +:+ ")") in
  GoStrings.byte_at name 0 = Returns "("%char /\
  GoStrings.byte_at name (String.length name - 1) = Returns ")"%char /\
  String.substring 1 (String.length name - 2) name = n.
Proof.
  intros name. subst name. unfold GoStrings.byte_at.
  cbn [String.length String.get]. rewrite length_append. cbn [String.length].
  replace (S (String.length n + 1) - 1)%nat with (S (String.length n)) by lia.
  replace (S (String.length n + 1) - 2)%nat with (String.length n) by lia.
  cbn [String.get String.substring].
  rewrite get_append_end, substring_prefix. auto.
Qed.

(** A header [pid (name)] is cut where the code expects it as long as
    neither the PID text nor the name holds a ")" and the PID text holds
    no space. *)
Lemma stat_header (pidText name stats : string) :
  occurs " " pidText = false -> occurs ")" pidText = false ->
  occurs ")" name = false ->
  GoStrings.SplitAfterN (pidText +:+ " (" +:+ name +:+ ")" +:+ stats) ")" 2
  = [pidText +:+ " (" +:+ name +:+ ")"; stats] /\
  GoStrings.SplitAfterN (pidText +:+ " (" +:+ name +:+ ")") " " 2
  = [pidText +:+ " "; String "(" (name +:+ ")")].
Proof.
  intros Hspace Hpid Hname. split.
  - replace (pidText +:+ " (" +:+ name +:+ ")" +:+ stats)
      with ((pidText +:+ " (" +:+ name) +:+ String ")" stats)
      by (now rewrite !append_assoc).
    cbn [GoStrings.SplitAfterN]. rewrite cut_after_first.
    + now rewrite !append_assoc.
    + rewrite !occurs_append, Hpid, Hname. reflexivity.
  - change (pidText +:+ " (" +:+ name +:+ ")")
      with (pidText +:+ String " " (String "(" (name +:+ ")"))).
    cbn [GoStrings.SplitAfterN]. now rewrite cut_after_first.
Qed.

Lemma getUIDs_four (status : gmap string string) (uids : list string) :
  getUIDs status = inr uids ->
  length uids = 4%nat /\
  exists uidLine, status !! "Uid"%string = Some uidLine /\
                  uids = GoStrings.Fields uidLine.
Proof.
  unfold getUIDs. destruct (status !! "Uid"%string) as [uidLine |]; [| discriminate].
  destruct (Nat.eqb_spec (length (GoStrings.Fields uidLine)) 4); [| discriminate].
  intros [= <-]. eauto.
Qed.

(** X15.  A stat record [pid (name) fields...] is parsed as written
    whenever the name holds no ")": the name may hold spaces and "(".
    With at least 37 fields after the name and a status that gives the
    four UIDs, [ProcState.Get] returns the name without its parentheses,
    the first byte of field 0 as the state, the integers of fields 1, 2,
    4, 15, 16 and 36 as the parent, group, terminal, priority, nice value
    and processor, and the user name of the first UID, or that UID when
    the user is not known. *)
Theorem ProcState_Get_well_formed (fs : ProcFS) (pid : Z)
    (pidText name stats : string) (status : gmap string string)
    (uids : list string) :
  readProcFile fs pid "stat" = inr (pidText +:+ " (" +:+ name +:+ ")" +:+ stats) ->
  occurs " " pidText = false -> occurs ")" pidText = false ->
  occurs ")" name = false ->
  (37 <= length (GoStrings.Fields stats))%nat ->
  getProcStatus fs pid = inr status ->
  getUIDs status = inr uids ->
  let field i := default EmptyString (GoStrings.Fields stats !! i) in
  exists (state : ascii) (uid : string),
    String.get 0 (field 0%nat) = Some state /\
    uids !! 0%nat = Some uid /\
    Sigar.ProcState_Get fs pid
    = Returns (inr (ProcState.mk name
                      (match LookupId fs uid with
                       | Some user => user
                       | None => uid
                       end)
                      state
                      (GoStrings.Atoi (field 1%nat)) (GoStrings.Atoi (field 2%nat))
                      (GoStrings.Atoi (field 4%nat)) (GoStrings.Atoi (field 15%nat))
                      (GoStrings.Atoi (field 16%nat))
                      (GoStrings.Atoi (field 36%nat)))).
Proof.
  intros Hread Hspace Hpid Hname Hfields Hstatus Huids field.
  destruct (stat_header pidText name stats Hspace Hpid Hname) as [Hcut Hhead].
  destruct (name_in_parens name) as (Hfirst & Hlast & Hstrip).
  destruct (getUIDs_four status uids Huids) as (Hfour & _).
  destruct uids as [| uid uids]; [discriminate |].
  assert (Hstate : exists state, String.get 0 (field 0%nat) = Some state).
  { destruct (lookup_lt_is_Some_2 (GoStrings.Fields stats) 0) as [w Hw]; [lia |].
    subst field. cbn beta. rewrite Hw. now apply (Fields_first_byte stats w 0). }
  destruct Hstate as [state Hstate].
  exists state, uid. split; [exact Hstate | split; [reflexivity |]].
  unfold Sigar.ProcState_Get. rewrite Hread, Hcut.
  cbn [index lookup list_lookup outcome_bind]. rewrite Hhead.
  cbn [index lookup list_lookup outcome_bind]. rewrite Hfirst.
  cbn [outcome_bind]. rewrite Hlast. cbn [outcome_bind].
  rewrite !Ascii.eqb_refl. cbn [andb]. rewrite Hstrip.
  rewrite !(index_within (GoStrings.Fields stats) _ EmptyString) by lia.
  cbn [outcome_bind]. fold (field 0%nat). unfold GoStrings.byte_at at 1.
  rewrite Hstate. cbn [outcome_bind]. rewrite Hstatus, Huids.
  reflexivity.
Qed.

(** X16.  [ProcState.Get] indexes what it has split without checking the
    lengths.  It panics on a stat record that holds no ")" (the record has
    no second part), and on a record whose header is well formed but that
    has fewer than 37 fields after the name, before the status of the
    process is looked at. *)
Theorem ProcState_Get_panics (fs : ProcFS) (pid : Z) (contents : string) :
  readProcFile fs pid "stat" = inr contents ->
  occurs ")" contents = false \/
  (exists pidText name stats,
     contents = pidText +:+ " (" +:+ name +:+ ")" +:+ stats /\
     occurs " " pidText = false /\ occurs ")" pidText = false /\
     occurs ")" name = false /\
     (length (GoStrings.Fields stats) < 37)%nat) ->
  Sigar.ProcState_Get fs pid = Panics.
Proof.
  intros Hread [Hnone | (pidText & name & stats & -> & Hspace & Hpid & Hname & Hshort)];
    unfold Sigar.ProcState_Get; rewrite Hread.
  - cbn [GoStrings.SplitAfterN]. now rewrite cut_after_absent.
  - destruct (stat_header pidText name stats Hspace Hpid Hname) as [-> Hhead].
    destruct (name_in_parens name) as (Hfirst & Hlast & Hstrip).
    cbn [index lookup list_lookup outcome_bind]. rewrite Hhead.
    cbn [index lookup list_lookup outcome_bind]. rewrite Hfirst.
    cbn [outcome_bind]. rewrite Hlast. cbn [outcome_bind].
    rewrite !Ascii.eqb_refl. cbn [andb].
    rewrite (index_beyond _ 36) by lia.
    repeat match goal with
           | |- outcome_bind ?o _ = Panics => destruct o; cbn [outcome_bind]
           end; reflexivity.
Qed.

(** ** Package strconv: numbers as the files of /proc spell them *)

Module Strconv.

(** The two errors of a [*strconv.NumError]. *)
Inductive NumError : Type := ErrSyntax | ErrRange.

Definition maxUint64 : Z := 2 ^ 64 - 1.

(** The loop of [strconv.ParseUint(s, 10, 64)] over the bytes of [s], [n]
    being the value read so far: a byte that is not a decimal digit is a
    syntax error with the value 0; a value that leaves the [uint64] range
    is a range error with the largest value, also when bytes that are not
    digits follow. *)
Fixpoint parseUintLoop (n : Z) (s : string) : Z * option NumError :=
  match s with
  | EmptyString => (n, None)
  | String d s' =>
      match GoStrings.digit_of d with
      | None => (0, Some ErrSyntax)
      | Some v =>
          if maxUint64 / 10 + 1 <=? n then (maxUint64, Some ErrRange)
          else
            let n := n * 10 in
            let n1 := GoInt.wrap64 (n + v) in
            if (n1 <? n) || (maxUint64 <? n1) then (maxUint64, Some ErrRange)
            else parseUintLoop n1 s'
      end
  end.

(** [strconv.ParseUint(s, 10, 64)]: no sign is accepted, and the empty
    string is a syntax error. *)
Definition ParseUint (s : string) : Z * option NumError :=
  match s with
  | EmptyString => (0, Some ErrSyntax)
  | _ => parseUintLoop 0 s
  end.

(** [strconv.ParseInt(s, 10, 0)] on a 64-bit platform. *)
Definition ParseInt (s : string) : Z * option NumError :=
  match s with
  | EmptyString => (0, Some ErrSyntax)
  | String c rest =>
      let '(neg, body) :=
        if Ascii.eqb c "+" then (false, rest)
        else if Ascii.eqb c "-" then (true, rest)
        else (false, s) in
      match ParseUint body with
      | (_, Some ErrSyntax) => (0, Some ErrSyntax)
      | (un, _) =>
          let cutoff := 2 ^ 63 in
          if negb neg && (cutoff <=? un) then (cutoff - 1, Some ErrRange)
          else if neg && (cutoff <? un) then (- cutoff, Some ErrRange)
          else (if neg then - un else un, None)
      end
  end.

(** [strconv.Atoi(s)], with its error. *)
Definition Atoi (s : string) : Z * option NumError := ParseInt s.

(** The decimal digit [d], as a byte. *)
Definition digit_byte (d : Z) : ascii := ascii_of_nat (48 + Z.to_nat d).

(** The digits of [u], most significant first, put before [acc]: the loop
    of [strconv.FormatUint(u, 10)], which fills its buffer from the end.
    Twenty digits are enough for a [uint64]. *)
Fixpoint formatBits (fuel : nat) (u : Z) (acc : string) : string :=
  match fuel with
  | O => acc
  | S fuel' =>
      let acc' := String (digit_byte (u mod 10)) acc in
      if u <? 10 then acc' else formatBits fuel' (u / 10) acc'
  end.

(** [strconv.Itoa(i)] for an [int] of 64 bits. *)
Definition Itoa (i : Z) : string :=
  if i <? 0 then String "-" (formatBits 20 (- i) EmptyString)
  else formatBits 20 i EmptyString.

End Strconv.

(** ** gosigar: the listing, the paths, the arguments, the times *)

Module Linux.

(** [strtoull], lines 448-450. *)
Definition strtoull (val : string) : Z * option Strconv.NumError :=
  Strconv.ParseUint val.

(** [procFileName], lines 452-454; [Procd] is the package variable. *)
Definition procFileName (Procd : string) (pid : Z) (name : string) : string :=
  Procd +:+ "/" +:+ Strconv.Itoa pid +:+ "/" +:+ name.

(** The loop of [ProcList.Get], lines 165-173, over the names of the
    directory; [pids] is the slice [list] being appended to.  [name[0]] panics on
    an empty name. *)
Fixpoint listPids (names : list string) (pids : list Z) : outcome (list Z) :=
  match names with
  | [] => Returns pids
  | name :: rest =>
      c <- GoStrings.byte_at name 0 ;;;
      if (nat_of_ascii c <? 48)%nat || (57 <? nat_of_ascii c)%nat
      then listPids rest pids
      else
        match Strconv.Atoi name with
        | (pid, None) => listPids rest (pids ++ [pid])
        | (_, Some _) => listPids rest pids
        end
  end.

(** [ProcList.Get], lines 148-178, given what opening [Procd] and
    [Readdirnames] give: an error, or the names of the directory. *)
Definition ProcList_Get (readdirnames : Sigar.error + list string)
    : outcome (Sigar.error + list Z) :=
  match readdirnames with
  | inl err => Returns (inl err)
  | inr names => pids <- listPids names [] ;;; Returns (inr pids)
  end.

(** The loop of [ProcArgs.Get], lines 350-356, over the bytes that remain
    in the buffer; [arg] is what [ReadBytes(0)] has read of the current
    argument.  At the end of the data [ReadBytes] reports [io.EOF] with
    what it had read, and the loop ends without appending it. *)
Fixpoint readArgs (chop : string -> string) (arg rest : string) : list string :=
  match rest with
  | EmptyString => []
  | String c rest' =>
      if Ascii.eqb c Ascii.zero
      then chop (arg +:+ String c "") :: readArgs chop EmptyString rest'
      else readArgs chop (arg +:+ String c "") rest'
  end.

(** [ProcArgs.Get], lines 340-361, on a zero receiver: the list it leaves
    in the receiver, and the error.  [chop] is declared in another file of
    the package, which is not among the sources: it is a parameter. *)
Definition ProcArgs_Get (chop : string -> string) (fs : Sigar.ProcFS) (pid : Z)
    : list string * option Sigar.error :=
  match Sigar.readProcFile fs pid "cmdline" with
  | inl err => ([], Some err)
  | inr contents => (readArgs chop EmptyString contents, None)
  end.

(** The package variable [system]: the clock ticks per second and the
    boot time. *)
Record system : Type := { ticks : Z; btime : Z }.

(** Division of two [uint64]: a zero divisor panics. *)
Definition div_u64 (a b : Z) : outcome Z :=
  if b =? 0 then Panics else Returns (a / b).

(** [ProcTime.Get], lines 261-283: the receiver as the call leaves it,
    and the error.  The fields are those of the whole stat record, split
    at white space. *)
Definition ProcTime_Get (sys : system) (fs : Sigar.ProcFS)
    (self : Sigar.ProcTime.t) (pid : Z)
    : outcome (Sigar.ProcTime.t * option Sigar.error) :=
  match Sigar.readProcFile fs pid "stat" with
  | inl err => Returns (self, Some err)
  | inr contents =>
      let fields := GoStrings.Fields contents in
      f13 <- index fields 13 ;;;
      let user := fst (strtoull f13) in
      f14 <- index fields 14 ;;;
      let sys_ := fst (strtoull f14) in
      perTick <- div_u64 1000 (ticks sys) ;;;
      let User := GoInt.mul_u64 user perTick in
      perTick <- div_u64 1000 (ticks sys) ;;;
      let Sys := GoInt.mul_u64 sys_ perTick in
      let Total := GoInt.wrap64 (User + Sys) in
      f21 <- index fields 21 ;;;
      let StartTime := fst (strtoull f21) in
      StartTime <- div_u64 StartTime (ticks sys) ;;;
      let StartTime := GoInt.wrap64 (StartTime + btime sys) in
      let StartTime := GoInt.mul_u64 StartTime 1000 in
      Returns (Sigar.ProcTime.mk StartTime User Sys Total, None)
  end.

(** [x << 12] on a [uint64]. *)
Definition shl12 (x : Z) : Z := GoInt.wrap64 (Z.shiftl x 12).

(** [ProcMem.Get], lines 230-259: the receiver as the call leaves it,
    and the error. *)
Definition ProcMem_Get (fs : Sigar.ProcFS) (self : Sigar.ProcMem.t) (pid : Z)
    : outcome (Sigar.ProcMem.t * option Sigar.error) :=
  match Sigar.readProcFile fs pid "statm" with
  | inl err => Returns (self, Some err)
  | inr contents =>
      let fields := GoStrings.Fields contents in
      f0 <- index fields 0 ;;;
      let Size := shl12 (fst (strtoull f0)) in
      f1 <- index fields 1 ;;;
      let Resident := shl12 (fst (strtoull f1)) in
      f2 <- index fields 2 ;;;
      let Share := shl12 (fst (strtoull f2)) in
      match Sigar.readProcFile fs pid "stat" with
      | inl err =>
          Returns (Sigar.ProcMem.mk Size Resident Share
                     (Sigar.ProcMem.MinorFaults self)
                     (Sigar.ProcMem.MajorFaults self)
                     (Sigar.ProcMem.PageFaults self), Some err)
      | inr contents =>
          let fields := GoStrings.Fields contents in
          f10 <- index fields 10 ;;;
          let MinorFaults := fst (strtoull f10) in
          f12 <- index fields 12 ;;;
          let MajorFaults := fst (strtoull f12) in
          Returns (Sigar.ProcMem.mk Size Resident Share MinorFaults MajorFaults
                     (GoInt.wrap64 (MinorFaults + MajorFaults)), None)
      end
  end.

End Linux.

(** ** Decimal numbers *)

Lemma digit_of_range (c : ascii) (d : Z) :
  GoStrings.digit_of c = Some d -> 0 <= d <= 9.
Proof.
  unfold GoStrings.digit_of.
  destruct (Nat.leb_spec 48 (nat_of_ascii c)); [| discriminate].
  destruct (Nat.leb_spec (nat_of_ascii c) 57); [| discriminate].
  cbn [andb]. intros [= <-]. lia.
Qed.

Lemma digit_of_digit_byte (d : Z) :
  0 <= d <= 9 -> GoStrings.digit_of (Strconv.digit_byte d) = Some d.
Proof.
  intros Hd. unfold GoStrings.digit_of, Strconv.digit_byte.
  rewrite nat_ascii_embedding by lia.
  destruct (Nat.leb_spec 48 (48 + Z.to_nat d)); [| lia].
  destruct (Nat.leb_spec (48 + Z.to_nat d) 57); [| lia].
  cbn [andb]. f_equal. lia.
Qed.

Lemma digits_value_le (s : string) (a v : Z) :
  0 <= a -> GoStrings.digits_value a s = Some v -> a <= v.
Proof.
  revert a. induction s as [| c s IH]; intros a Ha; cbn [GoStrings.digits_value].
  - intros [= <-]. lia.
  - destruct (GoStrings.digit_of c) as [d |] eqn:Hd; [| discriminate].
    apply digit_of_range in Hd. intros Hv. apply IH in Hv; lia.
Qed.

(** On a string of digits whose value fits a [uint64], the loop of
    [ParseUint] reads that value; and it reads nothing else without an
    error. *)
Lemma parseUintLoop_digits (s : string) (n v : Z) :
  0 <= n -> GoStrings.digits_value n s = Some v -> v < 2 ^ 64 ->
  Strconv.parseUintLoop n s = (v, None).
Proof.
  revert n. induction s as [| c s IH]; intros n Hn;
    cbn [GoStrings.digits_value Strconv.parseUintLoop].
  - now intros [= <-].
  - destruct (GoStrings.digit_of c) as [d |] eqn:Hd; [| discriminate].
    pose proof (digit_of_range c d Hd) as Hrange. intros Hv Hfits.
    assert (Hle : 10 * n + d <= v) by (apply (digits_value_le s); [lia | exact Hv]).
    unfold Strconv.maxUint64.
    destruct (Z.leb_spec ((2 ^ 64 - 1) / 10 + 1) n) as [Hcut | Hcut].
    { change ((2 ^ 64 - 1) / 10 + 1) with 1844674407370955162 in Hcut. lia. }
    cbv zeta. unfold GoInt.wrap64, GoInt.two64.
    rewrite Z.mod_small by lia.
    destruct (Z.ltb_spec (n * 10 + d) (n * 10)); [lia |].
    destruct (Z.ltb_spec (2 ^ 64 - 1) (n * 10 + d)); [lia |].
    cbn [orb]. apply IH; [lia | | exact Hfits].
    now replace (n * 10 + d) with (10 * n + d) by lia.
Qed.

Lemma parseUintLoop_ok (s : string) (n v : Z) :
  0 <= n < 2 ^ 64 -> Strconv.parseUintLoop n s = (v, None) ->
  GoStrings.digits_value n s = Some v /\ v < 2 ^ 64.
Proof.
  revert n. induction s as [| c s IH]; intros n Hn;
    cbn [GoStrings.digits_value Strconv.parseUintLoop].
  - intros [= <-]. split; [reflexivity | lia].
  - destruct (GoStrings.digit_of c) as [d |] eqn:Hd; [| discriminate].
    pose proof (digit_of_range c d Hd) as Hrange.
    unfold Strconv.maxUint64.
    destruct (Z.leb_spec ((2 ^ 64 - 1) / 10 + 1) n) as [Hcut | Hcut];
      [discriminate |].
    change ((2 ^ 64 - 1) / 10 + 1) with 1844674407370955162 in Hcut.
    cbv zeta. unfold GoInt.wrap64, GoInt.two64.
    destruct (Z.ltb_spec ((n * 10 + d) mod 2 ^ 64) (n * 10)) as [Hwrap | Hwrap];
      [discriminate |].
    destruct (Z.ltb_spec (2 ^ 64 - 1) ((n * 10 + d) mod 2 ^ 64)); [discriminate |].
    cbn [orb].
    assert (Hsmall : n * 10 + d < 2 ^ 64).
    { destruct (Z.lt_ge_cases (n * 10 + d) (2 ^ 64)) as [Hlt | Hge]; [exact Hlt |].
      exfalso. revert Hwrap.
      replace (n * 10 + d) with ((n * 10 + d - 2 ^ 64) + 1 * 2 ^ 64) by lia.
      rewrite Z.mod_add by lia. rewrite Z.mod_small by lia. lia. }
    rewrite Z.mod_small by lia. intros Hv.
    apply IH in Hv; [| lia].
    now replace (10 * n + d) with (n * 10 + d) by lia.
Qed.

(** What [formatBits] writes before [acc] reads back as [u]. *)
Lemma formatBits_digits (fuel : nat) (u : Z) :
  0 <= u < 10 ^ Z.of_nat fuel ->
  exists k, 0 <= k /\
    forall a acc,
      GoStrings.digits_value a (Strconv.formatBits fuel u acc)
      = GoStrings.digits_value (a * 10 ^ k + u) acc.
Proof.
  revert u. induction fuel as [| fuel IH]; intros u Hu.
  - cbn in Hu. assert (u = 0) as -> by lia. exists 0. split; [lia |].
    intros a acc. cbn [Strconv.formatBits]. f_equal. lia.
  - cbn [Strconv.formatBits].
    assert (Hdigit : 0 <= u mod 10 <= 9) by (pose proof (Z.mod_pos_bound u 10); lia).
    destruct (Z.ltb_spec u 10) as [Hsmall | Hbig].
    + exists 1. split; [lia |]. intros a acc. cbn [GoStrings.digits_value].
      rewrite digit_of_digit_byte by exact Hdigit.
      rewrite Z.mod_small by lia. f_equal. lia.
    + destruct (IH (u / 10)) as (k & Hk & Hread).
      { split; [apply Z.div_pos; lia |].
        apply Z.div_lt_upper_bound; [lia |].
        rewrite Nat2Z.inj_succ, Z.pow_succ_r in Hu by lia. lia. }
      exists (k + 1). split; [lia |]. intros a acc. rewrite Hread.
      cbn [GoStrings.digits_value]. rewrite digit_of_digit_byte by exact Hdigit.
      f_equal. rewrite Z.pow_add_r by lia.
      pose proof (Z.div_mod u 10). lia.
Qed.

(** What [formatBits] writes starts with a digit (so not with a sign). *)
Lemma formatBits_head (fuel : nat) (u : Z) (acc : string) :
  0 <= u ->
  exists c rest d,
    Strconv.formatBits (S fuel) u acc = String c rest /\
    GoStrings.digit_of c = Some d.
Proof.
  revert u acc. induction fuel as [| fuel IH]; intros u acc Hu.
  - cbn [Strconv.formatBits].
    assert (Hdigit : 0 <= u mod 10 <= 9) by (pose proof (Z.mod_pos_bound u 10); lia).
    destruct (u <? 10); do 3 eexists;
      (split; [reflexivity | now apply digit_of_digit_byte]).
  - remember (S fuel) as fuel'. cbn [Strconv.formatBits]. subst fuel'.
    assert (Hdigit : 0 <= u mod 10 <= 9) by (pose proof (Z.mod_pos_bound u 10); lia).
    destruct (u <? 10);
      [do 3 eexists; split; [reflexivity | now apply digit_of_digit_byte] |].
    apply IH. apply Z.div_pos; lia.
Qed.

Lemma digit_not_sign (c : ascii) (d : Z) :
  GoStrings.digit_of c = Some d ->
  Ascii.eqb c "+" = false /\ Ascii.eqb c "-" = false.
Proof.
  intros Hd. split; apply Ascii.eqb_neq; intros ->; discriminate.
Qed.

(** [FormatUint] and [ParseUint] are inverse on [uint64]. *)
Lemma ParseUint_formatBits (u : Z) :
  0 <= u < 2 ^ 64 ->
  Strconv.ParseUint (Strconv.formatBits 20 u EmptyString) = (u, None).
Proof.
  intros Hu.
  destruct (formatBits_head 19 u EmptyString) as (c & rest & d & Heq & Hd); [lia |].
  unfold Strconv.ParseUint. rewrite Heq. rewrite <- Heq.
  destruct (formatBits_digits 20 u) as (k & Hk & Hread); [cbn; lia |].
  apply parseUintLoop_digits; [lia | | lia].
  now rewrite Hread.
Qed.

(** The round trip of a PID through its directory name. *)
Lemma Atoi_Itoa (i : Z) :
  GoInt.is_i64 i -> Strconv.Atoi (Strconv.Itoa i) = (i, None).
Proof.
  unfold GoInt.is_i64, GoInt.minInt64, GoInt.maxInt64. intros Hi.
  unfold Strconv.Atoi, Strconv.Itoa.
  destruct (Z.ltb_spec i 0) as [Hneg | Hpos].
  - cbn [Strconv.ParseInt]. cbn [Ascii.eqb Bool.eqb].
    rewrite ParseUint_formatBits by lia.
    cbn [negb andb].
    destruct (Z.ltb_spec (2 ^ 63) (- i)); [lia |]. f_equal. lia.
  - destruct (formatBits_head 19 i EmptyString) as (c & rest & d & Heq & Hd);
      [lia |].
    rewrite Heq. cbn [Strconv.ParseInt].
    destruct (digit_not_sign c d Hd) as [-> ->]. rewrite <- Heq.
    rewrite ParseUint_formatBits by lia. cbn [negb andb].
    destruct (Z.leb_spec (2 ^ 63) i); [lia | reflexivity].
Qed.

(** The loop of [GoStrings.Atoi] ends with the value of the loop of
    [ParseUint], which is 0 on a syntax error. *)
Lemma read_digits_parseUintLoop (s : string) (n : Z) :
  0 <= n < 2 ^ 64 ->
  GoStrings.read_digits n s = fst (Strconv.parseUintLoop n s) /\
  0 <= GoStrings.read_digits n s < 2 ^ 64 /\
  (snd (Strconv.parseUintLoop n s) = Some Strconv.ErrSyntax ->
   GoStrings.read_digits n s = 0).
Proof.
  revert n. induction s as [| c s IH]; intros n Hn;
    cbn [GoStrings.read_digits Strconv.parseUintLoop]; [now repeat split |].
  destruct (GoStrings.digit_of c) as [d |] eqn:Hd;
    [| split; [reflexivity | split; [lia | reflexivity]]].
  apply digit_of_range in Hd.
  unfold Strconv.maxUint64, GoInt.two64.
  change ((2 ^ 64 - 1) / 10 + 1) with 1844674407370955162.
  destruct (Z.leb_spec 1844674407370955162 n).
  { destruct (Z.leb_spec (2 ^ 64) (10 * n + d)); [| lia].
    split; [reflexivity | split; [lia | discriminate]]. }
  cbv zeta. unfold GoInt.wrap64, GoInt.two64.
  destruct (Z.leb_spec (2 ^ 64) (10 * n + d)) as [Hover | Hfits].
  - replace (n * 10 + d) with ((n * 10 + d - 2 ^ 64) + 1 * 2 ^ 64) by lia.
    rewrite Z.mod_add, Z.mod_small by lia.
    destruct (Z.ltb_spec (n * 10 + d - 2 ^ 64) (n * 10)); [| lia].
    split; [reflexivity | split; [lia | discriminate]].
  - rewrite Z.mod_small by lia.
    destruct (Z.ltb_spec (n * 10 + d) (n * 10)); [lia |].
    destruct (Z.ltb_spec (2 ^ 64 - 1) (n * 10 + d)); [lia |].
    cbn [orb]. replace (n * 10 + d) with (10 * n + d) by lia.
    apply IH. lia.
Qed.

(** [GoStrings.Atoi] is the value of [strconv.Atoi]. *)
Lemma Atoi_value (s : string) : GoStrings.Atoi s = fst (Strconv.Atoi s).
Proof.
  unfold GoStrings.Atoi, Strconv.Atoi, Strconv.ParseInt.
  destruct s as [| c rest]; [reflexivity |].
  assert (Hbody : forall (neg : bool) (body : string),
            match body with
            | EmptyString => 0
            | String _ _ =>
                GoInt.sat64 (if neg then - GoStrings.read_digits 0 body
                             else GoStrings.read_digits 0 body)
            end
            = fst match Strconv.ParseUint body with
                  | (_, Some Strconv.ErrSyntax) => (0, Some Strconv.ErrSyntax)
                  | (un, _) =>
                      if negb neg && (2 ^ 63 <=? un)
                      then (2 ^ 63 - 1, Some Strconv.ErrRange)
                      else if neg && (2 ^ 63 <? un)
                           then (- 2 ^ 63, Some Strconv.ErrRange)
                           else (if neg then - un else un, None)
                  end).
  { intros neg [| d body]; [reflexivity |]. unfold Strconv.ParseUint.
    destruct (read_digits_parseUintLoop (String d body) 0)
      as (Hun & Hrange & Hsyntax); [lia |].
    destruct (Strconv.parseUintLoop 0 (String d body)) as [un err].
    cbn [fst snd] in Hun, Hsyntax. rewrite Hun in *. clear Hun.
    assert (Hsat : GoInt.sat64 (if neg then - un else un)
                   = fst (if negb neg && (2 ^ 63 <=? un)
                          then (2 ^ 63 - 1, Some Strconv.ErrRange)
                          else if neg && (2 ^ 63 <? un)
                               then (- 2 ^ 63, Some Strconv.ErrRange)
                               else (if neg then - un else un, None))).
    { unfold GoInt.sat64, GoInt.minInt64, GoInt.maxInt64.
      destruct neg; cbn [negb andb].
      - destruct (Z.ltb_spec (2 ^ 63) un); cbn [fst];
          destruct (Z.ltb_spec (- un) (- 2 ^ 63)); try lia;
          destruct (Z.ltb_spec (2 ^ 63 - 1) (- un)); lia.
      - destruct (Z.leb_spec (2 ^ 63) un); cbn [fst];
          destruct (Z.ltb_spec un (- 2 ^ 63)); try lia;
          destruct (Z.ltb_spec (2 ^ 63 - 1) un); lia. }
    destruct err as [[|] |]; [| exact Hsat | exact Hsat].
    rewrite Hsyntax by reflexivity. cbn [fst]. now destruct neg. }
  destruct (Ascii.eqb_spec c "+") as [-> | Hplus].
  - exact (Hbody false rest).
  - destruct (Ascii.eqb_spec c "-") as [-> | Hminus].
    + exact (Hbody true rest).
    + exact (Hbody false (String c rest)).
Qed.

(** ** The listing of /proc *)

(** Whether a name starts with a decimal digit. *)
Definition numeric (name : string) : bool :=
  match name with
  | EmptyString => false
  | String c _ => negb ((nat_of_ascii c <? 48)%nat || (57 <? nat_of_ascii c)%nat)
  end.

Lemma digit_of_numeric (c : ascii) (rest : string) (d : Z) :
  GoStrings.digit_of c = Some d -> numeric (String c rest) = true.
Proof.
  unfold GoStrings.digit_of, numeric.
  destruct (Nat.leb_spec 48 (nat_of_ascii c)); [| discriminate].
  destruct (Nat.leb_spec (nat_of_ascii c) 57); [| discriminate]. intros _.
  destruct (Nat.ltb_spec (nat_of_ascii c) 48); [lia |].
  destruct (Nat.ltb_spec 57 (nat_of_ascii c)); [lia | reflexivity].
Qed.

Lemma Itoa_numeric (pid : Z) : 0 <= pid -> numeric (Strconv.Itoa pid) = true.
Proof.
  intros Hpid. unfold Strconv.Itoa. destruct (Z.ltb_spec pid 0); [lia |].
  destruct (formatBits_head 19 pid EmptyString) as (c & rest & d & -> & Hd);
    [lia |].
  now apply (digit_of_numeric c rest d).
Qed.

(** A well-formed entry of /proc: the directory of a PID, or a name that
    does not start with a digit. *)
Definition procEntry (name : string) : Prop :=
  (exists pid, 0 <= pid <= GoInt.maxInt64 /\ name = Strconv.Itoa pid) \/
  (name <> EmptyString /\ numeric name = false).

Lemma listPids_entries (names : list string) (acc : list Z) :
  Forall procEntry names ->
  exists pids,
    Linux.listPids names acc = Returns (acc ++ pids) /\
    Strconv.Itoa <$> pids = filter (fun name => numeric name = true) names /\
    Forall (fun pid => 0 <= pid <= GoInt.maxInt64) pids.
Proof.
  intros Hnames. revert acc.
  induction Hnames as [| name names Hname _ IH]; intros acc.
  - exists []. rewrite app_nil_r. repeat split. constructor.
  - cbn [Linux.listPids].
    destruct Hname as [(pid & Hpid & ->) | (Hne & Hskip)].
    + pose proof (Itoa_numeric pid (proj1 Hpid)) as Hnum.
      rewrite filter_cons_True by exact Hnum.
      destruct (Strconv.Itoa pid) as [| c rest] eqn:Hname; [discriminate |].
      unfold GoStrings.byte_at. cbn [String.get outcome_bind].
      cbn [numeric] in Hnum. apply negb_true_iff in Hnum. rewrite Hnum.
      rewrite <- Hname, Atoi_Itoa
        by (unfold GoInt.is_i64, GoInt.minInt64, GoInt.maxInt64 in *; lia).
      destruct (IH (acc ++ [pid])) as (pids & -> & Hfilter & Hrange).
      exists (pid :: pids). rewrite <- app_assoc. split; [reflexivity |].
      split; [cbn [fmap list_fmap]; now rewrite <- Hfilter | now constructor].
    + rewrite filter_cons_False by (rewrite Hskip; discriminate).
      destruct name as [| c rest]; [contradiction |].
      unfold GoStrings.byte_at. cbn [String.get outcome_bind].
      cbn [numeric] in Hskip. apply negb_false_iff in Hskip. rewrite Hskip.
      apply IH.
Qed.

(** X17.  [ProcList.Get] on a directory whose entries are the decimal
    names of PIDs and names that do not start with a digit: it returns the
    PIDs of the numeric names, in the order of the directory, each as the
    integer its name spells, and skips the other names. *)
Theorem ProcList_Get_numeric_names (names : list string) :
  Forall procEntry names ->
  exists pids,
    Linux.ProcList_Get (inr names) = Returns (inr pids) /\
    Strconv.Itoa <$> pids = filter (fun name => numeric name = true) names /\
    Forall (fun pid => 0 <= pid <= GoInt.maxInt64) pids.
Proof.
  intros Hnames. destruct (listPids_entries names [] Hnames) as (pids & Hrun & Hrest).
  exists pids. unfold Linux.ProcList_Get. rewrite Hrun. cbn [app outcome_bind].
  split; [reflexivity | exact Hrest].
Qed.

(** ** The path of a file of a process *)

(** Only decimal digits in [s]. *)
Fixpoint digitsOnly (s : string) : bool :=
  match s with
  | EmptyString => true
  | String c s' =>
      match GoStrings.digit_of c with
      | Some _ => digitsOnly s'
      | None => false
      end
  end.

Lemma formatBits_digitsOnly (fuel : nat) (u : Z) (acc : string) :
  0 <= u -> digitsOnly acc = true ->
  digitsOnly (Strconv.formatBits fuel u acc) = true.
Proof.
  revert u acc. induction fuel as [| fuel IH]; intros u acc Hu Hacc;
    cbn [Strconv.formatBits]; [exact Hacc |].
  assert (Hdigit : 0 <= u mod 10 <= 9) by (pose proof (Z.mod_pos_bound u 10); lia).
  assert (Hacc' : digitsOnly (String (Strconv.digit_byte (u mod 10)) acc) = true).
  { cbn [digitsOnly]. now rewrite digit_of_digit_byte. }
  destruct (u <? 10); [exact Hacc' |].
  apply IH; [apply Z.div_pos; lia | exact Hacc'].
Qed.

Lemma digitsOnly_occurs (c : ascii) (s : string) :
  GoStrings.digit_of c = None -> digitsOnly s = true -> occurs c s = false.
Proof.
  intros Hc. induction s as [| x s IH]; [reflexivity |].
  cbn [digitsOnly occurs].
  destruct (GoStrings.digit_of x) as [d |] eqn:Hx; [| discriminate].
  intros Hs. rewrite (IH Hs), orb_false_r.
  apply Ascii.eqb_neq. intros ->. congruence.
Qed.

Lemma Itoa_no_slash (i : Z) : occurs "/" (Strconv.Itoa i) = false.
Proof.
  unfold Strconv.Itoa. destruct (Z.ltb_spec i 0).
  - cbn [occurs]. rewrite (digitsOnly_occurs "/") ; [reflexivity | reflexivity |].
    apply formatBits_digitsOnly; [lia | reflexivity].
  - apply (digitsOnly_occurs "/"); [reflexivity |].
    apply formatBits_digitsOnly; [lia | reflexivity].
Qed.

(** A string is cut at the first occurrence of a byte in one way. *)
Lemma cut_unique (c : ascii) (a a' b b' : string) :
  occurs c a = false -> occurs c a' = false ->
  a +:+ String c b = a' +:+ String c b' -> a = a' /\ b = b'.
Proof.
  revert a'. induction a as [| x a IH]; intros [| x' a'] Ha Ha';
    rewrite ?append_Empty, ?append_String.
  - now intros [= ->].
  - intros [= <- _]. cbn [occurs] in Ha'. now rewrite Ascii.eqb_refl in Ha'.
  - intros [= -> _]. cbn [occurs] in Ha. now rewrite Ascii.eqb_refl in Ha.
  - cbn [occurs] in Ha, Ha'.
    apply orb_false_iff in Ha as [_ Ha]. apply orb_false_iff in Ha' as [_ Ha'].
    intros [= <- Heq]. destruct (IH a' Ha Ha' Heq) as [-> ->]. auto.
Qed.

(** X18.  No two files of processes share a path: for PIDs that are
    [int] values, [procFileName] gives equal paths under one [Procd] only
    for equal PIDs and equal file names. *)
Theorem procFileName_injective (Procd : string) (pid pid' : Z) (name name' : string) :
  GoInt.is_i64 pid -> GoInt.is_i64 pid' ->
  Linux.procFileName Procd pid name = Linux.procFileName Procd pid' name' ->
  pid = pid' /\ name = name'.
Proof.
  intros Hpid Hpid'. unfold Linux.procFileName. intros Heq.
  apply String.app_inj in Heq. rewrite !append_String, !append_Empty in Heq.
  injection Heq as Heq.
  apply cut_unique in Heq as [Hitoa ->]; try apply Itoa_no_slash.
  split; [| reflexivity].
  pose proof (Atoi_Itoa pid Hpid) as H1. pose proof (Atoi_Itoa pid' Hpid') as H2.
  rewrite Hitoa in H1. congruence.
Qed.

(** ** The command line *)

(** The bytes of a command line: each argument followed by a NUL byte,
    and then [tail]. *)
Definition cmdlineBytes (args : list string) (tail : string) : string :=
  fold_right (fun arg rest => arg +:+ String Ascii.zero rest) tail args.

Lemma readArgs_argument (chop : string -> string) (a arg rest : string) :
  occurs Ascii.zero a = false ->
  Linux.readArgs chop arg (a +:+ String Ascii.zero rest)
  = chop ((arg +:+ a) +:+ String Ascii.zero "")
    :: Linux.readArgs chop EmptyString rest.
Proof.
  revert arg. induction a as [| x a IH]; intros arg Ha.
  - rewrite append_Empty, append_nil_r. cbn [Linux.readArgs].
    now rewrite Ascii.eqb_refl.
  - cbn [occurs] in Ha. apply orb_false_iff in Ha as [Hx Ha].
    rewrite append_String. cbn [Linux.readArgs]. rewrite Hx, (IH _ Ha).
    now rewrite (append_assoc arg (String x "") a).
Qed.

Lemma readArgs_unterminated (chop : string -> string) (arg tail : string) :
  occurs Ascii.zero tail = false -> Linux.readArgs chop arg tail = [].
Proof.
  revert arg. induction tail as [| x tail IH]; intros arg Ht; [reflexivity |].
  cbn [occurs] in Ht. apply orb_false_iff in Ht as [Hx Ht].
  cbn [Linux.readArgs]. rewrite Hx. now apply IH.
Qed.

(** X19.  [ProcArgs.Get] returns one argument per NUL byte of the
    cmdline file: each run of bytes up to and including a NUL, passed
    through [chop].  Bytes that follow the last NUL are dropped: a last
    argument that is not terminated is not returned. *)
Theorem ProcArgs_Get_terminated (chop : string -> string) (fs : ProcFS) (pid : Z)
    (args : list string) (tail : string) :
  Forall (fun arg => occurs Ascii.zero arg = false) args ->
  occurs Ascii.zero tail = false ->
  readProcFile fs pid "cmdline" = inr (cmdlineBytes args tail) ->
  Linux.ProcArgs_Get chop fs pid
  = ((fun arg => chop (arg +:+ String Ascii.zero "")) <$> args, None).
Proof.
  intros Hargs Htail Hread. unfold Linux.ProcArgs_Get. rewrite Hread. f_equal.
  clear Hread. induction Hargs as [| arg args Harg _ IH]; cbn [cmdlineBytes fold_right].
  - now apply readArgs_unterminated.
  - rewrite readArgs_argument by exact Harg. rewrite append_Empty.
    cbn [fmap list_fmap]. f_equal. exact IH.
Qed.

(** ** The times of a process *)

(** X20.  [ProcTime.Get] converts clock ticks to milliseconds with the
    integer factor [1000 / ticks].  With a tick rate of 0 the call panics
    (division by zero) whenever the stat record can be read.  With a
    positive tick rate and a record of at least 22 fields it returns a
    total that is the sum of the user and system times modulo 2^64; with a
    rate above 1000 the factor is 0, and the user, system and total times
    are reported as 0 whatever the record says. *)
Theorem ProcTime_Get_ticks (sys : Linux.system) (fs : ProcFS)
    (self : ProcTime.t) (pid : Z) (contents : string) :
  readProcFile fs pid "stat" = inr contents ->
  (Linux.ticks sys = 0 -> Linux.ProcTime_Get sys fs self pid = Panics) /\
  (0 < Linux.ticks sys -> (22 <= length (GoStrings.Fields contents))%nat ->
   exists t,
     Linux.ProcTime_Get sys fs self pid = Returns (t, None) /\
     ProcTime.Total t = GoInt.wrap64 (ProcTime.User t + ProcTime.Sys t) /\
     (1000 < Linux.ticks sys ->
      ProcTime.User t = 0 /\ ProcTime.Sys t = 0 /\ ProcTime.Total t = 0)).
Proof.
  intros Hread. unfold Linux.ProcTime_Get. rewrite Hread. split.
  - intros Hzero. unfold Linux.div_u64. rewrite Hzero. cbn [Z.eqb outcome_bind].
    destruct (index _ 13); [| reflexivity]. cbn [outcome_bind].
    destruct (index _ 14); reflexivity.
  - intros Hpos Hfields.
    rewrite !(index_within (GoStrings.Fields contents) _ EmptyString) by lia.
    unfold Linux.div_u64.
    destruct (Z.eqb_spec (Linux.ticks sys) 0) as [Hzero | _]; [lia |].
    cbn [outcome_bind]. eexists. split; [reflexivity |].
    cbn [ProcTime.Total ProcTime.User ProcTime.Sys]. split; [reflexivity |].
    intros Hfast. rewrite (Z.div_small 1000) by lia.
    unfold GoInt.mul_u64. rewrite !Z.mul_0_r. repeat split; reflexivity.
Qed.

(** ** The columns of the stat record *)

(** No white space in [s]: none of its bytes starts a white-space rune. *)
Fixpoint spaceFree (s : string) : bool :=
  match s with
  | EmptyString => true
  | String _ s' => (GoStrings.spaceWidth s =? 0)%nat && spaceFree s'
  end.

(** [s] is empty or starts with white space. *)
Definition detached (s : string) : bool :=
  match s with
  | EmptyString => true
  | String _ _ => (0 <? GoStrings.spaceWidth s)%nat
  end.

Definition pending (cur : option string) : list string :=
  match cur with
  | Some w => [w]
  | None => []
  end.

(** A continuation byte of UTF-8. *)
Definition continuation (c : ascii) : bool :=
  ((128 <=? nat_of_ascii c) && (nat_of_ascii c <? 192))%nat.

Fixpoint continued (p : string) : bool :=
  match p with
  | EmptyString => true
  | String c p' => continuation c && continued p'
  end.

(** An encoding of one rune outside ASCII: a leading byte, then
    continuation bytes. *)
Definition encoding (p : string) : bool :=
  match p with
  | EmptyString => false
  | String c p' => (192 <=? nat_of_ascii c)%nat && continued p'
  end.

Lemma wideSpaces_encodings : forallb encoding GoStrings.wideSpaces = true.
Proof. reflexivity. Qed.

Lemma isSpace_ascii (c : ascii) : GoStrings.isSpace c = true -> continuation c = false.
Proof.
  unfold GoStrings.isSpace, continuation. cbv zeta.
  destruct (Nat.leb_spec 128 (nat_of_ascii c)); [| reflexivity].
  destruct (Nat.leb_spec (nat_of_ascii c) 13); [lia |].
  destruct (Nat.eqb_spec (nat_of_ascii c) 32); [lia |].
  rewrite andb_false_r. discriminate.
Qed.

Lemma prefix_String (a c : ascii) (p s : string) :
  String.prefix (String a p) (String c s) = Ascii.eqb a c && String.prefix p s.
Proof.
  cbn [String.prefix]. destruct (ascii_dec a c) as [-> | Hne].
  - now rewrite Ascii.eqb_refl.
  - apply Ascii.eqb_neq in Hne. now rewrite Hne.
Qed.

(** White space starts with a byte that is not a continuation byte. *)
Lemma spaceWidth_first (c : ascii) (s : string) :
  (0 < GoStrings.spaceWidth (String c s))%nat -> continuation c = false.
Proof.
  unfold GoStrings.spaceWidth.
  destruct (GoStrings.isSpace c) eqn:Hc; [intros _; now apply isSpace_ascii |].
  destruct (List.find _ _) as [p |] eqn:Hfind; [intros _ | lia].
  apply List.find_some in Hfind as [Hin Hp].
  pose proof wideSpaces_encodings as Henc.
  rewrite forallb_forall in Henc. specialize (Henc p Hin).
  destruct p as [| a p]; [discriminate |].
  rewrite prefix_String in Hp. apply andb_true_iff in Hp as [Hac _].
  apply Ascii.eqb_eq in Hac as <-.
  cbn [encoding] in Henc. apply andb_true_iff in Henc as [Ha _].
  apply Nat.leb_le in Ha. unfold continuation.
  destruct (Nat.ltb_spec (nat_of_ascii a) 192); [lia |]. apply andb_false_r.
Qed.

(** Continuation bytes are not met across the start of a detached text. *)
Lemma prefix_continued (p s b : string) :
  continued p = true -> detached b = true ->
  String.prefix p (s +:+ b) = String.prefix p s.
Proof.
  intros Hp Hb. revert s. induction p as [| a p IH]; intros s.
  - now destruct s, b.
  - cbn [continued] in Hp. apply andb_true_iff in Hp as [Ha Hp].
    destruct s as [| c s].
    + rewrite append_Empty. destruct b as [| d b]; [reflexivity |].
      rewrite prefix_String. cbn [String.prefix].
      cbn [detached] in Hb. apply Nat.ltb_lt, spaceWidth_first in Hb.
      destruct (Ascii.eqb_spec a d) as [-> | _]; [congruence | reflexivity].
    + rewrite append_String, !prefix_String. now rewrite IH.
Qed.

Lemma spaceWidth_append (c : ascii) (s b : string) :
  detached b = true ->
  GoStrings.spaceWidth (String c s +:+ b) = GoStrings.spaceWidth (String c s).
Proof.
  intros Hb. rewrite append_String. unfold GoStrings.spaceWidth.
  destruct (GoStrings.isSpace c); [reflexivity |].
  pose proof wideSpaces_encodings as Henc.
  induction GoStrings.wideSpaces as [| p wide IH]; [reflexivity |].
  cbn [forallb] in Henc. apply andb_true_iff in Henc as [Hp Henc].
  cbn [List.find].
  replace (String.prefix p (String c (s +:+ b))) with (String.prefix p (String c s)).
  - destruct (String.prefix p (String c s)); [reflexivity | now apply IH].
  - destruct p as [| a p]; [discriminate |].
    cbn [encoding] in Hp. apply andb_true_iff in Hp as [_ Hp].
    rewrite !prefix_String. now rewrite prefix_continued.
Qed.

Lemma prefix_length (p s : string) :
  String.prefix p s = true -> (String.length p <= String.length s)%nat.
Proof.
  revert s. induction p as [| a p IH]; intros s; [cbn; lia |].
  destruct s as [| c s]; [discriminate |].
  rewrite prefix_String. intros [_ Hp]%andb_true_iff.
  cbn [String.length]. apply IH in Hp. lia.
Qed.

Lemma spaceWidth_length (s : string) :
  (GoStrings.spaceWidth s <= String.length s)%nat.
Proof.
  destruct s as [| c s]; [reflexivity |]. unfold GoStrings.spaceWidth.
  destruct (GoStrings.isSpace c); [cbn [String.length]; lia |].
  destruct (List.find _ _) as [p |] eqn:Hfind; [| lia].
  apply List.find_some in Hfind as [_ Hp]. now apply prefix_length.
Qed.

Lemma Fields_from_detached (cur : option string) (s : string) :
  detached s = true ->
  GoStrings.Fields_from 0 cur s = pending cur ++ GoStrings.Fields s.
Proof.
  destruct s as [| c s]; intros Hs.
  - unfold GoStrings.Fields. cbn [GoStrings.Fields_from]. rewrite app_nil_r.
    now destruct cur.
  - cbn [detached] in Hs. apply Nat.ltb_lt in Hs.
    unfold GoStrings.Fields. cbn [GoStrings.Fields_from].
    destruct (GoStrings.spaceWidth (String c s)) as [| rest]; [lia |].
    now destruct cur.
Qed.

(** The fields of [a] followed by a detached [b] are those of [a], then
    those of [b]. *)
Lemma Fields_from_append (a b : string) (skip : nat) (cur : option string) :
  detached b = true -> (skip <= String.length a)%nat ->
  GoStrings.Fields_from skip cur (a +:+ b)
  = GoStrings.Fields_from skip cur a ++ GoStrings.Fields b.
Proof.
  intros Hb. revert skip cur. induction a as [| x a IH]; intros skip cur Hskip.
  - cbn [String.length] in Hskip. replace skip with 0%nat by lia.
    rewrite append_Empty, Fields_from_detached by exact Hb.
    cbn [GoStrings.Fields_from]. now destruct cur.
  - cbn [String.length] in Hskip.
    pose proof (spaceWidth_append x a b Hb) as Hwidth.
    pose proof (spaceWidth_length (String x a)) as Hlen.
    cbn [String.length] in Hlen.
    rewrite append_String in *. cbn [GoStrings.Fields_from].
    destruct skip as [| skip]; [| apply IH; lia].
    rewrite Hwidth.
    destruct (GoStrings.spaceWidth (String x a)) as [| rest]; [apply IH; lia |].
    destruct cur as [w |]; rewrite IH by lia; reflexivity.
Qed.

Lemma Fields_append (a b : string) :
  detached b = true ->
  GoStrings.Fields (a +:+ b) = GoStrings.Fields a ++ GoStrings.Fields b.
Proof. intros Hb. apply Fields_from_append; [exact Hb | lia]. Qed.

Lemma Fields_from_word (w v : string) :
  spaceFree w = true -> GoStrings.Fields_from 0 (Some v) w = [v +:+ w].
Proof.
  revert v. induction w as [| c w IH]; intros v Hw.
  - now rewrite append_nil_r.
  - cbn [spaceFree] in Hw. apply andb_true_iff in Hw as [Hc Hw].
    apply Nat.eqb_eq in Hc. cbn [GoStrings.Fields_from]. rewrite Hc.
    rewrite IH by exact Hw. now rewrite append_assoc.
Qed.

Lemma Fields_word (w : string) :
  w <> EmptyString -> spaceFree w = true -> GoStrings.Fields w = [w].
Proof.
  destruct w as [| c w]; [contradiction |]. intros _ Hw.
  cbn [spaceFree] in Hw. apply andb_true_iff in Hw as [Hc Hw].
  apply Nat.eqb_eq in Hc. unfold GoStrings.Fields.
  cbn [GoStrings.Fields_from]. rewrite Hc. now rewrite Fields_from_word.
Qed.

(** The fields of a whole stat record: the PID, the words of the name
    between its parentheses, the statistics. *)
Lemma Fields_stat (pidText name stats : string) :
  pidText <> EmptyString -> spaceFree pidText = true -> detached stats = true ->
  GoStrings.Fields (pidText +:+ " (" +:+ name +:+ ")" +:+ stats)
  = pidText :: GoStrings.Fields ("(" +:+ name +:+ ")") ++ GoStrings.Fields stats.
Proof.
  intros Hne Hpid Hstats.
  replace (pidText +:+ " (" +:+ name +:+ ")" +:+ stats)
    with ((pidText +:+ " (" +:+ name +:+ ")") +:+ stats)
    by (now rewrite !append_assoc).
  rewrite Fields_append by exact Hstats.
  rewrite (Fields_append pidText) by reflexivity.
  rewrite (Fields_word pidText) by assumption.
  reflexivity.
Qed.

(** A byte of ASCII that is not white space starts no white-space rune. *)
Lemma spaceWidth_ascii (c : ascii) (s : string) :
  (nat_of_ascii c < 128)%nat -> GoStrings.isSpace c = false ->
  GoStrings.spaceWidth (String c s) = 0%nat.
Proof.
  intros Hc Hspace. unfold GoStrings.spaceWidth. rewrite Hspace.
  pose proof wideSpaces_encodings as Henc.
  induction GoStrings.wideSpaces as [| p wide IH]; [reflexivity |].
  cbn [forallb] in Henc. apply andb_true_iff in Henc as [Hp Henc].
  cbn [List.find]. destruct p as [| a p]; [discriminate |].
  rewrite prefix_String.
  destruct (Ascii.eqb_spec a c) as [-> | _]; [| now apply IH].
  cbn [encoding] in Hp. apply andb_true_iff in Hp as [Hlead _].
  apply Nat.leb_le in Hlead. lia.
Qed.

(** A no-break space (U+00A0, two bytes in UTF-8) separates two words as
    a space does, and an ideographic space (U+3000, three bytes) too. *)
Example Fields_wide_spaces :
  GoStrings.Fields
    ("(a" +:+ String (GoStrings.byte 194) (String (GoStrings.byte 160) "b")
     +:+ String (GoStrings.byte 227)
           (String (GoStrings.byte 128) (String (GoStrings.byte 128) "c)")))
  = ["(a"; "b"; "c)"]%string.
Proof. reflexivity. Qed.

(** X21.  [ProcTime.Get] counts the fields of the whole stat record, the
    words of the name included; words are what [strings.Fields] separates,
    at the white space of Unicode.  For a record [pid (name) statistics]
    whose name has [k] words, the user time, the system time and the start
    time are read from the fields [12 - k], [13 - k] and [20 - k] of the
    statistics: with a name of one word these are the fields 11, 12 and 19
    (counted as [ProcState.Get] counts them, the state being field 0), and
    with every further word in the name each is taken one field earlier. *)
Theorem ProcTime_Get_columns (sys : Linux.system) (fs : ProcFS)
    (self : ProcTime.t) (pid : Z) (pidText name stats : string) :
  readProcFile fs pid "stat" = inr (pidText +:+ " (" +:+ name +:+ ")" +:+ stats) ->
  pidText <> EmptyString -> spaceFree pidText = true -> detached stats = true ->
  0 < Linux.ticks sys ->
  let k := length (GoStrings.Fields ("(" +:+ name +:+ ")")) in
  (1 <= k <= 12)%nat ->
  (21 - k <= length (GoStrings.Fields stats))%nat ->
  let field i := default EmptyString (GoStrings.Fields stats !! i) in
  let user := fst (Linux.strtoull (field (12 - k)%nat)) in
  let system := fst (Linux.strtoull (field (13 - k)%nat)) in
  let start := fst (Linux.strtoull (field (20 - k)%nat)) in
  let perTick := 1000 / Linux.ticks sys in
  Linux.ProcTime_Get sys fs self pid
  = Returns
      (ProcTime.mk
         (GoInt.mul_u64 (GoInt.wrap64 (start / Linux.ticks sys + Linux.btime sys)) 1000)
         (GoInt.mul_u64 user perTick) (GoInt.mul_u64 system perTick)
         (GoInt.wrap64 (GoInt.mul_u64 user perTick + GoInt.mul_u64 system perTick)),
       None).
Proof.
  intros Hread Hne Hpid Hstats Hticks k Hk Hfields field user system start perTick.
  unfold Linux.ProcTime_Get. rewrite Hread.
  rewrite Fields_stat by assumption. fold k.
  assert (Hcolumn : forall i, (1 + k <= i)%nat -> (i - 1 - k < length (GoStrings.Fields stats))%nat ->
            index (pidText :: GoStrings.Fields ("(" +:+ name +:+ ")")
                     ++ GoStrings.Fields stats) i
            = Returns (field (i - 1 - k)%nat)).
  { intros i Hi Hlen. unfold index.
    destruct i as [| i]; [lia |].
    change ((pidText :: GoStrings.Fields ("(" +:+ name +:+ ")")
               ++ GoStrings.Fields stats) !! S i)
      with ((GoStrings.Fields ("(" +:+ name +:+ ")") ++ GoStrings.Fields stats) !! i).
    rewrite lookup_app_r by (fold k; lia). fold k.
    replace (S i - 1 - k)%nat with (i - k)%nat by lia. subst field. cbn beta.
    destruct (lookup_lt_is_Some_2 (GoStrings.Fields stats) (i - k)) as [w ->];
      [lia | reflexivity]. }
  rewrite !Hcolumn by lia. cbn [outcome_bind].
  unfold Linux.div_u64.
  destruct (Z.eqb_spec (Linux.ticks sys) 0) as [Hzero | _]; [lia |].
  cbn [outcome_bind].
  replace (13 - 1 - k)%nat with (12 - k)%nat by lia.
  replace (14 - 1 - k)%nat with (13 - k)%nat by lia.
  replace (21 - 1 - k)%nat with (20 - k)%nat by lia.
  reflexivity.
Qed.

Lemma shl12_pages (pages : Z) :
  0 <= pages < 2 ^ 52 -> Linux.shl12 pages = pages * 4096.
Proof.
  intros Hpages. unfold Linux.shl12, GoInt.wrap64, GoInt.two64.
  rewrite Z.shiftl_mul_pow2 by lia. change (2 ^ 12) with 4096.
  apply Z.mod_small. lia.
Qed.

Lemma strtoull_range (val : string) : 0 <= fst (Linux.strtoull val) < 2 ^ 64.
Proof.
  unfold Linux.strtoull, Strconv.ParseUint.
  destruct val as [| c val]; [cbn; lia |].
  assert (Hloop : forall s n, 0 <= n < 2 ^ 64 ->
            0 <= fst (Strconv.parseUintLoop n s) < 2 ^ 64).
  { induction s as [| d s IH]; intros n Hn; cbn [Strconv.parseUintLoop fst];
      [exact Hn |].
    destruct (GoStrings.digit_of d) as [v |]; [| cbn; lia].
    destruct (_ <=? n); [unfold Strconv.maxUint64; cbn; lia |]. cbv zeta.
    destruct (_ || _); [unfold Strconv.maxUint64; cbn; lia |].
    apply IH. apply Z.mod_pos_bound. unfold GoInt.two64. lia. }
  apply Hloop. lia.
Qed.

(** X23.  [ProcMem.Get] takes the sizes from the first three fields of
    the statm file, as pages of 4096 bytes: a count of pages below 2^52
    gives exactly that many times 4096 bytes.  The fault counters come
    from the whole stat record, counted with the words of the name (what
    [strings.Fields] separates, at the white space of Unicode): for a
    name of [k] words they are the fields [9 - k] and [11 - k] of the
    statistics that follow the name, and the page faults are their sum
    modulo 2^64. *)
Theorem ProcMem_Get_pages_and_columns (fs : ProcFS) (self : ProcMem.t) (pid : Z)
    (statm pidText name stats : string) :
  readProcFile fs pid "statm" = inr statm ->
  readProcFile fs pid "stat" = inr (pidText +:+ " (" +:+ name +:+ ")" +:+ stats) ->
  (3 <= length (GoStrings.Fields statm))%nat ->
  pidText <> EmptyString -> spaceFree pidText = true -> detached stats = true ->
  let k := length (GoStrings.Fields ("(" +:+ name +:+ ")")) in
  (1 <= k <= 9)%nat ->
  (12 - k <= length (GoStrings.Fields stats))%nat ->
  let pages i := fst (Linux.strtoull (default EmptyString (GoStrings.Fields statm !! i))) in
  let field i := default EmptyString (GoStrings.Fields stats !! i) in
  let minor := fst (Linux.strtoull (field (9 - k)%nat)) in
  let major := fst (Linux.strtoull (field (11 - k)%nat)) in
  Linux.ProcMem_Get fs self pid
  = Returns
      (ProcMem.mk (Linux.shl12 (pages 0%nat)) (Linux.shl12 (pages 1%nat))
         (Linux.shl12 (pages 2%nat)) minor major (GoInt.wrap64 (minor + major)),
       None) /\
  (forall i, pages i < 2 ^ 52 -> Linux.shl12 (pages i) = pages i * 4096).
Proof.
  intros Hstatm Hstat Hthree Hne Hpid Hstats k Hk Hfields pages field minor major.
  split.
  - unfold Linux.ProcMem_Get. rewrite Hstatm.
    rewrite !(index_within (GoStrings.Fields statm) _ EmptyString) by lia.
    cbn [outcome_bind]. rewrite Hstat.
    rewrite Fields_stat by assumption. fold k.
    assert (Hcolumn : forall i, (1 + k <= i)%nat ->
              (i - 1 - k < length (GoStrings.Fields stats))%nat ->
              index (pidText :: GoStrings.Fields ("(" +:+ name +:+ ")")
                       ++ GoStrings.Fields stats) i
              = Returns (field (i - 1 - k)%nat)).
    { intros i Hi Hlen. unfold index.
      destruct i as [| i]; [lia |].
      change ((pidText :: GoStrings.Fields ("(" +:+ name +:+ ")")
                 ++ GoStrings.Fields stats) !! S i)
        with ((GoStrings.Fields ("(" +:+ name +:+ ")")
                 ++ GoStrings.Fields stats) !! i).
      rewrite lookup_app_r by (fold k; lia). fold k.
      replace (S i - 1 - k)%nat with (i - k)%nat by lia. subst field. cbn beta.
      destruct (lookup_lt_is_Some_2 (GoStrings.Fields stats) (i - k)) as [w ->];
        [lia | reflexivity]. }
    rewrite !Hcolumn by lia. cbn [outcome_bind].
    replace (10 - 1 - k)%nat with (9 - k)%nat by lia.
    replace (12 - 1 - k)%nat with (11 - k)%nat by lia.
    reflexivity.
  - intros i Hi. apply shl12_pages. split; [apply strtoull_range | exact Hi].
Qed.

(** ** Which processes a cycle stores *)

(** An error that the sampler passes over. *)
Definition tolerable (err : error) : bool :=
  IsNotImplemented err || IsPermission err.

Definition answered {A} (r : error + A) : bool :=
  match r with
  | inl _ => false
  | inr _ => true
  end.

Definition answeredOr {A} (pass : error -> bool) (r : error + A) : bool :=
  match r with
  | inl err => pass err
  | inr _ => true
  end.

Definition noErrorOr (pass : error -> bool) (e : option error) : bool :=
  match e with
  | Some err => pass err
  | None => true
  end.

(** Whether the turn of [pid] ends with the process stored, told from
    the answers of the system and from what the previous snapshot carries
    over: the state is read and the name matches; the executable, the
    file descriptors and the environment are read or fail tolerably (the
    file descriptors are not asked of another process on FreeBSD, nor the
    environment when one is carried over); memory, times and I/O are read;
    the command line is carried over, or read, or not implemented. *)
Definition stored (procStats : ProcStats) (ds : DataSource) (pid : Z) : bool :=
  match ProcState_Get ds pid with
  | inl _ => false
  | inr state =>
      noErrorOr tolerable (snd (ProcExe_Get ds pid)) &&
      MatchProcess procStats (ProcState.Name state) &&
      answered (ProcMem_Get ds pid) &&
      answered (ProcTime_Get ds pid) &&
      answered (ProcIO_Get ds pid) &&
      (negb (String.eqb (fst (carriedOver procStats pid)) "")
       || noErrorOr IsNotImplemented (snd (ProcArgs_Get ds pid))) &&
      ((String.eqb (GOOS ds) "freebsd" && negb (pid =? Getpid ds))
       || answeredOr tolerable (ProcFDUsage_Get ds pid)) &&
      (match snd (carriedOver procStats pid) with Some _ => true | None => false end
       || answeredOr tolerable (ProcEnv_Get ds pid))
  end.

Lemma getDetails_env_runs ds pred proc log :
  (match Env proc with Some _ => true | None => false end
   || answeredOr tolerable (ProcEnv_Get ds (Pid proc))) = true
  <-> exists proc', fst (getDetails_env ds pred proc log) = inr proc'.
Proof.
  unfold getDetails_env, getProcEnv, tolerable. run_monad.
  destruct (Env proc) as [env |]; cbn [orb fst]; [split; eauto |].
  destruct (ProcEnv_Get ds (Pid proc)) as [e | vars]; cbn [answeredOr fst].
  - destruct (IsNotImplemented e); cbn [orb fst]; [split; eauto |].
    destruct (IsPermission e); cbn [fst]; [split; eauto |].
    split; [discriminate | now intros [? ?]].
  - split; eauto.
Qed.

Lemma getDetails_fd_runs ds pred proc log :
  ((String.eqb (GOOS ds) "freebsd" && negb (Pid proc =? Getpid ds))
   || answeredOr tolerable (ProcFDUsage_Get ds (Pid proc)))
  && (match Env proc with Some _ => true | None => false end
      || answeredOr tolerable (ProcEnv_Get ds (Pid proc))) = true
  <-> exists proc', fst (getDetails_fd ds pred proc log) = inr proc'.
Proof.
  unfold getDetails_fd, getProcFDUsage, tolerable. run_monad.
  destruct (String.eqb (GOOS ds) "freebsd" && negb (Pid proc =? Getpid ds));
    cbn [orb andb]; [apply getDetails_env_runs |].
  destruct (ProcFDUsage_Get ds (Pid proc)) as [e | fd]; cbn [answeredOr].
  - destruct (IsNotImplemented e); cbn [orb andb]; [apply getDetails_env_runs |].
    destruct (IsPermission e); cbn [andb]; [apply getDetails_env_runs |].
    cbn [fst]. split; [discriminate | now intros [? ?]].
  - cbn [andb]. apply (getDetails_env_runs ds pred (with_FD proc fd)).
Qed.

Lemma getDetails_runs ds pred proc log :
  answered (ProcMem_Get ds (Pid proc)) &&
  answered (ProcTime_Get ds (Pid proc)) &&
  answered (ProcIO_Get ds (Pid proc)) &&
  (negb (String.eqb (CmdLine proc) "")
   || noErrorOr IsNotImplemented (snd (ProcArgs_Get ds (Pid proc)))) &&
  ((String.eqb (GOOS ds) "freebsd" && negb (Pid proc =? Getpid ds))
   || answeredOr tolerable (ProcFDUsage_Get ds (Pid proc))) &&
  (match Env proc with Some _ => true | None => false end
   || answeredOr tolerable (ProcEnv_Get ds (Pid proc))) = true
  <-> exists proc', fst (getDetails ds pred proc log) = inr proc'.
Proof.
  unfold getDetails, getDetails_args. run_monad.
  destruct (ProcMem_Get ds (Pid proc)) as [e | mem]; cbn [answered andb fst];
    [split; [discriminate | now intros [? ?]] |].
  destruct (ProcTime_Get ds (Pid proc)) as [e | cpu]; cbn [answered andb fst];
    [split; [discriminate | now intros [? ?]] |].
  destruct (ProcIO_Get ds (Pid proc)) as [e | io]; cbn [answered andb fst];
    [split; [discriminate | now intros [? ?]] |].
  cbn [CmdLine Pid with_IO with_Cpu with_Mem].
  set (proc1 := with_IO (with_Cpu (with_Mem proc mem) cpu) io).
  destruct (String.eqb (CmdLine proc) ""); cbn [negb orb].
  - destruct (ProcArgs_Get ds (Pid proc)) as [args [e |]]; cbn [snd noErrorOr].
    + destruct (IsNotImplemented e); cbn [negb andb].
      * apply (getDetails_fd_runs ds pred
                 (with_CmdLine proc1 (String.concat " " args))).
      * cbn [fst]. split; [discriminate | now intros [? ?]].
    + cbn [andb].
      apply (getDetails_fd_runs ds pred
               (with_CmdLine proc1 (String.concat " " args))).
  - cbn [andb]. apply (getDetails_fd_runs ds pred proc1).
Qed.

(** A turn of the loop either stores a process under the PID of the turn
    or leaves the accumulator as it was, and [stored] tells which. *)
Lemma sampleProcess_stored `{GoRuntime} procStats ds processes newProcs pid log :
  exists p,
    fst (sampleProcess procStats ds (processes, newProcs) pid log)
    = if stored procStats ds pid
      then (processes ++ [p], <[pid := p]> newProcs)
      else (processes, newProcs).
Proof.
  unfold sampleProcess, stored.
  destruct (carriedOver procStats pid) as [cmdline env] eqn:Hcarried.
  cbn [fst snd]. unfold bind at 1. cbn beta.
  destruct (newProcess ds pid cmdline env log) as [r log1] eqn:Hnew.
  pose proof Hnew as Hrun.
  unfold newProcess, bind, ask, ret in Hrun. cbn beta iota in Hrun.
  destruct (ProcState_Get ds pid) as [e | state].
  { injection Hrun as <- _. now exists zeroProcess. }
  destruct (ProcExe_Get ds pid) as [exe exeErr]. cbn [snd].
  assert (Hr : r = if noErrorOr tolerable exeErr
                   then inr (mkProcess pid (ProcState.Ppid state)
                               (ProcState.Pgid state) (ProcState.Name state)
                               (ProcState.Username state)
                               (getProcState (ProcState.State state)) cmdline
                               (ProcExe.Cwd exe) ProcMem.zero ProcTime.zero
                               ProcIO.zero (time_Now ds pid) ProcFDUsage.zero env
                               F64.zero)
                   else inl (Errorf "error getting process exe" pid exeErr)).
  { destruct exeErr as [e |]; cbn [noErrorOr]; [| now injection Hrun as <- _].
    unfold tolerable.
    destruct (IsNotImplemented e), (IsPermission e); cbn [negb andb orb] in *;
      now injection Hrun as <- _. }
  clear Hrun. subst r.
  destruct (noErrorOr tolerable exeErr); cbn [andb]; [| now exists zeroProcess].
  cbn [Name].
  destruct (MatchProcess procStats (ProcState.Name state)); cbn [andb];
    [| now exists zeroProcess].
  set (process := mkProcess _ _ _ _ _ _ _ _ _ _ _ _ _ _ _).
  pose proof (getDetails_runs ds (Some (isWhitelistedEnvVar procStats)) process log1)
    as Hdetails.
  cbn [process Pid CmdLine Env] in Hdetails.
  unfold bind.
  destruct (getDetails ds (Some (isWhitelistedEnvVar procStats)) process log1)
    as [[e | process'] log2] eqn:Hget; cbn [fst] in Hdetails.
  - exists zeroProcess. destruct (_ && _) eqn:Hcond in Hdetails.
    + destruct (proj1 Hdetails eq_refl) as [? [=]].
    + rewrite Hcond. reflexivity.
  - rewrite (proj2 Hdetails) by eauto.
    destruct (getDetails_detailed ds _ process process' log1 log2 Hget)
      as (Hpid & _).
    cbn [ret fst]. eexists. cbn [Pid with_cpuTotalPct].
    rewrite Hpid. reflexivity.
Qed.

(** The entries of the map after the PIDs [done]. *)
Definition storedOf (procStats : ProcStats) (ds : DataSource) (done : list Z)
    (acc : list Process * gmap Z Process) : Prop :=
  forall pid, is_Some (acc.2 !! pid) <-> pid ∈ done /\ stored procStats ds pid = true.

Lemma sampleProcess_storedOf `{GoRuntime} procStats ds done pid acc log :
  storedOf procStats ds done acc ->
  storedOf procStats ds (done ++ [pid]) (fst (sampleProcess procStats ds acc pid log)).
Proof.
  intros Hacc. destruct acc as [processes newProcs].
  destruct (sampleProcess_stored procStats ds processes newProcs pid log)
    as [p Hturn].
  destruct (stored procStats ds pid) eqn:Hstored.
  - rewrite Hturn. intros pid'. cbn [snd].
    rewrite elem_of_app, list_elem_of_singleton.
    destruct (decide (pid' = pid)) as [-> | Hne].
    + rewrite lookup_insert_eq. split; [intros _; auto | eauto].
    + rewrite lookup_insert_ne by congruence. rewrite (Hacc pid'). cbn [snd].
      tauto.
  - rewrite Hturn. intros pid'. rewrite (Hacc pid'), elem_of_app,
      list_elem_of_singleton.
    split; [tauto |]. intros [[Hin | ->] Hs]; [tauto | congruence].
Qed.

(** X22.  After a cycle whose enumeration succeeds, the new snapshot has
    an entry for a PID exactly when the PID was listed and its turn could
    be completed: its state was read and its name matches a pattern; no
    query of its executable, file descriptors or environment failed other
    than by "not implemented" or a permission error; its memory, times
    and I/O were read; and its command line was read, carried over, or not
    implemented.  Every other listed process is left out, and so is every
    process of the previous snapshot that is no longer listed. *)
Theorem GetProcStats_snapshot_domain `{GoRuntime} (procStats : ProcStats)
    (ds : DataSource) (pids : list Z) (pid : Z) :
  Procs procStats <> [] ->
  ProcList_Get ds = inr pids ->
  is_Some (ProcsMap (snd (result (GetProcStats procStats ds))) !! pid)
  <-> pid ∈ pids /\ stored procStats ds pid = true.
Proof.
  intros Hprocs Hlist.
  destruct (GetProcStats_cycle procStats ds pids Hprocs Hlist) as [-> _].
  cbn [ProcsMap set_ProcsMap].
  apply (foldM_invariant (storedOf procStats ds) _ pids
           (fun done x acc log => sampleProcess_storedOf procStats ds done x acc log)
           [] ([], ∅) [QProcList]).
  intros pid'. cbn [snd]. rewrite lookup_empty. split.
  - now intros [? ?].
  - now intros [?%elem_of_nil _].
Qed.

(** ** The links of a process *)

Module Links.

(** The keys of the map [fields] of [ProcExe.Get], lines 392-396. *)
Definition exeLinks : list string := ["exe"; "cwd"; "root"]%string.

(** [*field = val] for the field that the key [name] points to. *)
Definition setField (name val : string) (self : Sigar.ProcExe.t) : Sigar.ProcExe.t :=
  if String.eqb name "exe"
  then Sigar.ProcExe.mk val (Sigar.ProcExe.Cwd self) (Sigar.ProcExe.Root self)
  else if String.eqb name "cwd"
  then Sigar.ProcExe.mk (Sigar.ProcExe.Name self) val (Sigar.ProcExe.Root self)
  else if String.eqb name "root"
  then Sigar.ProcExe.mk (Sigar.ProcExe.Name self) (Sigar.ProcExe.Cwd self) val
  else self.

(** [ProcExe.Get], lines 391-409: the receiver as the call leaves it,
    and the error.  The loop ranges over a Go map, whose iteration order
    is not specified: [order] is the order of one run, a permutation of
    [exeLinks].  [Readlink] is [os.Readlink]. *)
Fixpoint readLinks (Readlink : string -> Sigar.error + string) (Procd : string)
    (pid : Z) (order : list string) (self : Sigar.ProcExe.t)
    : Sigar.ProcExe.t * option Sigar.error :=
  match order with
  | [] => (self, None)
  | name :: rest =>
      match Readlink (Linux.procFileName Procd pid name) with
      | inl err => (self, Some err)
      | inr val => readLinks Readlink Procd pid rest (setField name val self)
      end
  end.

Definition ProcExe_Get (Readlink : string -> Sigar.error + string) (Procd : string)
    (order : list string) (self : Sigar.ProcExe.t) (pid : Z)
    : Sigar.ProcExe.t * option Sigar.error :=
  readLinks Readlink Procd pid order self.

End Links.

Lemma exeLinks_orders (order : list string) :
  order ≡ₚ Links.exeLinks ->
  order ∈ [["exe"; "cwd"; "root"]; ["cwd"; "exe"; "root"]; ["cwd"; "root"; "exe"];
           ["exe"; "root"; "cwd"]; ["root"; "exe"; "cwd"];
           ["root"; "cwd"; "exe"]]%string.
Proof.
  intros Hperm. symmetry in Hperm. apply permutations_Permutation in Hperm.
  exact Hperm.
Qed.

(** X30.  [ProcExe.Get] reads the three links in the order in which the
    Go map happens to be ranged over.  In every order the call succeeds
    exactly when each of the three links can be read, and then the three
    fields are the three targets.  When a link cannot be read, what the
    receiver holds depends on the order: if [exe] cannot be read and
    [cwd] can, a run that comes to [exe] first leaves the receiver as it
    was, and a run that comes to [cwd] first has stored the working
    directory before it fails with the same error. *)
Theorem ProcExe_Get_order (Readlink : string -> error + string) (Procd : string)
    (self : ProcExe.t) (pid : Z) (order : list string) :
  order ≡ₚ Links.exeLinks ->
  let link name := Readlink (Linux.procFileName Procd pid name) in
  (snd (Links.ProcExe_Get Readlink Procd order self pid) = None
   <-> forall name, name ∈ Links.exeLinks -> exists val, link name = inr val) /\
  (forall exe cwd root,
     link "exe"%string = inr exe -> link "cwd"%string = inr cwd ->
     link "root"%string = inr root ->
     Links.ProcExe_Get Readlink Procd order self pid
     = (ProcExe.mk exe cwd root, None)) /\
  (forall err cwd,
     link "exe"%string = inl err -> link "cwd"%string = inr cwd ->
     Links.ProcExe_Get Readlink Procd ["exe"; "cwd"; "root"]%string self pid
     = (self, Some err) /\
     Links.ProcExe_Get Readlink Procd ["cwd"; "exe"; "root"]%string self pid
     = (ProcExe.mk (ProcExe.Name self) cwd (ProcExe.Root self), Some err)).
Proof.
  intros Horder link. apply exeLinks_orders in Horder.
  assert (Hall : (forall name, name ∈ Links.exeLinks -> exists val, link name = inr val)
                 <-> (exists exe cwd root,
                        link "exe"%string = inr exe /\ link "cwd"%string = inr cwd /\
                        link "root"%string = inr root)).
  { split.
    - intros Hlinks.
      destruct (Hlinks "exe"%string) as [exe Hexe]; [left |].
      destruct (Hlinks "cwd"%string) as [cwd Hcwd]; [right; left |].
      destruct (Hlinks "root"%string) as [root Hroot]; [right; right; left |].
      eauto 7.
    - intros (exe & cwd & root & Hexe & Hcwd & Hroot) name Hname.
      repeat (apply elem_of_cons in Hname as [-> | Hname]; [eauto |]).
      now apply elem_of_nil in Hname. }
  unfold Links.ProcExe_Get. subst link. cbn beta in *.
  split; [| split].
  - rewrite Hall.
    repeat (apply elem_of_cons in Horder as [-> | Horder];
            [cbn [Links.readLinks];
             destruct (Readlink (Linux.procFileName Procd pid "exe")) as [e1 | exe],
               (Readlink (Linux.procFileName Procd pid "cwd")) as [e2 | cwd],
               (Readlink (Linux.procFileName Procd pid "root")) as [e3 | root];
             cbn [snd];
             (split; [try discriminate; eauto 7
                     | intros (? & ? & ? & ? & ? & ?); congruence]) |]).
    now apply elem_of_nil in Horder.
  - intros exe cwd root Hexe Hcwd Hroot.
    repeat (apply elem_of_cons in Horder as [-> | Horder];
            [cbn [Links.readLinks]; rewrite Hexe, Hcwd, Hroot; reflexivity |]).
    now apply elem_of_nil in Horder.
  - intros err cwd Hexe Hcwd. cbn [Links.readLinks]. rewrite Hexe, Hcwd.
    split; reflexivity.
Qed.

(** * Part V: the files of the system, line by line *)

(** ** Packages strings and bytes: cutting and trimming *)

Module Text.

(** [s] cut at the first occurrence of the byte [c], which is left out. *)
Fixpoint cutByte (c : ascii) (s : string) : option (string * string) :=
  match s with
  | EmptyString => None
  | String x s' =>
      if Ascii.eqb x c then Some (EmptyString, s')
      else match cutByte c s' with
           | Some (a, b) => Some (String x a, b)
           | None => None
           end
  end.

(** [strings.SplitN(s, sep, 2)] and [bytes.SplitN(s, sep, 2)] for a
    separator of one byte: the two sides of its first occurrence, or [s]
    alone. *)
Definition SplitN2 (s : string) (sep : ascii) : list string :=
  match cutByte sep s with
  | Some (a, b) => [a; b]
  | None => [s]
  end.

(** [strings.Split(s, sep)] and [bytes.Split(s, sep)] for a separator of
    one byte: the pieces between its occurrences, one more than there are
    occurrences. *)
Definition Split (s : string) (sep : ascii) : list string :=
  Helper.split_on sep EmptyString s.

(** [strings.TrimLeft(s, " ")]. *)
Fixpoint TrimLeft_space (s : string) : string :=
  match s with
  | EmptyString => s
  | String c s' => if Ascii.eqb c " " then TrimLeft_space s' else s
  end.

(** [strings.HasPrefix(s, prefix)]. *)
Definition HasPrefix (s prefix : string) : bool := String.prefix prefix s.

(** [s[n:]] on a string: the bound is checked. *)
Definition from (s : string) (n : nat) : outcome string :=
  if (n <=? String.length s)%nat
  then Returns (String.substring n (String.length s - n) s)
  else Panics.

(** [s] without the prefix [p], when it starts with [p]. *)
Fixpoint dropPrefix (p s : string) : option string :=
  match p with
  | EmptyString => Some s
  | String a p' =>
      match s with
      | EmptyString => None
      | String b s' => if Ascii.eqb a b then dropPrefix p' s' else None
      end
  end.

Fixpoint firstDropped (prefixes : list string) (s : string) : option string :=
  match prefixes with
  | [] => None
  | p :: rest =>
      match dropPrefix p s with
      | Some s' => Some s'
      | None => firstDropped rest s
      end
  end.

(** [s] without its first rune, when that rune is white space: a space of
    ASCII, or one of [wide].  A byte above 127 that starts none of those
    encodings is not white space (an invalid encoding decodes to U+FFFD). *)
Definition dropSpace (wide : list string) (s : string) : option string :=
  match s with
  | EmptyString => None
  | String c s' => if GoStrings.isSpace c then Some s' else firstDropped wide s
  end.

Fixpoint trimFront (wide : list string) (fuel : nat) (s : string) : string :=
  match fuel with
  | O => s
  | S fuel' =>
      match dropSpace wide s with
      | Some s' => trimFront wide fuel' s'
      | None => s
      end
  end.

Fixpoint reverse (acc s : string) : string :=
  match s with
  | EmptyString => acc
  | String c s' => reverse (String c acc) s'
  end.

(** [strings.TrimSpace(s)] and [bytes.TrimSpace(s)]: the white space of
    Unicode is cut from both ends.  The end is trimmed on the reversed
    string, against the reversed encodings. *)
Definition TrimSpace (s : string) : string :=
  let s := trimFront GoStrings.wideSpaces (String.length s) s in
  reverse EmptyString
    (trimFront (reverse EmptyString <$> GoStrings.wideSpaces) (String.length s)
       (reverse EmptyString s)).

End Text.

(** ** gosigar: the files read line by line *)

Module Lines.

(** The loop of [readFile], lines 435-443, over the lines that
    [bufio.Reader.ReadLine] yields one call after the other.  The handler
    is a closure: the variables it captures are the state [st] here, and
    it may panic.  A handler that returns false ends the loop. *)
Fixpoint eachLine {S : Type} (handler : S -> string -> outcome (S * bool))
    (lines : list string) (st : S) : outcome S :=
  match lines with
  | [] => Returns st
  | line :: rest =>
      r <- handler st line ;;;
      if snd r then eachLine handler rest (fst r) else Returns (fst r)
  end.

(** [readFile], lines 427-446, given what [ioutil.ReadFile] and then
    [ReadLine] give of the file: an error, or its lines. *)
Definition readFile {S : Type} (file : Sigar.error + list string)
    (handler : S -> string -> outcome (S * bool)) (st : S)
    : outcome (S * option Sigar.error) :=
  match file with
  | inl err => Returns (st, Some err)
  | inr lines => st' <- eachLine handler lines st ;;; Returns (st', None)
  end.

(** The handler of [getProcStatus] (lines 477-482) and of [ProcIO.Get]
    (lines 290-294): the map being filled is the state. *)
Definition keyValue (status : gmap string string) (line : string)
    : outcome (gmap string string * bool) :=
  match Text.SplitN2 line ":" with
  | [k; v] => Returns (<[k := Text.TrimSpace v]> status, true)
  | _ => Returns (status, true)
  end.

(** [getProcStatus], lines 473-485, given the lines of the status file. *)
Definition getProcStatus (file : Sigar.error + list string)
    : outcome (gmap string string * option Sigar.error) :=
  readFile file keyValue ∅.

(** [ProcIO.Get], lines 285-338: the receiver as the call leaves it, and
    the error.  A key that the file lacks reads as the empty string, which
    [strtoull] turns into 0; the errors built by [fmt.Errorf] are dropped. *)
Definition ProcIO_Get (file : Sigar.error + list string) (self : Sigar.ProcIO.t)
    : outcome (Sigar.ProcIO.t * option Sigar.error) :=
  r <- readFile file keyValue ∅ ;;;
  match r with
  | (_, Some err) => Returns (self, Some err)
  | (statistics, None) =>
      let counter key :=
        fst (Linux.strtoull (default EmptyString (statistics !! key))) in
      Returns (Sigar.ProcIO.mk (counter "rchar"%string) (counter "wchar"%string)
                 (counter "syscr"%string) (counter "syscw"%string)
                 (counter "read_bytes"%string) (counter "write_bytes"%string),
               None)
  end.

(** The handler of [parseMeminfo], lines 413-423.  The table maps a key to
    the variable it points to; the state is the values of those
    variables. *)
Definition meminfoLine (table : gmap string Z) (line : string)
    : outcome (gmap string Z * bool) :=
  let fields := Text.Split line ":" in
  f0 <- index fields 0 ;;;
  match table !! f0 with
  | Some _ =>
      f1 <- index fields 1 ;;;
      let num := Text.TrimLeft_space f1 in
      w <- index (GoStrings.Fields num) 0 ;;;
      match Linux.strtoull w with
      | (val, None) => Returns (<[f0 := GoInt.mul_u64 val 1024]> table, true)
      | (_, Some _) => Returns (table, true)
      end
  | None => Returns (table, true)
  end.

(** [parseMeminfo], lines 411-425. *)
Definition parseMeminfo (file : Sigar.error + list string) (table : gmap string Z)
    : outcome (gmap string Z * option Sigar.error) :=
  readFile file meminfoLine table.

(** The fields of [Mem] and [Swap] that the code assigns (the types are
    declared in another file of the package). *)
Module Mem.
Record t : Type := mk {
  Total : Z; Used : Z; Free : Z; ActualFree : Z; ActualUsed : Z }.
End Mem.

Module Swap.
Record t : Type := mk { Total : Z; Used : Z; Free : Z }.
End Swap.

Definition value (table : gmap string Z) (key : string) : Z :=
  default 0 (table !! key).

(** [Mem.Get], lines 55-74: the receiver as the call leaves it, and the
    error. *)
Definition Mem_Get (file : Sigar.error + list string) (self : Mem.t)
    : outcome (Mem.t * option Sigar.error) :=
  let table : gmap string Z :=
    <["MemTotal"%string := Mem.Total self]>
    (<["MemFree"%string := Mem.Free self]>
    (<["Buffers"%string := 0]>
    (<["Cached"%string := 0]> ∅))) in
  r <- parseMeminfo file table ;;;
  let '(table, err) := r in
  let Total := value table "MemTotal" in
  let Free := value table "MemFree" in
  let buffers := value table "Buffers" in
  let cached := value table "Cached" in
  match err with
  | Some err =>
      Returns (Mem.mk Total (Mem.Used self) Free (Mem.ActualFree self)
                 (Mem.ActualUsed self), Some err)
  | None =>
      let Used := GoInt.sub_u64 Total Free in
      let kern := GoInt.wrap64 (buffers + cached) in
      let ActualFree := GoInt.wrap64 (Free + kern) in
      let ActualUsed := GoInt.sub_u64 Used kern in
      Returns (Mem.mk Total Used Free ActualFree ActualUsed, None)
  end.

(** [Swap.Get], lines 76-88. *)
Definition Swap_Get (file : Sigar.error + list string) (self : Swap.t)
    : outcome (Swap.t * option Sigar.error) :=
  let table : gmap string Z :=
    <["SwapTotal"%string := Swap.Total self]>
    (<["SwapFree"%string := Swap.Free self]> ∅) in
  r <- parseMeminfo file table ;;;
  let '(table, err) := r in
  let Total := value table "SwapTotal" in
  let Free := value table "SwapFree" in
  match err with
  | Some err => Returns (Swap.mk Total (Swap.Used self) Free, Some err)
  | None => Returns (Swap.mk Total (GoInt.sub_u64 Total Free) Free, None)
  end.

(** The handler of [getLinuxBootTime], lines 31-37, on the boot time. *)
Definition bootTimeLine (btime : Z) (line : string) : outcome (Z * bool) :=
  if Text.HasPrefix line "btime"
  then rest <- Text.from line 6 ;;; Returns (fst (Linux.strtoull rest), false)
  else Returns (btime, true).

(** [getLinuxBootTime], lines 29-38: the [system] it leaves; the error of
    [readFile] is dropped. *)
Definition getLinuxBootTime (file : Sigar.error + list string) (sys : Linux.system)
    : outcome Linux.system :=
  r <- readFile file bootTimeLine (Linux.btime sys) ;;;
  Returns {| Linux.ticks := Linux.ticks sys; Linux.btime := fst r |}.

(** The pairs of [ProcEnv.Get], lines 374-386: [vars] is [self.Vars]. *)
Definition envPair (vars : gmap string string) (kv : string) : gmap string string :=
  match Text.SplitN2 kv "=" with
  | [k; v] =>
      let key := Text.TrimSpace k in
      if String.eqb key "" then vars else <[key := Text.TrimSpace v]> vars
  | _ => vars
  end.

(** [ProcEnv.Get], lines 363-389: [self.Vars] as the call leaves it
    ([None] is the nil map), and the error. *)
Definition ProcEnv_Get (fs : Sigar.ProcFS) (self : option (gmap string string))
    (pid : Z) : option (gmap string string) * option Sigar.error :=
  match Sigar.readProcFile fs pid "environ" with
  | inl err => (self, Some err)
  | inr contents =>
      let vars := default ∅ self in
      (Some (foldl envPair vars (Text.Split contents Ascii.zero)), None)
  end.

End Lines.

(** ** Cutting *)

Lemma cutByte_first (c : ascii) (a b : string) :
  occurs c a = false -> Text.cutByte c (a +:+ String c b) = Some (a, b).
Proof.
  induction a as [| x a IH]; intros Ha.
  - rewrite append_Empty. cbn [Text.cutByte]. now rewrite Ascii.eqb_refl.
  - cbn [occurs] in Ha. apply orb_false_iff in Ha as [Hx Ha].
    rewrite append_String. cbn [Text.cutByte]. now rewrite Hx, (IH Ha).
Qed.

Lemma cutByte_absent (c : ascii) (s : string) :
  occurs c s = false -> Text.cutByte c s = None.
Proof.
  induction s as [| x s IH]; intros Hs; [reflexivity |].
  cbn [occurs] in Hs. apply orb_false_iff in Hs as [Hx Hs].
  cbn [Text.cutByte]. now rewrite Hx, (IH Hs).
Qed.

Lemma split_on_piece (c : ascii) (a cur rest : string) :
  occurs c a = false ->
  split_on c cur (a +:+ String c rest) = (cur +:+ a) :: split_on c EmptyString rest.
Proof.
  revert cur. induction a as [| x a IH]; intros cur Ha.
  - rewrite append_Empty, append_nil_r. cbn [split_on]. now rewrite Ascii.eqb_refl.
  - cbn [occurs] in Ha. apply orb_false_iff in Ha as [Hx Ha].
    rewrite append_String. cbn [split_on]. rewrite Hx, (IH _ Ha).
    now rewrite (append_assoc cur (String x "") a).
Qed.

Lemma split_on_last (c : ascii) (a cur : string) :
  occurs c a = false -> split_on c cur a = [cur +:+ a].
Proof.
  revert cur. induction a as [| x a IH]; intros cur Ha.
  - now rewrite append_nil_r.
  - cbn [occurs] in Ha. apply orb_false_iff in Ha as [Hx Ha].
    cbn [split_on]. rewrite Hx, (IH _ Ha).
    now rewrite (append_assoc cur (String x "") a).
Qed.

(** ** Lines *)

(** A handler that neither panics nor stops folds over the lines. *)
Lemma eachLine_total {S : Type} (f : S -> string -> S)
    (handler : S -> string -> outcome (S * bool)) (lines : list string) (st : S) :
  (forall st line, handler st line = Returns (f st line, true)) ->
  Lines.eachLine handler lines st = Returns (foldl f st lines).
Proof.
  intros Hhandler. revert st. induction lines as [| line lines IH]; intros st.
  - reflexivity.
  - cbn [Lines.eachLine foldl]. rewrite Hhandler. cbn [outcome_bind fst snd].
    apply IH.
Qed.

(** What the handler of [key: value] lines stores. *)
Definition keyValueOf (status : gmap string string) (line : string)
    : gmap string string :=
  match Text.SplitN2 line ":" with
  | [k; v] => <[k := Text.TrimSpace v]> status
  | _ => status
  end.

Lemma keyValue_total (status : gmap string string) (line : string) :
  Lines.keyValue status line = Returns (keyValueOf status line, true).
Proof.
  unfold Lines.keyValue, keyValueOf, Text.SplitN2.
  now destruct (Text.cutByte ":" line) as [[k v] |].
Qed.

(** The value of the last line [key:value] of [lines] that has the key
    [key], after [found]. *)
Definition lastValue (key : string) (found : option string) (lines : list string)
    : option string :=
  foldl (fun found line =>
           match Text.cutByte ":" line with
           | Some (k, v) => if String.eqb k key then Some v else found
           | None => found
           end) found lines.

Lemma keyValueOf_lookup (key : string) (lines : list string)
    (status : gmap string string) (found : option string) :
  status !! key = Text.TrimSpace <$> found ->
  foldl keyValueOf status lines !! key
  = Text.TrimSpace <$> lastValue key found lines.
Proof.
  revert status found. induction lines as [| line lines IH];
    intros status found Hfound; [exact Hfound |].
  unfold lastValue in *. cbn [foldl]. apply IH.
  unfold keyValueOf, Text.SplitN2.
  destruct (Text.cutByte ":" line) as [[k v] |]; [| exact Hfound].
  destruct (String.eqb_spec k key) as [-> | Hne].
  - now rewrite lookup_insert_eq.
  - now rewrite lookup_insert_ne.
Qed.

(** X24.  [ProcIO.Get] fails only when the file cannot be read, and never
    panics.  Each of its six counters is the number that [strtoull] reads
    from the trimmed value of the last line [key:value] with the
    counter's key, whatever else the file holds; a counter whose key no
    line has is 0, and no error tells. *)
Theorem ProcIO_Get_counters (file : error + list string) (self : ProcIO.t) :
  match file with
  | inl err => Lines.ProcIO_Get file self = Returns (self, Some err)
  | inr lines =>
      let counter key :=
        match lastValue key None lines with
        | Some v => fst (Linux.strtoull (Text.TrimSpace v))
        | None => 0
        end in
      Lines.ProcIO_Get file self
      = Returns (ProcIO.mk (counter "rchar"%string) (counter "wchar"%string)
                   (counter "syscr"%string) (counter "syscw"%string)
                   (counter "read_bytes"%string) (counter "write_bytes"%string),
                 None)
  end.
Proof.
  destruct file as [err | lines]; [reflexivity |].
  intros counter. unfold Lines.ProcIO_Get, Lines.readFile.
  rewrite (eachLine_total keyValueOf) by apply keyValue_total.
  cbn [outcome_bind].
  assert (Hcounter : forall key,
            fst (Linux.strtoull
                   (default EmptyString (foldl keyValueOf ∅ lines !! key)))
            = counter key).
  { intros key. rewrite (keyValueOf_lookup key lines ∅ None) by apply lookup_empty.
    subst counter. cbn beta. now destruct (lastValue key None lines). }
  now rewrite !Hcounter.
Qed.

(** ** The environment of a process *)

(** The bytes of an environment: each variable as [name=value] followed
    by a NUL byte. *)
Definition environBytes (vars : list (string * string)) : string :=
  fold_right (fun kv rest => kv.1 +:+ "=" +:+ kv.2 +:+ String Ascii.zero rest)
    EmptyString vars.

(** A variable that the block spells unambiguously: no "=" in the name,
    no NUL byte in name or value, and a name that is not white space
    only. *)
Definition spelled (kv : string * string) : Prop :=
  occurs "=" kv.1 = false /\ occurs Ascii.zero kv.1 = false /\
  occurs Ascii.zero kv.2 = false /\ Text.TrimSpace kv.1 <> EmptyString.

Lemma Split_environBytes (vars : list (string * string)) :
  Forall spelled vars ->
  Text.Split (environBytes vars) Ascii.zero
  = ((fun kv => kv.1 +:+ "=" +:+ kv.2) <$> vars) ++ [EmptyString].
Proof.
  unfold Text.Split. induction 1 as [| [k v] vars (Heq & Hk & Hv & _) _ IH];
    [reflexivity |].
  cbn [fst snd] in *.
  change (environBytes ((k, v) :: vars))
    with (k +:+ "=" +:+ v +:+ String Ascii.zero (environBytes vars)).
  replace (k +:+ "=" +:+ v +:+ String Ascii.zero (environBytes vars))
    with ((k +:+ "=" +:+ v) +:+ String Ascii.zero (environBytes vars))
    by (now rewrite !append_assoc).
  rewrite split_on_piece.
  - rewrite append_Empty. cbn [fmap list_fmap app fst snd]. f_equal. exact IH.
  - rewrite !occurs_append, Hk, Hv. reflexivity.
Qed.

Lemma envPair_spelled (vars : gmap string string) (kv : string * string) :
  spelled kv ->
  Lines.envPair vars (kv.1 +:+ "=" +:+ kv.2)
  = <[Text.TrimSpace kv.1 := Text.TrimSpace kv.2]> vars.
Proof.
  destruct kv as [k v]. intros (Heq & _ & _ & Hkey). cbn [fst snd] in *.
  unfold Lines.envPair, Text.SplitN2.
  change (k +:+ "=" +:+ v) with (k +:+ String "=" v).
  rewrite cutByte_first by exact Heq.
  destruct (String.eqb_spec (Text.TrimSpace k) ""); [contradiction | reflexivity].
Qed.

(** X25.  [ProcEnv.Get] on an environment block that spells its variables
    unambiguously: the variables are stored one after the other under
    their trimmed names with their trimmed values, a later variable
    replacing an earlier one of the same name; what follows the last NUL
    byte (nothing, here) adds no variable, and no error is returned. *)
Theorem ProcEnv_Get_variables (fs : ProcFS) (pid : Z) (vars : list (string * string)) :
  readProcFile fs pid "environ" = inr (environBytes vars) ->
  Forall spelled vars ->
  Lines.ProcEnv_Get fs None pid
  = (Some (foldl (fun m kv => <[Text.TrimSpace kv.1 := Text.TrimSpace kv.2]> m)
             ∅ vars),
     None).
Proof.
  intros Hread Hvars. unfold Lines.ProcEnv_Get. rewrite Hread.
  rewrite Split_environBytes by exact Hvars. cbn [default].
  rewrite foldl_app. cbn [foldl].
  change (Lines.envPair ?m "") with m. f_equal. f_equal. clear Hread.
  generalize (∅ : gmap string string) as m.
  induction Hvars as [| kv vars Hkv _ IH]; intros m; [reflexivity |].
  cbn [fmap list_fmap foldl]. rewrite envPair_spelled by exact Hkv. apply IH.
Qed.

(** ** The memory of the system *)

(** Only spaces in [s]. *)
Fixpoint blank (s : string) : bool :=
  match s with
  | EmptyString => true
  | String c s' => Ascii.eqb c " " && blank s'
  end.

Lemma blank_occurs (c : ascii) (s : string) :
  c <> " "%char -> blank s = true -> occurs c s = false.
Proof.
  intros Hc. induction s as [| x s IH]; [reflexivity |].
  cbn [blank occurs]. intros [Hx Hs]%andb_true_iff.
  apply Ascii.eqb_eq in Hx as ->. rewrite (IH Hs), orb_false_r.
  apply Ascii.eqb_neq. congruence.
Qed.

Lemma TrimLeft_space_blank (pad s : string) :
  blank pad = true ->
  (forall c s', s = String c s' -> Ascii.eqb c " " = false) ->
  Text.TrimLeft_space (pad +:+ s) = s.
Proof.
  intros Hpad Hs. induction pad as [| x pad IH].
  - rewrite append_Empty. destruct s as [| c s']; [reflexivity |].
    cbn [Text.TrimLeft_space]. now rewrite (Hs c s').
  - cbn [blank] in Hpad. apply andb_true_iff in Hpad as [Hx Hpad].
    rewrite append_String. cbn [Text.TrimLeft_space]. rewrite Hx. now apply IH.
Qed.

Lemma digitsOnly_spaceFree (s : string) : digitsOnly s = true -> spaceFree s = true.
Proof.
  induction s as [| c s IH]; [reflexivity |]. cbn [digitsOnly spaceFree].
  destruct (GoStrings.digit_of c) as [d |] eqn:Hc; [| discriminate].
  intros Hs. rewrite (IH Hs), andb_true_r. apply Nat.eqb_eq.
  revert Hc. unfold GoStrings.digit_of. cbv zeta.
  destruct (Nat.leb_spec 48 (nat_of_ascii c)); [| discriminate].
  destruct (Nat.leb_spec (nat_of_ascii c) 57); [| discriminate]. intros _.
  apply spaceWidth_ascii; [lia |]. unfold GoStrings.isSpace. cbv zeta.
  destruct (Nat.leb_spec (nat_of_ascii c) 13); [lia |].
  destruct (Nat.eqb_spec (nat_of_ascii c) 32); [lia |].
  now rewrite andb_false_r.
Qed.

(** A line of /proc/meminfo as the kernel writes it: the key, a colon,
    spaces, the number of kilobytes, and the unit. *)
Definition meminfoLineOf (entry : string * string * Z) : string :=
  entry.1.1 +:+ ":" +:+ entry.1.2 +:+ Strconv.formatBits 20 entry.2 "" +:+ " kB".

Definition kernelEntry (entry : string * string * Z) : Prop :=
  occurs ":" entry.1.1 = false /\ blank entry.1.2 = true /\ 0 <= entry.2 < 2 ^ 54.

(** What the handler of [parseMeminfo] does with such a line. *)
Definition storeEntry (table : gmap string Z) (entry : string * string * Z)
    : gmap string Z :=
  match table !! entry.1.1 with
  | Some _ => <[entry.1.1 := entry.2 * 1024]> table
  | None => table
  end.

Lemma meminfoLine_entry (table : gmap string Z) (entry : string * string * Z) :
  kernelEntry entry ->
  Lines.meminfoLine table (meminfoLineOf entry)
  = Returns (storeEntry table entry, true).
Proof.
  destruct entry as [[key pad] kB]. unfold kernelEntry, meminfoLineOf, storeEntry.
  cbn [fst snd]. intros (Hkey & Hpad & HkB).
  set (digits := Strconv.formatBits 20 kB "").
  assert (Hdigits : digitsOnly digits = true)
    by (apply formatBits_digitsOnly; [lia | reflexivity]).
  destruct (formatBits_head 19 kB EmptyString) as (c & rest & d & Hhead & Hd);
    [lia |].
  fold digits in Hhead.
  assert (Hsplit : Text.Split (key +:+ ":" +:+ pad +:+ digits +:+ " kB") ":"
                   = [key; pad +:+ digits +:+ " kB"]).
  { unfold Text.Split.
    change (key +:+ ":" +:+ pad +:+ digits +:+ " kB")
      with (key +:+ String ":" (pad +:+ digits +:+ " kB")).
    rewrite split_on_piece by exact Hkey. rewrite append_Empty.
    rewrite split_on_last; [reflexivity |].
    rewrite !occurs_append, (blank_occurs ":" pad) by (discriminate || assumption).
    rewrite (digitsOnly_occurs ":" digits) by (reflexivity || assumption).
    reflexivity. }
  unfold Lines.meminfoLine. rewrite Hsplit.
  cbn [index lookup list_lookup outcome_bind].
  destruct (table !! key) as [old |]; [| reflexivity].
  cbn [index lookup list_lookup outcome_bind].
  rewrite TrimLeft_space_blank; [| exact Hpad |].
  2:{ intros c' s' Heq. rewrite Hhead in Heq. rewrite append_String in Heq.
      injection Heq as <- _. apply Ascii.eqb_neq. intros ->. discriminate. }
  rewrite Fields_append by reflexivity.
  rewrite Fields_word; [| rewrite Hhead; discriminate
                        | now apply digitsOnly_spaceFree].
  cbn [app index lookup list_lookup outcome_bind].
  unfold Linux.strtoull. subst digits. rewrite ParseUint_formatBits by lia.
  unfold GoInt.mul_u64, GoInt.wrap64, GoInt.two64. rewrite Z.mod_small by lia.
  reflexivity.
Qed.

(** Lines that the handler takes without panicking or stopping are
    folded over; the loop goes on with the lines that follow. *)
Lemma eachLine_prefix {S X : Type} (f : S -> X -> S) (line : X -> string)
    (handler : S -> string -> outcome (S * bool)) (items : list X)
    (rest : list string) (st : S) :
  Forall (fun item => forall st, handler st (line item) = Returns (f st item, true))
    items ->
  Lines.eachLine handler ((line <$> items) ++ rest) st
  = Lines.eachLine handler rest (foldl f st items).
Proof.
  intros Hitems. revert st. induction Hitems as [| item items Hitem _ IH];
    intros st; [reflexivity |].
  cbn [fmap list_fmap app Lines.eachLine foldl]. rewrite Hitem.
  cbn [outcome_bind fst snd]. apply IH.
Qed.

(** The bytes that the last entry for [key] gives, [d] when there is none. *)
Definition lastBytes (key : string) (d : Z) (entries : list (string * string * Z))
    : Z :=
  foldl (fun found entry =>
           if String.eqb entry.1.1 key then entry.2 * 1024 else found) d entries.

Lemma storeEntry_value (key : string) (entries : list (string * string * Z))
    (table : gmap string Z) :
  is_Some (table !! key) ->
  is_Some (foldl storeEntry table entries !! key) /\
  Lines.value (foldl storeEntry table entries) key
  = lastBytes key (Lines.value table key) entries.
Proof.
  revert table. induction entries as [| entry entries IH]; intros table Hkey;
    [split; [exact Hkey | reflexivity] |].
  unfold lastBytes in *. cbn [foldl].
  assert (Hstep : is_Some (storeEntry table entry !! key) /\
                  Lines.value (storeEntry table entry) key
                  = if String.eqb entry.1.1 key then entry.2 * 1024
                    else Lines.value table key).
  { unfold storeEntry, Lines.value.
    destruct (String.eqb_spec entry.1.1 key) as [-> | Hne].
    - destruct Hkey as [old ->]. rewrite lookup_insert_eq. eauto.
    - destruct (table !! entry.1.1); rewrite ?lookup_insert_ne by exact Hne; auto. }
  destruct Hstep as [Hsome Hvalue]. rewrite <- Hvalue. now apply IH.
Qed.

Lemma parseMeminfo_entries (entries : list (string * string * Z))
    (rest : list string) (table : gmap string Z) :
  Forall kernelEntry entries ->
  Lines.eachLine Lines.meminfoLine ((meminfoLineOf <$> entries) ++ rest) table
  = Lines.eachLine Lines.meminfoLine rest (foldl storeEntry table entries).
Proof.
  intros Hentries. apply eachLine_prefix.
  eapply Forall_impl; [exact Hentries |].
  intros entry Hentry st. now apply meminfoLine_entry.
Qed.

(** X26.  [Mem.Get] and [Swap.Get] on a meminfo file in the format of the
    kernel (lines [Key:   n kB], with n below 2^54).  The total and the
    free memory are 1024 times the numbers of the last [MemTotal] and
    [MemFree] lines, and what the receiver held when the file has no such
    line; the used memory is total minus free, the memory actually free
    adds the last [Buffers] and [Cached] lines (0 without them) to the free
    memory, and the memory actually used takes them from the used memory,
    all modulo 2^64.  [Swap.Get] does the same with [SwapTotal] and
    [SwapFree].  Lines with other keys change nothing. *)
Theorem Mem_Get_kernel_format (entries : list (string * string * Z))
    (self : Lines.Mem.t) (swap : Lines.Swap.t) :
  Forall kernelEntry entries ->
  let file : error + list string := inr (meminfoLineOf <$> entries) in
  let Total := lastBytes "MemTotal" (Lines.Mem.Total self) entries in
  let Free := lastBytes "MemFree" (Lines.Mem.Free self) entries in
  let kern :=
    GoInt.wrap64 (lastBytes "Buffers" 0 entries + lastBytes "Cached" 0 entries) in
  let SwapTotal := lastBytes "SwapTotal" (Lines.Swap.Total swap) entries in
  let SwapFree := lastBytes "SwapFree" (Lines.Swap.Free swap) entries in
  Lines.Mem_Get file self
  = Returns (Lines.Mem.mk Total (GoInt.sub_u64 Total Free) Free
               (GoInt.wrap64 (Free + kern))
               (GoInt.sub_u64 (GoInt.sub_u64 Total Free) kern), None) /\
  Lines.Swap_Get file swap
  = Returns (Lines.Swap.mk SwapTotal (GoInt.sub_u64 SwapTotal SwapFree) SwapFree,
             None).
Proof.
  intros Hentries file Total Free kern SwapTotal SwapFree.
  assert (Hrun : forall table,
            Lines.parseMeminfo file table
            = Returns (foldl storeEntry table entries, None)).
  { intros table. unfold Lines.parseMeminfo, Lines.readFile, file.
    rewrite <- (app_nil_r (meminfoLineOf <$> entries)).
    rewrite parseMeminfo_entries by exact Hentries. reflexivity. }
  split.
  - unfold Lines.Mem_Get. rewrite Hrun. cbn [outcome_bind].
    set (table := <["MemTotal"%string := _]> _).
    destruct (storeEntry_value "MemTotal" entries table) as [_ ->];
      [subst table; rewrite lookup_insert_eq; eauto |].
    destruct (storeEntry_value "MemFree" entries table) as [_ ->];
      [subst table; rewrite lookup_insert_ne, lookup_insert_eq by discriminate;
       eauto |].
    destruct (storeEntry_value "Buffers" entries table) as [_ ->];
      [subst table; rewrite !lookup_insert_ne, lookup_insert_eq by discriminate;
       eauto |].
    destruct (storeEntry_value "Cached" entries table) as [_ ->];
      [subst table; rewrite !lookup_insert_ne, lookup_insert_eq by discriminate;
       eauto |].
    reflexivity.
  - unfold Lines.Swap_Get. rewrite Hrun. cbn [outcome_bind].
    set (table := <["SwapTotal"%string := _]> _).
    destruct (storeEntry_value "SwapTotal" entries table) as [_ ->];
      [subst table; rewrite lookup_insert_eq; eauto |].
    destruct (storeEntry_value "SwapFree" entries table) as [_ ->];
      [subst table; rewrite lookup_insert_ne, lookup_insert_eq by discriminate;
       eauto |].
    reflexivity.
Qed.

(** X27.  [parseMeminfo] indexes what it has split without checking: on a
    line that is a key of its table and nothing more, and on a line that
    is such a key and a colon followed by spaces only, it panics.  So
    [Mem.Get] panics on a meminfo file that has such a line for one of
    its four keys after lines in the format of the kernel. *)
Theorem Mem_Get_panics (entries : list (string * string * Z)) (key pad : string)
    (rest : list string) (self : Lines.Mem.t) :
  Forall kernelEntry entries ->
  key ∈ ["MemTotal"; "MemFree"; "Buffers"; "Cached"]%string ->
  blank pad = true ->
  Lines.Mem_Get (inr ((meminfoLineOf <$> entries) ++ key :: rest)) self = Panics /\
  Lines.Mem_Get (inr ((meminfoLineOf <$> entries) ++ (key +:+ ":" +:+ pad) :: rest))
    self = Panics.
Proof.
  intros Hentries Hkey Hpad.
  set (table := (<["MemTotal"%string := Lines.Mem.Total self]>
                 (<["MemFree"%string := Lines.Mem.Free self]>
                 (<["Buffers"%string := 0]> (<["Cached"%string := 0]> ∅)))
                 : gmap string Z)).
  assert (Hcolon : occurs ":" key = false).
  { repeat (apply elem_of_cons in Hkey as [-> | Hkey]; [reflexivity |]).
    now apply elem_of_nil in Hkey. }
  assert (Hsome : is_Some (foldl storeEntry table entries !! key)).
  { apply storeEntry_value. subst table.
    repeat (apply elem_of_cons in Hkey as [-> | Hkey];
            [rewrite ?lookup_insert_ne by discriminate; rewrite lookup_insert_eq;
             eauto |]).
    now apply elem_of_nil in Hkey. }
  destruct Hsome as [old Hold].
  split; unfold Lines.Mem_Get, Lines.parseMeminfo, Lines.readFile; fold table;
    rewrite parseMeminfo_entries by exact Hentries; cbn [Lines.eachLine].
  - unfold Lines.meminfoLine at 1. unfold Text.Split.
    rewrite split_on_last by exact Hcolon. rewrite append_Empty.
    cbn [index lookup list_lookup outcome_bind]. rewrite Hold. reflexivity.
  - unfold Lines.meminfoLine at 1. unfold Text.Split.
    change (key +:+ ":" +:+ pad) with (key +:+ String ":" pad).
    rewrite split_on_piece by exact Hcolon. rewrite append_Empty.
    rewrite split_on_last by (apply blank_occurs; [discriminate | exact Hpad]).
    rewrite append_Empty.
    cbn [index lookup list_lookup outcome_bind]. rewrite Hold.
    cbn [index lookup list_lookup outcome_bind].
    rewrite <- (append_nil_r pad) at 1.
    rewrite TrimLeft_space_blank by (first [exact Hpad | discriminate]).
    reflexivity.
Qed.

(** ** The boot time *)

Lemma bootTimeLine_other (btime : Z) (line : string) :
  Text.HasPrefix line "btime" = false ->
  Lines.bootTimeLine btime line = Returns (btime, true).
Proof. intros Hline. unfold Lines.bootTimeLine. now rewrite Hline. Qed.

(** X28.  [getLinuxBootTime] takes the boot time from the first line of
    the stat file that starts with [btime] and reads no further: the
    number after [btime ] on that line becomes the boot time, whatever
    lines follow.  A line that is [btime] alone panics (the line is sliced
    from byte 6).  Without such a line, and when the file cannot be read,
    the boot time stays as it was, and no error tells. *)
Theorem getLinuxBootTime_first_btime (before after : list string)
    (sys : Linux.system) (v : Z) :
  Forall (fun line => Text.HasPrefix line "btime" = false) before ->
  0 <= v < 2 ^ 64 ->
  Lines.getLinuxBootTime
    (inr (before ++ ("btime " +:+ Strconv.formatBits 20 v "") :: after)) sys
  = Returns {| Linux.ticks := Linux.ticks sys; Linux.btime := v |} /\
  Lines.getLinuxBootTime (inr (before ++ "btime"%string :: after)) sys = Panics /\
  Lines.getLinuxBootTime (inr before) sys = Returns sys /\
  (forall err, Lines.getLinuxBootTime (inl err) sys = Returns sys).
Proof.
  intros Hbefore Hv.
  assert (Hskip : forall rest,
            Lines.eachLine Lines.bootTimeLine (before ++ rest) (Linux.btime sys)
            = Lines.eachLine Lines.bootTimeLine rest (Linux.btime sys)).
  { intros rest. rewrite <- (list_fmap_id before).
    rewrite (eachLine_prefix (fun btime _ => btime) id Lines.bootTimeLine).
    - f_equal. clear. induction before as [| l before IH]; [reflexivity | exact IH].
    - eapply Forall_impl; [exact Hbefore |].
      intros line Hline st. now apply bootTimeLine_other. }
  unfold Lines.getLinuxBootTime, Lines.readFile.
  split; [| split; [| split]].
  - rewrite Hskip. cbn [Lines.eachLine]. unfold Lines.bootTimeLine.
    set (digits := Strconv.formatBits 20 v "").
    change (Text.HasPrefix ("btime " +:+ digits) "btime") with true. cbv iota.
    unfold Text.from. rewrite length_append.
    change (String.length "btime ") with 6%nat.
    replace (6 <=? 6 + String.length digits)%nat with true
      by (symmetry; apply Nat.leb_le; lia).
    replace (6 + String.length digits - 6)%nat with (String.length digits) by lia.
    change (String.substring 6 (String.length digits) ("btime " +:+ digits))
      with (String.substring 0 (String.length digits) digits).
    rewrite substring_whole by lia.
    cbn [outcome_bind snd fst]. unfold Linux.strtoull. subst digits.
    rewrite ParseUint_formatBits by lia. reflexivity.
  - rewrite Hskip. reflexivity.
  - rewrite <- (app_nil_r before), Hskip. cbn. now destruct sys.
  - intros err. cbn. now destruct sys.
Qed.

(** ** The status file *)

(** X29.  [getProcStatus] fails only when the status file cannot be
    read, and never panics; [getUIDs] of the status it returns gives the
    fields of the trimmed value of the last line [Uid:...] when there are
    exactly four of them, and an error otherwise (no such line, or
    another number of fields). *)
Theorem getProcStatus_Uid (lines : list string) :
  exists status,
    Lines.getProcStatus (inr lines) = Returns (status, None) /\
    getUIDs status
    = match lastValue "Uid" None lines with
      | None => inl (ErrIO "Uid not found in proc status")
      | Some v =>
          let uidStrs := GoStrings.Fields (Text.TrimSpace v) in
          if (length uidStrs =? 4)%nat then inr uidStrs
          else inl (ErrIO "Uid line did not contain four values")
      end.
Proof.
  exists (foldl keyValueOf ∅ lines). split.
  - unfold Lines.getProcStatus, Lines.readFile.
    now rewrite (eachLine_total keyValueOf) by apply keyValue_total.
  - unfold getUIDs.
    rewrite (keyValueOf_lookup "Uid" lines ∅ None) by apply lookup_empty.
    now destruct (lastValue "Uid" None lines).
Qed.

(** * Part VI: the theorems at work on concrete systems *)

Lemma GetProcStats_snapshot_witness :
  Pid cached7 = 7 /\ 7 ∈ [7] /\
  (exists state, ProcState_Get procSystem 7 = inr state /\
                 Name cached7 = ProcState.Name state) /\
  MatchProcess (fixtureStats true ∅) (Name cached7) = true /\
  is_Some (Env cached7) /\
  Ctime cached7 = time_Now procSystem 7 /\
  cpuTotalPct cached7
  = GetProcCpuPercentage (ProcsMap (fixtureStats true ∅) !! 7) (Some cached7).
Proof.
  apply (GetProcStats_snapshot (H := insertionRuntime) (fixtureStats true ∅)
           procSystem [7]);
    [discriminate | reflexivity | vm_compute; reflexivity].
Defined.

Lemma GetProcStats_reports_snapshot_witness :
  let c := GetProcStats (rt := insertionRuntime) (fixtureStats true ∅) procSystem in
  exists (records : list MapStr) (sampled : list Z),
    fst (result c) = Returns (inr records) /\
    (fun r : MapStr => r !! "pid"%string) <$> records
    = (fun pid => Some (VInt pid)) <$> sampled /\
    sampled `sublist_of` [7] /\
    (forall pid, pid ∈ sampled <-> is_Some (ProcsMap (snd (result c)) !! pid)).
Proof.
  apply (GetProcStats_reports_snapshot (H := insertionRuntime)
           (fixtureStats true ∅) procSystem [7]);
    [discriminate | reflexivity | reflexivity].
Defined.

Lemma GetProcStats_queries_permitted_witness :
  permitted (fixtureStats true ∅) procSystem [7] (QProcEnv 7).
Proof.
  apply (GetProcStats_queries_permitted (H := insertionRuntime)
           (fixtureStats true ∅) procSystem [7] (QProcEnv 7));
    [reflexivity |].
  apply list_elem_of_lookup. exists 8%nat. vm_compute. reflexivity.
Defined.

Lemma environment_read_once_witness :
  QProcEnv 7
  ∉ queries (GetProcStats (rt := insertionRuntime)
               (snd (result (GetProcStats (rt := insertionRuntime)
                               (fixtureStats true ∅) procSystem)))
               procSystem).
Proof.
  apply (environment_read_once (H := insertionRuntime) (fixtureStats true ∅)
           procSystem procSystem [7] 7); [reflexivity |].
  exists cached7. vm_compute. reflexivity.
Defined.

Lemma includeTopProcesses_within_length_witness :
  exists result,
    includeTopProcesses (rt := insertionRuntime) (topN 2 1) (GoSlice.of_list five)
    = Returns result /\
    (forall p, p ∈ result -> p ∈ GoSlice.elems (GoSlice.of_list five)) /\
    (length result <= Z.to_nat 2 + Z.to_nat 1)%nat /\
    (NoDup (Pid <$> GoSlice.elems (GoSlice.of_list five)) -> NoDup (Pid <$> result)).
Proof.
  apply (includeTopProcesses_within_length (H := insertionRuntime) (topN 2 1)
           (GoSlice.of_list five)); cbn; first [reflexivity | lia | left; lia].
Defined.

Lemma includeTopProcesses_largest_by_memory_witness :
  exists result rest,
    includeTopProcesses (rt := insertionRuntime) (topN 0 2) (GoSlice.of_list five)
    = Returns result /\
    length result = Z.to_nat 2 /\
    result ++ rest ≡ₚ GoSlice.elems (GoSlice.of_list five) /\
    (forall p q, p ∈ result -> q ∈ rest ->
       ProcMem.Resident (Mem q) <= ProcMem.Resident (Mem p)).
Proof.
  apply (includeTopProcesses_largest_by_memory (H := insertionRuntime) (topN 0 2)
           (GoSlice.of_list five)).
  - reflexivity.
  - cbn. lia.
  - cbn. lia.
  - cbn. lia.
  - change (NoDup [1; 2; 3; 4; 5]). compute_done.
Defined.

Lemma includeTopProcesses_largest_by_cpu_witness :
  exists result rest,
    includeTopProcesses (rt := insertionRuntime) (topN 2 0) (GoSlice.of_list five)
    = Returns result /\
    length result = Z.to_nat 2 /\
    result ++ rest ≡ₚ GoSlice.elems (GoSlice.of_list five) /\
    (forall p q, p ∈ result -> q ∈ rest ->
       F64.gt (cpuTotalPct q) (cpuTotalPct p) = false).
Proof.
  apply (includeTopProcesses_largest_by_cpu (H := insertionRuntime) (topN 2 0)
           (GoSlice.of_list five)).
  - reflexivity.
  - cbn. lia.
  - cbn. lia.
  - cbn. lia.
  - apply transitive_orderingb_sound. vm_compute. reflexivity.
Defined.

(** Three processes in a backing array of five. *)
Definition threeOfFive : GoSlice.slice Process :=
  GoSlice.mkSlice [p1; p2; p3; zeroProcess; zeroProcess] 3.

Lemma includeTopProcesses_spare_capacity_witness :
  exists result,
    includeTopProcesses (rt := insertionRuntime) (topN 4 0) threeOfFive
    = Returns result /\
    result = sort_Slice (GoRuntime := insertionRuntime) byCPU
               (GoSlice.elems threeOfFive)
             ++ take (Z.to_nat 4 - 3) (drop 3 (GoSlice.arr threeOfFive)) /\
    length result = Z.to_nat 4 /\
    (3 < length result)%nat.
Proof.
  apply (includeTopProcesses_spare_capacity (H := insertionRuntime) (topN 4 0)
           threeOfFive); cbn; first [reflexivity | lia].
Defined.

Lemma GetProcMemPercentage_nonneg_witness :
  F64.le F64.zero (result (GetProcMemPercentage procSystem cached7 0)) = true /\
  queries (GetProcMemPercentage procSystem cached7 0) = [QGetMemory] /\
  (forall err, 0 = 0 -> GetMemory procSystem = inl err ->
     result (GetProcMemPercentage procSystem cached7 0) = F64.zero).
Proof.
  apply (GetProcMemPercentage_nonneg procSystem cached7 0).
  - cbn. lia.
  - lia.
  - intros total _ [= <-]. lia.
Defined.

Lemma unixTimeMsToTime_range_witness :
  (1500000000000 <= 9223372036854 ->
   unixTimeMsToTime 1500000000000 = 1500000000000 * 1000000) /\
  (9223372036855 <= 1500000000000 <= 18446744073709 ->
   unixTimeMsToTime 1500000000000 = 1500000000000 * 1000000 - 2 ^ 64 /\
   unixTimeMsToTime 1500000000000 < 0) /\
  GoInt.is_i64 (unixTimeMsToTime 1500000000000) /\
  (unixTimeMsToTime 1500000000000 - 1500000000000 * 1000000) mod 2 ^ 64 = 0.
Proof.
  apply (unixTimeMsToTime_range 1500000000000).
  unfold GoInt.is_u64, GoInt.two64. lia.
Defined.

(** Process 7 of [procSystem], whose environment sets PATH, as
    [newProcess] builds it and as [getDetails] fills it in under an empty
    allow-list. *)
Definition listed7 : Process :=
  Eval vm_compute in
    match fst (newProcess procSystem 7 "" None []) with
    | inr proc => proc
    | inl _ => zeroProcess
    end.

Definition filtered7 : Process :=
  Eval vm_compute in
    match fst (getDetails procSystem (Some (isWhitelistedEnvVar (topN 0 0)))
                 listed7 [QProcState 7; QProcExe 7]) with
    | inr proc => proc
    | inl _ => zeroProcess
    end.

Lemma empty_whitelist_no_env_witness :
  ProcEnv_Get procSystem 7 = inr {[ "PATH"%string := "/bin"%string ]} /\
  Env filtered7 = Some ∅ /\
  processRecord (topN 0 0) filtered7 F64.zero !! "env"%string = None.
Proof.
  split; [reflexivity |].
  apply (empty_whitelist_no_env (topN 0 0) procSystem listed7 filtered7 F64.zero
           [QProcState 7; QProcExe 7]
           [QProcState 7; QProcExe 7; QProcMem 7; QProcTime 7; QProcIO 7;
            QProcArgs 7; QProcFDUsage 7; QProcEnv 7]);
    [reflexivity | reflexivity | vm_compute; reflexivity].
Defined.

(** A compiler of patterns that accepts every pattern, each as the
    matcher of every name. *)
Definition compileAny (pattern : string) : error + Matcher := inr anyName.

Lemma first_cycle_reports_zero_cpu_witness :
  cpuTotalPct cached7 = F64.zero.
Proof.
  apply (first_cycle_reports_zero_cpu compileAny (H := insertionRuntime)
           (fixtureStats true {[ 7 := old7 ]})
           (mkProcStats ["."%string] ∅ false ["PATH"%string] true
              {| Enabled := false; ByCPU := 0; ByMemory := 0 |}
              [anyName] [anyName])
           procSystem [7] eq_refl ltac:(discriminate) eq_refl 7 cached7).
  vm_compute. reflexivity.
Defined.

(** The stat record of a process whose name has two words. *)
Definition webContentFS : ProcFS :=
  {| readProcFile := fun _ _ =>
       inr "4242 (Web Content) S 1 4242 4242 0 -1 4194304 54 0 0 0 7 3 0 0 20 0 1 0 1234 173150208 1170 18446744073709551615 1 1 0 0 0 0 0 4096 0 0 0 0 17 3 0 0 0 0 0 0 0 0 0 0 0 0 0"%string;
     getProcStatus := fun _ => inr {[ "Uid"%string := "1000 1000 1000 1000"%string ]};
     LookupId := fun _ => None |}.

Lemma ProcState_Get_well_formed_witness :
  Sigar.ProcState_Get webContentFS 4242
  = Returns (inr (ProcState.mk "Web Content" "1000" "S" 1 4242 0 20 0 3)).
Proof.
  destruct (ProcState_Get_well_formed webContentFS 4242 "4242" "Web Content"
              " S 1 4242 4242 0 -1 4194304 54 0 0 0 7 3 0 0 20 0 1 0 1234 173150208 1170 18446744073709551615 1 1 0 0 0 0 0 4096 0 0 0 0 17 3 0 0 0 0 0 0 0 0 0 0 0 0 0"
              {[ "Uid"%string := "1000 1000 1000 1000"%string ]}
              ["1000"; "1000"; "1000"; "1000"]%string)
    as (state & uid & Hstate & Huid & Hget).
  - reflexivity.
  - reflexivity.
  - reflexivity.
  - reflexivity.
  - vm_compute. lia.
  - reflexivity.
  - reflexivity.
  - rewrite Hget. vm_compute in Hstate, Huid.
    injection Hstate as <-. injection Huid as <-. vm_compute. reflexivity.
Defined.

Lemma ProcState_Get_panics_witness :
  Sigar.ProcState_Get
    {| readProcFile := fun _ _ => inr EmptyString;
       getProcStatus := fun _ => inr ∅;
       LookupId := fun _ => None |} 1
  = Panics.
Proof.
  apply (ProcState_Get_panics _ 1 EmptyString); [reflexivity | left; reflexivity].
Defined.

Lemma ProcList_Get_numeric_names_witness :
  exists pids,
    Linux.ProcList_Get (inr ["1"; "self"; "4242"; "cpuinfo"]%string)
    = Returns (inr pids) /\
    Strconv.Itoa <$> pids
    = filter (fun name => numeric name = true) ["1"; "self"; "4242"; "cpuinfo"]%string /\
    Forall (fun pid => 0 <= pid <= GoInt.maxInt64) pids.
Proof.
  apply (ProcList_Get_numeric_names ["1"; "self"; "4242"; "cpuinfo"]%string).
  constructor; [| constructor; [| constructor; [| constructor; [| constructor]]]].
  - left. exists 1. split; [unfold GoInt.maxInt64; lia | reflexivity].
  - right. split; [discriminate | reflexivity].
  - left. exists 4242. split; [unfold GoInt.maxInt64; lia | reflexivity].
  - right. split; [discriminate | reflexivity].
Defined.

Lemma procFileName_injective_witness : 4242 = 4242 /\ "stat"%string = "stat"%string.
Proof.
  apply (procFileName_injective "/proc" 4242 4242 "stat" "stat");
    [unfold GoInt.is_i64, GoInt.minInt64, GoInt.maxInt64; lia
    | unfold GoInt.is_i64, GoInt.minInt64, GoInt.maxInt64; lia
    | reflexivity].
Defined.

(** A [chop] that drops the last byte. *)
Definition dropLast (s : string) : string :=
  String.substring 0 (String.length s - 1) s.

Lemma ProcArgs_Get_terminated_witness :
  let fs := {| readProcFile := fun _ _ =>
                 inr (cmdlineBytes ["ls"; "-l"]%string "/tmp");
               getProcStatus := fun _ => inr ∅;
               LookupId := fun _ => None |} in
  Linux.ProcArgs_Get dropLast fs 1
  = ((fun arg => dropLast (arg +:+ String Ascii.zero "")) <$> ["ls"; "-l"]%string,
     None).
Proof.
  apply (ProcArgs_Get_terminated dropLast _ 1 ["ls"; "-l"]%string "/tmp");
    [repeat constructor | reflexivity | reflexivity].
Defined.

Lemma ProcTime_Get_ticks_witness :
  let sys := {| Linux.ticks := 100; Linux.btime := 1500000000 |} in
  (Linux.ticks sys = 0 ->
   Linux.ProcTime_Get sys webContentFS ProcTime.zero 4242 = Panics) /\
  (0 < Linux.ticks sys ->
   (22 <= length (GoStrings.Fields
                    "4242 (Web Content) S 1 4242 4242 0 -1 4194304 54 0 0 0 7 3 0 0 20 0 1 0 1234 173150208 1170 18446744073709551615 1 1 0 0 0 0 0 4096 0 0 0 0 17 3 0 0 0 0 0 0 0 0 0 0 0 0 0"))%nat ->
   exists t,
     Linux.ProcTime_Get sys webContentFS ProcTime.zero 4242 = Returns (t, None) /\
     ProcTime.Total t = GoInt.wrap64 (ProcTime.User t + ProcTime.Sys t) /\
     (1000 < Linux.ticks sys ->
      ProcTime.User t = 0 /\ ProcTime.Sys t = 0 /\ ProcTime.Total t = 0)).
Proof.
  apply (ProcTime_Get_ticks {| Linux.ticks := 100; Linux.btime := 1500000000 |}
           webContentFS ProcTime.zero 4242).
  reflexivity.
Defined.

(** A process whose name is two words with a no-break space (U+00A0)
    between them: its stat record and its statm. *)
Definition noBreakName : string :=
  "a" +:+ String (GoStrings.byte 194) (String (GoStrings.byte 160) "b").

Definition noBreakStatistics : string :=
  " S 1 4242 4242 0 -1 4194304 54 0 0 0 7 3 0 0 20 0 1 0 1234 173150208 1170 18446744073709551615 1 1 0 0 0 0 0 4096 0 0 0 0 17 3 0 0 0 0 0 0 0 0 0 0 0 0 0".

Definition noBreakFS : ProcFS :=
  {| readProcFile := fun pid name =>
       if String.eqb name "statm" then inr "1170 300 200 1 0 50 0"%string
       else inr ("4242" +:+ " (" +:+ noBreakName +:+ ")" +:+ noBreakStatistics);
     getProcStatus := fun _ => inr {[ "Uid"%string := "1000 1000 1000 1000"%string ]};
     LookupId := fun _ => None |}.

Lemma ProcTime_Get_columns_witness :
  length (GoStrings.Fields ("(" +:+ noBreakName +:+ ")")) = 2%nat /\
  Linux.ProcTime_Get {| Linux.ticks := 100; Linux.btime := 1500000000 |}
    noBreakFS ProcTime.zero 4242
  = Returns (ProcTime.mk 1500000000000 0 70 70, None).
Proof.
  split; [reflexivity |].
  pose proof (ProcTime_Get_columns
                {| Linux.ticks := 100; Linux.btime := 1500000000 |}
                noBreakFS ProcTime.zero 4242 "4242" noBreakName noBreakStatistics
                eq_refl ltac:(discriminate) eq_refl eq_refl ltac:(cbn; lia)) as Hget.
  cbv zeta in Hget. rewrite Hget; [vm_compute; reflexivity | vm_compute; lia ..].
Defined.

Lemma GetProcStats_snapshot_domain_witness :
  is_Some (ProcsMap (snd (result (GetProcStats (rt := insertionRuntime)
                                     (fixtureStats true ∅) procSystem))) !! 7)
  <-> 7 ∈ [7] /\ stored (fixtureStats true ∅) procSystem 7 = true.
Proof.
  apply (GetProcStats_snapshot_domain (H := insertionRuntime)
           (fixtureStats true ∅) procSystem [7] 7);
    [discriminate | reflexivity].
Defined.

Lemma ProcMem_Get_pages_and_columns_witness :
  Linux.ProcMem_Get noBreakFS ProcMem.zero 4242
  = Returns (ProcMem.mk 4792320 1228800 819200 54 0 54, None).
Proof.
  pose proof (ProcMem_Get_pages_and_columns noBreakFS ProcMem.zero 4242
                "1170 300 200 1 0 50 0" "4242" noBreakName noBreakStatistics
                eq_refl eq_refl ltac:(vm_compute; lia) ltac:(discriminate)
                eq_refl eq_refl) as Hget.
  cbv zeta in Hget. destruct Hget as [Hget _]; [vm_compute; lia ..|].
  rewrite Hget. vm_compute. reflexivity.
Defined.

(** A process whose environment sets PATH twice. *)
Definition environFS : ProcFS :=
  {| readProcFile := fun _ _ =>
       inr (environBytes [("PATH", "/bin"); ("HOME", "/root");
                          ("PATH", "/usr/bin")]%string);
     getProcStatus := fun _ => inr ∅;
     LookupId := fun _ => None |}.

Lemma ProcEnv_Get_variables_witness :
  Lines.ProcEnv_Get environFS None 1
  = (Some {[ "PATH"%string := "/usr/bin"%string; "HOME"%string := "/root"%string ]},
     None).
Proof.
  rewrite (ProcEnv_Get_variables environFS 1
             [("PATH", "/bin"); ("HOME", "/root"); ("PATH", "/usr/bin")]%string).
  - vm_compute. reflexivity.
  - reflexivity.
  - repeat (constructor; [repeat split; vm_compute; discriminate |]).
    constructor.
Defined.

(** A meminfo file in the format of the kernel. *)
Definition meminfoEntries : list (string * string * Z) :=
  [("MemTotal", "       ", 16384); ("MemFree", "        ", 1024);
   ("Buffers", "          ", 10); ("Cached", "           ", 20);
   ("SwapTotal", "      ", 100); ("SwapFree", "       ", 50);
   ("Dirty", "            ", 5)]%string.

Lemma meminfoEntries_kernel : Forall kernelEntry meminfoEntries.
Proof.
  repeat (constructor; [split; [reflexivity | split; [reflexivity | cbn; lia]] |]).
  constructor.
Qed.

Lemma Mem_Get_kernel_format_witness :
  Lines.Mem_Get (inr (meminfoLineOf <$> meminfoEntries))
    (Lines.Mem.mk 0 0 0 0 0)
  = Returns (Lines.Mem.mk 16777216 15728640 1048576 1079296 15697920, None) /\
  Lines.Swap_Get (inr (meminfoLineOf <$> meminfoEntries)) (Lines.Swap.mk 0 0 0)
  = Returns (Lines.Swap.mk 102400 51200 51200, None).
Proof.
  apply (Mem_Get_kernel_format meminfoEntries (Lines.Mem.mk 0 0 0 0 0)
           (Lines.Swap.mk 0 0 0) meminfoEntries_kernel).
Defined.

Lemma Mem_Get_panics_witness :
  Lines.Mem_Get
    (inr ((meminfoLineOf <$> meminfoEntries) ++ ["MemFree"%string]))
    (Lines.Mem.mk 0 0 0 0 0) = Panics /\
  Lines.Mem_Get
    (inr ((meminfoLineOf <$> meminfoEntries) ++ ["MemFree:  "%string]))
    (Lines.Mem.mk 0 0 0 0 0) = Panics.
Proof.
  apply (Mem_Get_panics meminfoEntries "MemFree" "  " [] (Lines.Mem.mk 0 0 0 0 0)
           meminfoEntries_kernel).
  - apply list_elem_of_lookup. now exists 1%nat.
  - reflexivity.
Defined.

(** The lines of a stat file before its [btime] line. *)
Definition statLines : list string := ["cpu  1 2 3 4"; "intr 5"]%string.

Lemma getLinuxBootTime_first_btime_witness :
  let sys := {| Linux.ticks := 100; Linux.btime := 0 |} in
  Lines.getLinuxBootTime
    (inr (statLines ++ ("btime " +:+ Strconv.formatBits 20 1500000000 "")
                       :: ["processes 7"%string])) sys
  = Returns {| Linux.ticks := 100; Linux.btime := 1500000000 |} /\
  Lines.getLinuxBootTime
    (inr (statLines ++ "btime"%string :: ["processes 7"%string])) sys
  = Panics /\
  Lines.getLinuxBootTime (inr statLines) sys = Returns sys /\
  (forall err, Lines.getLinuxBootTime (inl err) sys = Returns sys).
Proof.
  apply (getLinuxBootTime_first_btime statLines ["processes 7"%string]
           {| Linux.ticks := 100; Linux.btime := 0 |} 1500000000).
  - repeat (constructor; [reflexivity |]). constructor.
  - lia.
Defined.

(** A process whose [exe] link may not be read. *)
Definition guardedLinks (path : string) : error + string :=
  if String.eqb path "/proc/7/exe" then inl ErrPermission
  else if String.eqb path "/proc/7/cwd" then inr "/srv"%string
  else inr "/"%string.

Lemma ProcExe_Get_order_witness :
  Links.ProcExe_Get guardedLinks "/proc" ["exe"; "cwd"; "root"]%string ProcExe.zero 7
  = (ProcExe.zero, Some ErrPermission) /\
  Links.ProcExe_Get guardedLinks "/proc" ["cwd"; "exe"; "root"]%string ProcExe.zero 7
  = (ProcExe.mk EmptyString "/srv" EmptyString, Some ErrPermission).
Proof.
  apply (proj2 (proj2 (ProcExe_Get_order guardedLinks "/proc" ProcExe.zero 7
                         ["root"; "exe"; "cwd"]%string
                         ltac:(unfold Links.exeLinks; solve_Permutation)))
           ErrPermission "/srv"%string);
    reflexivity.
Defined.
